(** * Cosmogenesis learning engine: HTTP facade, JSON subset and resolver

    A shallow embedding of [include/httplib.h], [include/json.hpp],
    [src/core/*.hpp] and [src/web/Server.hpp], followed by the properties
    established about them.

    Conventions.
    - [std::string] is [string]; positions inside a string are [nat]
      (they never exceed the size of a string that exists in memory).
    - [size_t] values that come from outside (the declared Content-Length)
      are [N] with the 64-bit wrap-around written out (LP64, the platform
      of the POSIX socket code).
    - [int] is [Z]; arithmetic of the resolver is wrapped to 32 bits and
      [%] is [Z.rem] (truncation toward zero).
    - [std::map<std::string, V>] is an association list kept in key order
      by its insertion functions ([StdMap]).
    - The socket and the file system are explicit: [recv] and [send] read
      a script of return values, file opens are looked up in a function
      and logged. *)

From Stdlib Require Import ZArith NArith Arith List String Ascii Bool Lia.
From Stdlib Require Import DecimalString Sorted.
From Stdlib Require DecimalNat DecimalPos DecimalZ.
Import ListNotations.
Open Scope string_scope.

(* ================================================================== *)
(** ** The subset of [std::string] and [<cctype>] the code uses *)

Module Str.

Definition CR : ascii := "013"%char.
Definition LF : ascii := "010"%char.
Definition DQ : ascii := "034"%char.
Definition BACKSLASH : ascii := "092"%char.

Definition chr (c : ascii) : string := String c EmptyString.
Definition CRLF : string := String CR (String LF EmptyString).
Definition CRLFCRLF : string := CRLF ++ CRLF.
Definition quoted (s : string) : string := chr DQ ++ s ++ chr DQ.

Definition code (c : ascii) : nat := nat_of_ascii c.

(** [std::isspace], [std::isdigit], [std::tolower], [std::toupper] in the
    "C" locale, on an [unsigned char]. *)
Definition isspace (c : ascii) : bool :=
  let n := code c in ((n =? 32) || ((9 <=? n) && (n <=? 13)))%nat.

Definition isdigit (c : ascii) : bool :=
  let n := code c in ((48 <=? n) && (n <=? 57))%nat.

Definition tolower (c : ascii) : ascii :=
  let n := code c in
  if ((65 <=? n) && (n <=? 90))%nat then ascii_of_nat (n + 32) else c.

Definition toupper (c : ascii) : ascii :=
  let n := code c in
  if ((97 <=? n) && (n <=? 122))%nat then ascii_of_nat (n - 32) else c.

Fixpoint drop (n : nat) (s : string) : string :=
  match n, s with
  | O, _ => s
  | S _, EmptyString => EmptyString
  | S n', String _ s' => drop n' s'
  end.

Fixpoint take (n : nat) (s : string) : string :=
  match n, s with
  | O, _ => EmptyString
  | S _, EmptyString => EmptyString
  | S n', String c s' => String c (take n' s')
  end.

(** [s.substr(pos, n)] for [pos <= s.size()] (every call site guarantees
    it): at most [n] characters from [pos]. *)
Definition substr (s : string) (pos n : nat) : string := take n (drop pos s).

(** [s.substr(pos)]. *)
Definition substr_from (s : string) (pos : nat) : string := drop pos s.

(** [s.substr(pos, n)] with a [size_t] count that may exceed any size:
    the count is [min(n, size() - pos)]. *)
Definition substr_n (s : string) (pos : nat) (n : N) : string :=
  take (N.to_nat (N.min n (N.of_nat (String.length s - pos)))) (drop pos s).

(** [s.find(needle, pos)]; [None] is [npos]. *)
Definition find (needle s : string) (pos : nat) : option nat :=
  index pos needle s.

(** [s.find(c)]. *)
Fixpoint find_chr (c : ascii) (s : string) : option nat :=
  match s with
  | EmptyString => None
  | String c' s' =>
      if Ascii.eqb c' c then Some 0 else option_map S (find_chr c s')
  end.

(** [s.rfind(needle, 0)]: a match can only start at index 0. *)
Definition rfind0 (needle s : string) : option nat :=
  if prefix needle s then Some 0 else None.

(** [s[i]] (the terminating NUL when [i = s.size()]). *)
Definition at_ (s : string) (i : nat) : ascii :=
  match get i s with Some c => c | None => zero end.

Definition empty (s : string) : bool :=
  match s with EmptyString => true | _ => false end.

Fixpoint back (s : string) : option ascii :=
  match s with
  | EmptyString => None
  | String c EmptyString => Some c
  | String _ s' => back s'
  end.

Fixpoint rev (s : string) : string :=
  match s with
  | EmptyString => EmptyString
  | String c s' => rev s' ++ chr c
  end.

(** [std::string(n, c)], [out.append(n, c)]. *)
Fixpoint fill (n : nat) (c : ascii) : string :=
  match n with O => EmptyString | S n' => String c (fill n' c) end.

(** Number of leading white-space characters: the [start++] loop. *)
Fixpoint skip_space (s : string) : nat :=
  match s with
  | EmptyString => 0
  | String c s' => if isspace c then S (skip_space s') else 0
  end.

(** The [end--] loop of [trim], counting [end_] down. *)
Fixpoint trim_end (value : string) (start end_ : nat) : nat :=
  match end_ with
  | O => O
  | S e =>
      if (start <? end_)%nat && isspace (at_ value e)
      then trim_end value start e
      else end_
  end.

(** [Server::trim]. *)
Definition trim (value : string) : string :=
  let start := skip_space value in
  let end_ := trim_end value start (String.length value) in
  substr value start (end_ - start).

(** [Server::case_insensitive_equal]: the index loop walks both strings
    in step once the sizes agree. *)
Fixpoint equal_lower (a b : string) : bool :=
  match a, b with
  | EmptyString, EmptyString => true
  | String x a', String y b' =>
      if Ascii.eqb (tolower x) (tolower y) then equal_lower a' b' else false
  | _, _ => false
  end.

Definition case_insensitive_equal (a b : string) : bool :=
  if negb (String.length a =? String.length b)%nat then false else equal_lower a b.

(** One [operator>>] on a string stream: skip white space, then read up
    to the next white space.  Returns the token and the unread rest. *)
Fixpoint read_word (s : string) : string * string :=
  match s with
  | EmptyString => (EmptyString, EmptyString)
  | String c s' =>
      if isspace c then (EmptyString, s)
      else let (w, r) := read_word s' in (String c w, r)
  end.

Definition extract_token (s : string) : string * string :=
  read_word (drop (skip_space s) s).

(** Decimal output of an [int] and of a [size_t] by [operator<<]. *)
Definition of_int (z : Z) : string := NilZero.string_of_int (Z.to_int z).
Definition of_size (n : nat) : string :=
  NilZero.string_of_uint (Nat.to_uint n).

(** Value of the leading decimal digits. *)
Fixpoint digits_value (s : string) (acc : N) : N :=
  match s with
  | EmptyString => acc
  | String c s' =>
      if isdigit c
      then digits_value s' (acc * 10 + N.of_nat (code c - 48))%N
      else acc
  end.

Definition SIZE_MODULUS : N := (2 ^ 64)%N.
Definition ULLONG_MAX : N := (2 ^ 64 - 1)%N.

(** [std::strtoull(s, nullptr, 10)]: white space, an optional sign, then
    digits.  No digits give 0; a value above [ULLONG_MAX] saturates; a
    leading minus negates in unsigned arithmetic. *)
Definition strtoull (s : string) : N :=
  let s1 := drop (skip_space s) s in
  let (neg, s2) :=
    match s1 with
    | String "-" r => (true, r)
    | String "+" r => (false, r)
    | _ => (false, s1)
    end in
  let v := digits_value s2 0%N in
  if (ULLONG_MAX <? v)%N then ULLONG_MAX
  else if neg then ((SIZE_MODULUS - v) mod SIZE_MODULUS)%N
  else v.

End Str.

(* ================================================================== *)
(** ** [std::map<std::string, V>] *)

Module StdMap.

Definition t (V : Type) : Type := list (string * V).

Definition empty {V : Type} : t V := [].

(** [m.find(k)]. *)
Fixpoint find {V : Type} (k : string) (m : t V) : option V :=
  match m with
  | [] => None
  | (k', v) :: m' => if String.eqb k' k then Some v else find k m'
  end.

(** [m.count(k)]. *)
Definition count {V : Type} (k : string) (m : t V) : nat :=
  match find k m with Some _ => 1 | None => 0 end.

(** [m[k] = v]: insert in key order, overwrite an existing entry. *)
Fixpoint set {V : Type} (k : string) (v : V) (m : t V) : t V :=
  match m with
  | [] => [(k, v)]
  | (k', v') :: m' =>
      match String.compare k k' with
      | Lt => (k, v) :: m
      | Eq => (k, v) :: m'
      | Gt => (k', v') :: set k v m'
      end
  end.

(** [m.emplace(k, v)]: insert in key order, keep an existing entry. *)
Fixpoint emplace {V : Type} (k : string) (v : V) (m : t V) : t V :=
  match m with
  | [] => [(k, v)]
  | (k', v') :: m' =>
      match String.compare k k' with
      | Lt => (k, v) :: m
      | Eq => m
      | Gt => (k', v') :: emplace k v m'
      end
  end.

Definition keys {V : Type} (m : t V) : list string := List.map fst m.

(** Iteration order of a [std::map]: strictly ascending keys. *)
Definition key_lt (a b : string) : Prop := String.compare a b = Lt.

Definition ordered {V : Type} (m : t V) : Prop := Sorted key_lt (keys m).

End StdMap.

(* ================================================================== *)
(** ** [include/httplib.h] *)

Module Request.
Record t : Type := mk {
  method : string;
  path : string;
  body : string;
  headers : StdMap.t string
}.
(** A default-constructed [Request]. *)
Definition init : t := mk "" "" "" StdMap.empty.
End Request.

Module Response.
Record t : Type := mk {
  status : Z;
  body : string;
  headers : StdMap.t string
}.
(** A default-constructed [Response]: [status{200}]. *)
Definition init : t := mk 200 "" StdMap.empty.

Definition with_status (st : Z) (r : t) : t := mk st (body r) (headers r).
Definition with_body (b : string) (r : t) : t := mk (status r) b (headers r).

Definition set_header (key value : string) (r : t) : t :=
  mk (status r) (body r) (StdMap.set key value (headers r)).

Definition set_content (value content_type : string) (r : t) : t :=
  set_header "Content-Type" content_type (with_body value r).
End Response.

Module Httplib.

Import Str.

(** [std::function<void(const Request &, Response &)>]: the response is
    passed in and the mutated response is passed out. *)
Definition Handler : Type := Request.t -> Response.t -> Response.t.

(** The fields of [class Server]. *)
Record Server : Type := mkServer {
  server_fd_ : Z;
  running_ : bool;
  get_handlers_ : StdMap.t Handler;
  post_handlers_ : StdMap.t Handler;
  mount_point_ : string;
  mount_dir_ : string
}.

(** [Server() = default] with the member initialisers. *)
Definition new_server : Server :=
  mkServer (-1) false StdMap.empty StdMap.empty "/" ".".

Definition Get (pattern : string) (handler : Handler) (s : Server) : Server :=
  mkServer (server_fd_ s) (running_ s)
           (StdMap.set pattern handler (get_handlers_ s)) (post_handlers_ s)
           (mount_point_ s) (mount_dir_ s).

Definition Post (pattern : string) (handler : Handler) (s : Server) : Server :=
  mkServer (server_fd_ s) (running_ s)
           (get_handlers_ s) (StdMap.set pattern handler (post_handlers_ s))
           (mount_point_ s) (mount_dir_ s).

(** Returns the [bool] result and the updated server. *)
Definition set_mount_point (mount_point dir : string) (s : Server)
  : bool * Server :=
  (true, mkServer (server_fd_ s) (running_ s)
                  (get_handlers_ s) (post_handlers_ s) mount_point dir).

Record ParsedRequest : Type := mkParsed {
  request : Request.t;
  header_end : nat;
  content_length : N
}.

(** *** Small helpers *)

Definition strip_query (path : string) : string :=
  match find_chr "?" path with
  | None => path
  | Some q => substr path 0 q
  end.

(** [std::equal(first1, last1, first2, last2, pred)]: the four-iterator
    overload is false when the two ranges differ in length. *)
Fixpoint std_equal (pred : ascii -> ascii -> bool) (a b : string) : bool :=
  match a, b with
  | EmptyString, EmptyString => true
  | String x a', String y b' => if pred x y then std_equal pred a' b' else false
  | _, _ => false
  end.

Definition ends_with (value suffix : string) : bool :=
  if (String.length value <? String.length suffix)%nat then false
  else std_equal (fun a b => Ascii.eqb (tolower a) (tolower b))
                 (rev suffix) (rev value).

Definition detect_mime (path : string) : string :=
  if ends_with path ".html" then "text/html"
  else if ends_with path ".css" then "text/css"
  else if ends_with path ".js" then "application/javascript"
  else if ends_with path ".json" then "application/json"
  else if ends_with path ".txt" then "text/plain"
  else "application/octet-stream".

Definition status_message (status : Z) : string :=
  match status with
  | 200 => "OK"
  | 201 => "Created"
  | 204 => "No Content"
  | 400 => "Bad Request"
  | 403 => "Forbidden"
  | 404 => "Not Found"
  | 500 => "Internal Server Error"
  | 503 => "Service Unavailable"
  | _ => "OK"
  end%Z.

(** *** Framing *)

(** The [while (pos < headers.size())] loop of [extract_content_length].
    [fuel] bounds the iterations; [None] only when it runs out. *)
Fixpoint extract_content_length_loop (fuel : nat) (headers : string)
  (pos : nat) : option N :=
  match fuel with
  | O => None
  | S fuel' =>
      if (pos <? String.length headers)%nat then
        let end_ := match find CRLF headers pos with
                    | Some e => e
                    | None => String.length headers
                    end in
        let line := substr headers pos (end_ - pos) in
        let pos' := end_ + 2 in
        match find_chr ":" line with
        | None => extract_content_length_loop fuel' headers pos'
        | Some colon =>
            let key := trim (substr line 0 colon) in
            if negb (case_insensitive_equal key "Content-Length")
            then extract_content_length_loop fuel' headers pos'
            else
              let value := trim (substr_from line (colon + 1)) in
              Some (strtoull value)
        end
      else Some 0%N
  end.

Definition extract_content_length (headers : string) : N :=
  match extract_content_length_loop (S (String.length headers)) headers 0 with
  | Some n => n
  | None => 0%N
  end.

(** The header loop of [parse_request]: [while (pos < out.header_end)]. *)
Fixpoint parse_headers_loop (fuel : nat) (raw : string) (header_end pos : nat)
  (headers : StdMap.t string) : option (StdMap.t string) :=
  match fuel with
  | O => None
  | S fuel' =>
      if (pos <? header_end)%nat then
        match find CRLF raw pos with
        | None => Some headers
        | Some next =>
            if (header_end <? next)%nat then Some headers
            else
              let header_line := substr raw pos (next - pos) in
              let pos' := next + 2 in
              match find_chr ":" header_line with
              | None => parse_headers_loop fuel' raw header_end pos' headers
              | Some colon =>
                  let key := trim (substr header_line 0 colon) in
                  let value := trim (substr_from header_line (colon + 1)) in
                  parse_headers_loop fuel' raw header_end pos'
                                     (StdMap.set key value headers)
              end
        end
      else Some headers
  end.

(** [parse_request(raw, out)] with [out.header_end] and
    [out.content_length] already set; [None] is [return false]. *)
Definition parse_request (raw : string) (header_end : nat)
  (content_length : N) : option ParsedRequest :=
  match find CRLF raw 0 with
  | None => None
  | Some line_end =>
      let request_line := substr raw 0 line_end in
      let (method, rest1) := extract_token request_line in
      let (path, rest2) := extract_token rest1 in
      if empty method || empty path then None
      else
        match parse_headers_loop (S header_end) raw header_end (line_end + 2)
                                 StdMap.empty with
        | None => None
        | Some headers =>
            let body := substr_n raw (header_end + 4) content_length in
            Some (mkParsed (Request.mk method path body headers)
                           header_end content_length)
        end
  end.

(** What one call of [::recv(fd, chunk, sizeof(chunk), 0)] returns: the
    bytes received (none when the peer has closed) or a failure, with
    [errno == EINTR] or not. *)
Inductive recv_result : Type :=
| Received (data : string)
| RecvFailed (eintr : bool).

Definition CHUNK : nat := 4096.

(** The locals of [read_request] that survive an iteration. *)
Record read_state : Type := mkRead {
  buffer : string;
  found : option nat;        (* header_end, None = npos *)
  declared : N               (* content_length *)
}.

Definition read_init : read_state := mkRead "" None 0%N.

(** [header_end + 4 + content_length] in [size_t]. *)
Definition total_needed (header_end : nat) (content_length : N) : N :=
  ((N.of_nat header_end + 4 + content_length) mod SIZE_MODULUS)%N.

(** [buffer.append(chunk, received)] and the header search that follows. *)
Definition absorb (st : read_state) (data : string) : read_state :=
  let buffer' := buffer st ++ data in
  match found st with
  | Some h => mkRead buffer' (Some h) (declared st)
  | None =>
      match find CRLFCRLF buffer' 0 with
      | Some h =>
          mkRead buffer' (Some h)
                 (extract_content_length (substr buffer' 0 (h + 2)))
      | None => mkRead buffer' None (declared st)
      end
  end.

Definition complete (st : read_state) : bool :=
  match found st with
  | Some h =>
      (total_needed h (declared st) <=? N.of_nat (String.length (buffer st)))%N
  | None => false
  end.

(** The [while (true)] loop of [read_request] over the results of the
    successive [recv] calls; an exhausted script is a closed peer.
    [None] is the [return false] inside the loop. *)
Fixpoint recv_loop (script : list recv_result) (st : read_state)
  : option read_state :=
  match script with
  | [] => Some st
  | RecvFailed true :: script' => recv_loop script' st
  | RecvFailed false :: _ => None
  | Received data :: script' =>
      if (String.length data =? 0)%nat then Some st
      else
        let st' := absorb st data in
        if complete st' then Some st'
        else if (String.length data <? CHUNK)%nat then Some st'
        else recv_loop script' st'
  end.

(** [read_request]: the buffer starts empty ([handle_client]). *)
Definition read_request (script : list recv_result) : option ParsedRequest :=
  match recv_loop script read_init with
  | None => None
  | Some st =>
      if empty (buffer st) then None
      else
        let located :=
          match found st with
          | Some h => Some (h, declared st)
          | None =>
              match find CRLFCRLF (buffer st) 0 with
              | None => None
              | Some h =>
                  Some (h, extract_content_length (substr (buffer st) 0 (h + 2)))
              end
          end in
        match located with
        | None => None
        | Some (h, cl) =>
            if (N.of_nat (String.length (buffer st)) <? total_needed h cl)%N
            then None
            else parse_request (buffer st) h cl
        end
  end.

(** *** Dispatch *)

(** The file system seen through [std::ifstream]: the contents of a path
    that opens, [None] for one that does not. *)
Definition FileSystem : Type := string -> option string.

Definition ensure_default_headers (res : Response.t) : Response.t :=
  if (StdMap.count "Content-Type" (Response.headers res) =? 0)%nat
  then Response.set_header "Content-Type" "text/plain" res
  else res.

(** [serve_file]: result, response, and the path handed to [ifstream]. *)
Definition serve_file (s : Server) (fs : FileSystem) (relative_path : string)
  (response : Response.t) : bool * Response.t * list string :=
  let full := mount_dir_ s in
  let full := if negb (empty full) &&
                 negb (match back full with
                       | Some c => Ascii.eqb c "/"
                       | None => false
                       end)
              then full ++ "/" else full in
  let full := full ++ relative_path in
  match fs full with
  | None => (false, response, [full])
  | Some contents =>
      (true,
       Response.set_header "Content-Type" (detect_mime relative_path)
         (Response.with_status 200 (Response.with_body contents response)),
       [full])
  end.

(** The [return] statement through which [dispatch] leaves. *)
Inductive dispatch_exit : Type :=
| ExitHandler          (* line 283 *)
| ExitMountEmpty       (* line 289 *)
| ExitIndex            (* line 295 *)
| ExitIndexMissing     (* line 299 *)
| ExitForbidden        (* line 314 *)
| ExitFile             (* line 318 *)
| ExitNotFound.        (* line 325 *)

Record dispatch_result : Type := mkDispatch {
  handled : bool;
  response : Response.t;
  opened : list string;
  exit_ : dispatch_exit
}.

Definition not_found (response : Response.t) : Response.t :=
  Response.with_body "not_found" (Response.with_status 404 response).

(** The table [dispatch] searches. *)
Definition handlers_for (s : Server) (method : string) : StdMap.t Handler :=
  if String.eqb method "POST" then post_handlers_ s else get_handlers_ s.

Definition dispatch (s : Server) (fs : FileSystem) (request : Request.t)
  (response : Response.t) : dispatch_result :=
  let path := strip_query (Request.path request) in
  let handlers := handlers_for s (Request.method request) in
  match StdMap.find path handlers with
  | Some handler =>
      mkDispatch true (ensure_default_headers (handler request response))
                 [] ExitHandler
  | None =>
      if empty (mount_point_ s) then
        mkDispatch false (not_found response) [] ExitMountEmpty
      else if String.eqb path (mount_point_ s)
              || (String.eqb (mount_point_ s) "/"
                  && String.eqb path (mount_point_ s)) then
        match serve_file s fs "index.html" response with
        | (true, response', log) =>
            mkDispatch true (ensure_default_headers response') log ExitIndex
        | (false, response', log) =>
            mkDispatch false (not_found response') log ExitIndexMissing
        end
      else
        let fallthrough log response :=
          mkDispatch false (not_found response) log ExitNotFound in
        if negb (empty (mount_point_ s)) then
          match rfind0 (mount_point_ s) path with
          | Some 0 =>
              let relative := substr_from path (String.length (mount_point_ s)) in
              let relative :=
                match relative with
                | String "/" r => r
                | _ => relative
                end in
              let relative :=
                if empty relative then "index.html" else relative in
              match find ".." relative 0 with
              | Some _ =>
                  mkDispatch false
                    (Response.with_body "forbidden"
                       (Response.with_status 403 response))
                    [] ExitForbidden
              | None =>
                  match serve_file s fs relative response with
                  | (true, response', log) =>
                      mkDispatch true (ensure_default_headers response') log
                                 ExitFile
                  | (false, response', log) => fallthrough log response'
                  end
              end
          | _ => fallthrough [] response
          end
        else fallthrough [] response
  end.

(** *** Response writer *)

(** The text [send_response] builds in its [ostringstream]. *)
Definition response_text (res : Response.t) : string :=
  let builder :=
    "HTTP/1.1 " ++ of_int (Response.status res) ++ " "
      ++ status_message (Response.status res) ++ CRLF in
  let builder :=
    fold_left (fun b (entry : string * string) =>
                 b ++ fst entry ++ ": " ++ snd entry ++ CRLF)
              (Response.headers res) builder in
  let builder :=
    builder ++ "Content-Length: "
            ++ of_size (String.length (Response.body res)) ++ CRLF in
  let builder := builder ++ "Connection: close" ++ CRLF ++ CRLF in
  builder ++ Response.body res.

(** The [while (sent < out.size())] loop over the results of the
    successive [::send] calls; returns the final [sent].  An exhausted
    script is a failed [send]. *)
Fixpoint send_loop (script : list Z) (size sent : nat) : nat :=
  match script with
  | [] => sent
  | written :: script' =>
      if (sent <? size)%nat then
        if (written <=? 0)%Z then sent
        else send_loop script' size (sent + Z.to_nat written)
      else sent
  end.

(** [send_response]: the bytes that reach the socket. *)
Definition send_response (script : list Z) (res : Response.t) : string :=
  let out := response_text res in
  substr out 0 (send_loop script (String.length out) 0).

Definition error_response (status : Z) (message : string) : Response.t :=
  Response.set_content message "text/plain"
    (Response.with_status status Response.init).

(** [handle_client]: the response that is serialised for one connection. *)
Definition handle_client (s : Server) (fs : FileSystem)
  (script : list recv_result) : Response.t :=
  match read_request script with
  | None => error_response 400 "Bad Request"
  | Some parsed =>
      let d := dispatch s fs (request parsed) Response.init in
      if negb (handled d) then
        error_response (Response.status (response d))
          (if empty (Response.body (response d)) then "Not Found"
           else Response.body (response d))
      else response d
  end.

End Httplib.

(* ================================================================== *)
(** ** [include/json.hpp] *)

(** [number_t] is [double].  The value tree, the parser and the writer
    never look inside a number; they reach it through the five
    conversions below, which are kept abstract. *)
Class DoubleOps : Type := {
  number : Type;
  (** [std::stod]; [None] when it throws. *)
  stod : string -> option number;
  (** [static_cast<number_t>(int)]. *)
  number_of_int : Z -> number;
  (** [static_cast<int>(number_t)]. *)
  int_of_number : number -> Z;
  (** [get<std::string>] on a number ([std::to_string]). *)
  string_of_number : number -> string;
  (** The text [dump_impl] emits for a number. *)
  print_number : number -> string
}.

Module Json.

Import Str.

(** The parser state ([text], [index]) is the unread suffix
    [text.substr(index)]; [at_end()] is the empty suffix.  A parse step
    returns a value and the new suffix, throws, or stops for lack of
    fuel (shown below never to happen from [parse]). *)
Inductive outcome (A : Type) : Type :=
| Ok (value : A) (rest : string)
| Throw (what : string)
| OutOfFuel.
Arguments Ok {A} value rest.
Arguments Throw {A} what.
Arguments OutOfFuel {A}.

Section Values.
Context {D : DoubleOps}.

(** [std::variant<nullptr_t, bool, double, string, array_t, object_t>]. *)
#[local] Unset Elimination Schemes.
Inductive json : Type :=
| Null
| Boolean (b : bool)
| Number (n : number)
| JString (s : string)
| Array (items : list json)
| Object (members : list (string * json)).
#[local] Set Elimination Schemes.

Definition is_object (j : json) : bool :=
  match j with Object _ => true | _ => false end.

(** The initializer-list constructor: [obj[item.first] = item.second]. *)
Definition of_pairs (init : list (string * json)) : json :=
  Object (fold_left (fun obj item => StdMap.set (fst item) (snd item) obj)
                    init StdMap.empty).

(** *** Typed extraction *)

Definition get_string (j : json) : string :=
  match j with
  | JString s => s
  | Number n => string_of_number n
  | Boolean b => if b then "true" else "false"
  | _ => ""
  end.

Definition INT_MIN : Z := (- 2 ^ 31)%Z.
Definition INT_MAX : Z := (2 ^ 31 - 1)%Z.

(** [std::stoi]: white space, an optional sign, digits; [None] when it
    throws ([invalid_argument] without a digit, [out_of_range] outside
    [int]). *)
Definition stoi (s : string) : option Z :=
  let s1 := drop (skip_space s) s in
  let (neg, s2) :=
    match s1 with
    | String "-" r => (true, r)
    | String "+" r => (false, r)
    | _ => (false, s1)
    end in
  match s2 with
  | EmptyString => None
  | String c _ =>
      if isdigit c then
        let v := Z.of_N (digits_value s2 0%N) in
        let v := if neg then (- v)%Z else v in
        if ((v <? INT_MIN) || (INT_MAX <? v))%Z then None else Some v
      else None
  end.

(** [get<int>]; [None] when [std::stoi] throws. *)
Definition get_int (j : json) : option Z :=
  match j with
  | Number n => Some (int_of_number n)
  | JString s => stoi s
  | _ => Some 0%Z
  end.

(** [value<std::string>(key, default_value)]. *)
Definition value_string (j : json) (key default_value : string) : string :=
  match j with
  | Object obj =>
      match StdMap.find key obj with
      | Some v => get_string v
      | None => default_value
      end
  | _ => default_value
  end.

(** [value<int>(key, default_value)]. *)
Definition value_int (j : json) (key : string) (default_value : Z)
  : option Z :=
  match j with
  | Object obj =>
      match StdMap.find key obj with
      | Some v => get_int v
      | None => Some default_value
      end
  | _ => Some default_value
  end.

(** *** Serialisation *)

Definition spaces (n : nat) : string := fill n " ".

(** The [switch] of the string case of [dump_impl]. *)
Fixpoint escape (s : string) : string :=
  match s with
  | EmptyString => EmptyString
  | String ch s' =>
      (if Ascii.eqb ch DQ then chr BACKSLASH ++ chr DQ
       else if Ascii.eqb ch BACKSLASH then chr BACKSLASH ++ chr BACKSLASH
       else if Ascii.eqb ch "008" then chr BACKSLASH ++ "b"
       else if Ascii.eqb ch "012" then chr BACKSLASH ++ "f"
       else if Ascii.eqb ch LF then chr BACKSLASH ++ "n"
       else if Ascii.eqb ch CR then chr BACKSLASH ++ "r"
       else if Ascii.eqb ch "009" then chr BACKSLASH ++ "t"
       else chr ch) ++ escape s'
  end.

Definition dump_string (s : string) : string := quoted (escape s).

(** Line break and indentation before an element, when [indent >= 0]. *)
Definition newline (indent depth : Z) : string :=
  if (0 <=? indent)%Z
  then chr LF ++ spaces (Z.to_nat indent * Z.to_nat depth)
  else "".

(** Separator after an element that is not the last one. *)
Definition separator (indent : Z) (last : bool) : string :=
  if last then "" else "," ++ (if (indent <? 0)%Z then " " else "").

Definition is_nil {A : Type} (l : list A) : bool :=
  match l with [] => true | _ => false end.

Fixpoint dump_impl (j : json) (indent depth : Z) : string :=
  match j with
  | Null => "null"
  | Boolean b => if b then "true" else "false"
  | Number n => print_number n
  | JString s => dump_string s
  | Array arr =>
      "[" ++
      (fix elements (l : list json) : string :=
         match l with
         | [] => ""
         | x :: l' =>
             newline indent (depth + 1)
               ++ dump_impl x indent (depth + 1)
               ++ separator indent (is_nil l')
               ++ elements l'
         end) arr
      ++ (if is_nil arr then "" else newline indent depth)
      ++ "]"
  | Object obj =>
      "{" ++
      (fix entries (l : list (string * json)) : string :=
         match l with
         | [] => ""
         | (k, v) :: l' =>
             newline indent (depth + 1)
               ++ dump_string k
               ++ ":" ++ (if (0 <=? indent)%Z then " " else "")
               ++ dump_impl v indent (depth + 1)
               ++ separator indent (is_nil l')
               ++ entries l'
         end) obj
      ++ (if is_nil obj then "" else newline indent depth)
      ++ "}"
  end.

(** [dump(indent = -1)]. *)
Definition dump (j : json) : string := dump_impl j (-1) 0.

(** *** Parser *)

Definition skip_ws (s : string) : string := drop (skip_space s) s.

(** [expect(c)]. *)
Definition expect (c : ascii) (s : string) : outcome unit :=
  match s with
  | String c' r =>
      if Ascii.eqb c' c then Ok tt r
      else Throw "json parse error: unexpected character"
  | EmptyString => Throw "json parse error: unexpected character"
  end.

(** [match(c)]: the new suffix when the character was consumed. *)
Definition match_ (c : ascii) (s : string) : option string :=
  match s with
  | String c' r => if Ascii.eqb c' c then Some r else None
  | EmptyString => None
  end.

(** [consume_literal]. *)
Fixpoint consume_literal (literal s : string) : outcome unit :=
  match literal with
  | EmptyString => Ok tt s
  | String l literal' =>
      match s with
      | String c r =>
          if Ascii.eqb c l then consume_literal literal' r
          else Throw "json parse error: unexpected literal"
      | EmptyString => Throw "json parse error: unexpected literal"
      end
  end.

(** The character an escape stands for, [None] for an unsupported one. *)
Definition unescape (esc : ascii) : option ascii :=
  if Ascii.eqb esc DQ then Some DQ
  else if Ascii.eqb esc BACKSLASH then Some BACKSLASH
  else if Ascii.eqb esc "/" then Some "/"%char
  else if Ascii.eqb esc "b" then Some "008"%char
  else if Ascii.eqb esc "f" then Some "012"%char
  else if Ascii.eqb esc "n" then Some LF
  else if Ascii.eqb esc "r" then Some CR
  else if Ascii.eqb esc "t" then Some "009"%char
  else None.

Fixpoint parse_string_body (s : string) : outcome string :=
  match s with
  | EmptyString => Throw "json parse error: unterminated string"
  | String ch r =>
      if Ascii.eqb ch DQ then Ok EmptyString r
      else if Ascii.eqb ch BACKSLASH then
        match r with
        | EmptyString => Throw "json parse error: invalid escape"
        | String esc r' =>
            match unescape esc with
            | None => Throw "json parse error: unsupported escape"
            | Some c =>
                match parse_string_body r' with
                | Ok result rest => Ok (String c result) rest
                | other => other
                end
            end
        end
      else
        match parse_string_body r with
        | Ok result rest => Ok (String ch result) rest
        | other => other
        end
  end.

(** Number of leading digits. *)
Fixpoint span_digits (s : string) : nat :=
  match s with
  | String c s' => if isdigit c then S (span_digits s') else 0
  | EmptyString => 0
  end.

(** How far [parse_number] advances [index]. *)
Definition scan_number (s : string) : nat :=
  let i := if Ascii.eqb (at_ s 0) "-" then 1 else 0 in
  let i := i + span_digits (drop i s) in
  let i := if Ascii.eqb (at_ s i) "."
           then S i + span_digits (drop (S i) s) else i in
  if Ascii.eqb (at_ s i) "e" || Ascii.eqb (at_ s i) "E" then
    let i := S i in
    let i := if Ascii.eqb (at_ s i) "+" || Ascii.eqb (at_ s i) "-"
             then S i else i in
    i + span_digits (drop i s)
  else i.

Definition parse_number (s : string) : outcome number :=
  let n := scan_number s in
  match stod (take n s) with
  | Some value => Ok value (drop n s)
  | None => Throw "stod"
  end.

Fixpoint parse_value (fuel : nat) (s : string) {struct fuel} : outcome json :=
  match fuel with
  | O => OutOfFuel
  | S fuel' =>
      match skip_ws s with
      | EmptyString => Throw "json parse error: unexpected end of input"
      | String ch r as s1 =>
          if Ascii.eqb ch DQ then
            match parse_string_body r with
            | Ok str rest => Ok (JString str) rest
            | Throw what => Throw what
            | OutOfFuel => OutOfFuel
            end
          else if Ascii.eqb ch "{" then
            match match_ "}" (skip_ws r) with
            | Some rest => Ok (Object StdMap.empty) rest
            | None => parse_members fuel' (skip_ws r) StdMap.empty
            end
          else if Ascii.eqb ch "[" then
            match match_ "]" (skip_ws r) with
            | Some rest => Ok (Array []) rest
            | None => parse_elements fuel' (skip_ws r) []
            end
          else if Ascii.eqb ch "t" then
            match consume_literal "true" s1 with
            | Ok _ rest => Ok (Boolean true) rest
            | Throw what => Throw what
            | OutOfFuel => OutOfFuel
            end
          else if Ascii.eqb ch "f" then
            match consume_literal "false" s1 with
            | Ok _ rest => Ok (Boolean false) rest
            | Throw what => Throw what
            | OutOfFuel => OutOfFuel
            end
          else if Ascii.eqb ch "n" then
            match consume_literal "null" s1 with
            | Ok _ rest => Ok Null rest
            | Throw what => Throw what
            | OutOfFuel => OutOfFuel
            end
          else
            match parse_number s1 with
            | Ok n rest => Ok (Number n) rest
            | Throw what => Throw what
            | OutOfFuel => OutOfFuel
            end
      end
  end

(** The [while (true)] loop of [parse_object], one member per turn. *)
with parse_members (fuel : nat) (s : string) (result : StdMap.t json)
  {struct fuel} : outcome json :=
  match fuel with
  | O => OutOfFuel
  | S fuel' =>
      match match_ DQ (skip_ws s) with
      | None => Throw "json parse error: expected string key"
      | Some r =>
          match parse_string_body r with
          | Ok key r1 =>
              match expect ":" (skip_ws r1) with
              | Ok _ r2 =>
                  match parse_value fuel' r2 with
                  | Ok value r3 =>
                      let result' := StdMap.emplace key value result in
                      match match_ "}" (skip_ws r3) with
                      | Some rest => Ok (Object result') rest
                      | None =>
                          match expect "," (skip_ws r3) with
                          | Ok _ r4 => parse_members fuel' r4 result'
                          | Throw what => Throw what
                          | OutOfFuel => OutOfFuel
                          end
                      end
                  | other => other
                  end
              | Throw what => Throw what
              | OutOfFuel => OutOfFuel
              end
          | Throw what => Throw what
          | OutOfFuel => OutOfFuel
          end
      end
  end

(** The [while (true)] loop of [parse_array], one element per turn;
    [result] holds the elements read so far, last one first. *)
with parse_elements (fuel : nat) (s : string) (result : list json)
  {struct fuel} : outcome json :=
  match fuel with
  | O => OutOfFuel
  | S fuel' =>
      match parse_value fuel' s with
      | Ok value r1 =>
          let result' := value :: result in
          match match_ "]" (skip_ws r1) with
          | Some rest => Ok (Array (List.rev result')) rest
          | None =>
              match expect "," (skip_ws r1) with
              | Ok _ r2 => parse_elements fuel' r2 result'
              | Throw what => Throw what
              | OutOfFuel => OutOfFuel
              end
          end
      | other => other
      end
  end.

(** [json::parse(text)]. *)
Definition parse (text : string) : outcome json :=
  match parse_value (S (2 * String.length text)) text with
  | Ok value rest =>
      match skip_ws rest with
      | EmptyString => Ok value EmptyString
      | _ => Throw "json parse error: trailing data"
      end
  | other => other
  end.

End Values.
End Json.

(* ================================================================== *)
(** ** [src/core/Models.hpp], [src/core/Resolver.hpp] *)

Module Node.
Record t : Type := mk {
  title : string;
  arcana : string;
  seed : Z;
  timestamp : string
}.
(** A default-constructed [Node]: [seed{33}]. *)
Definition init : t := mk "" "" 33 "".
End Node.

Module Resolver.

Import Str.

(** Two's-complement wrap of an [int] result. *)
Definition wrap_int (z : Z) : Z := ((z + 2 ^ 31) mod 2 ^ 32 - 2 ^ 31)%Z.

Definition letter_value (c : ascii) : Z :=
  let upper := Z.of_nat (code (toupper c)) in
  if ((65 <=? upper) && (upper <=? 90))%Z then (upper - 65 + 1)%Z else 0%Z.

(** The [for (char c : s)] loop of [pythag_sum], from a running [sum]. *)
Fixpoint pythag_loop (s : string) (sum : Z) : Z :=
  match s with
  | EmptyString => sum
  | String c s' => pythag_loop s' (wrap_int (sum + letter_value c))
  end.

Definition pythag_sum (s : string) : Z := pythag_loop s 0.

Definition digit_value (c : ascii) : Z :=
  if isdigit c then (Z.of_nat (code c) - 48)%Z else 0%Z.

Fixpoint digits_loop (s : string) (sum : Z) : Z :=
  match s with
  | EmptyString => sum
  | String c s' => digits_loop s' (wrap_int (sum + digit_value c))
  end.

Definition sum_digits (s : string) : Z := digits_loop s 0.

Definition day_mod_36 (iso : string) : Z := 0.

(** [3 * A + 2 * B + 2 * (C * 2) + (n.seed % 72)]. *)
Definition score (n : Node.t) : Z :=
  let A := pythag_sum (Node.title n) in
  let B := sum_digits (Node.arcana n) in
  let C := day_mod_36 (Node.timestamp n) in
  wrap_int (wrap_int (wrap_int (wrap_int (3 * A) + wrap_int (2 * B))
                      + wrap_int (2 * wrap_int (C * 2)))
            + Z.rem (Node.seed n) 72).

(** [Resolver::resolve]. *)
Definition resolve (n : Node.t) : Z := wrap_int (Z.rem (score n) 72 + 1).

End Resolver.

(* ================================================================== *)
(** ** [src/core/Registry.hpp], [src/web/Server.hpp] *)

Module Web.

Import Str Httplib.

Section App.
Context {D : DoubleOps}.

(** [json::get<Node>]; [None] when an extraction throws. *)
Definition get_node (j : Json.json) : option Node.t :=
  if Json.is_object j then
    let title := Json.value_string j "title" "" in
    let arcana := Json.value_string j "arcana" "0" in
    match Json.value_int j "seed" 33 with
    | None => None
    | Some seed =>
        Some (Node.mk title arcana seed (Json.value_string j "timestamp" ""))
    end
  else Some Node.init.

Record Registry : Type := mkRegistry {
  root : Json.json;
  ok : bool
}.

(** [load_registry]: [file] is the text of the file when it opens. *)
Definition load_registry (file : option string) : Registry :=
  match file with
  | None => mkRegistry Json.Null false
  | Some text =>
      match Json.parse text with
      | Json.Ok j _ => mkRegistry j true
      | _ => mkRegistry Json.Null false
      end
  end.

Definition NO_REGISTRY : string :=
  "{" ++ quoted "error" ++ ":" ++ quoted "no_registry" ++ "}".

Definition BAD_JSON : string :=
  "{" ++ quoted "error" ++ ":" ++ quoted "bad_json" ++ "}".

Definition health_handler : Handler :=
  fun _ res => Response.set_content "ok" "text/html" res.

Definition registry_handler (reg : Registry) : Handler :=
  fun _ res =>
    if negb (ok reg) then
      Response.set_content NO_REGISTRY "application/json"
        (Response.with_status 503 res)
    else Response.set_content (Json.dump (root reg)) "application/json" res.

(** The reply document of [/resolve]. *)
Definition resolve_reply (id : Z) : Json.json :=
  Json.of_pairs [("worker_id", Json.Number (number_of_int id));
                 ("system", Json.JString "raku-lite-cpp")].

Definition bad_json (res : Response.t) : Response.t :=
  Response.set_content BAD_JSON "application/json"
    (Response.with_status 400 res).

(** The [try] block and its [catch (...)]. *)
Definition resolve_handler : Handler :=
  fun req res =>
    match Json.parse (Request.body req) with
    | Json.Ok j _ =>
        match get_node j with
        | Some node =>
            let id := Resolver.resolve node in
            Response.set_content (Json.dump (resolve_reply id))
                                 "application/json" res
        | None => bad_json res
        end
    | _ => bad_json res
    end.

(** The constructor of the application's [Server]. *)
Definition make_server (reg : Registry) : Httplib.Server :=
  let api := new_server in
  let api := Get "/core/health-check.html" health_handler api in
  let api := Get "/registry" (registry_handler reg) api in
  let api := Post "/resolve" resolve_handler api in
  snd (set_mount_point "/" "./public" api).

End App.
End Web.

(* ================================================================== *)
(** ** A model of the number conversions on whole numbers

    Exact on the integers a payload of the engine carries (worker ids,
    seeds); it lets the definitions above run on concrete requests. *)

Module WholeNumbers.

Import Str.

Fixpoint all_digits (s : string) : bool :=
  match s with
  | EmptyString => true
  | String c s' => isdigit c && all_digits s'
  end.

(** A sign and digits only; anything else is not converted. *)
Definition stod_whole (s : string) : option Z :=
  let (neg, digits) :=
    match s with
    | String "-" r => (true, r)
    | _ => (false, s)
    end in
  if negb (empty digits) && all_digits digits then
    let v := Z.of_N (digits_value digits 0%N) in
    Some (if neg then (- v)%Z else v)
  else None.

#[export] Instance whole : DoubleOps := {|
  number := Z;
  stod := stod_whole;
  number_of_int := fun z => z;
  int_of_number := fun z => z;
  string_of_number := of_int;
  print_number := of_int
|}.

End WholeNumbers.

(* ================================================================== *)
(** ** Vocabulary of the properties *)

Module Spec.

Import Str Httplib.

(** A server on which only [Get] and [Post] were ever called. *)
Inductive routes_only : Server -> Prop :=
| routes_new : routes_only new_server
| routes_get pattern handler s :
    routes_only s -> routes_only (Get pattern handler s)
| routes_post pattern handler s :
    routes_only s -> routes_only (Post pattern handler s).

(** [s] occurs in [t] as a substring. *)
Definition contains (s t : string) : Prop :=
  exists before after, t = before ++ s ++ after.

(** What is left of a path after the mount prefix and one leading
    slash. *)
Definition remainder (mount_point path : string) : string :=
  let rest := drop (String.length mount_point) path in
  match rest with
  | String "/" r => r
  | _ => rest
  end.

(** A route (method, pattern) registered on the server. *)
Definition registered (s : Server) (method pattern : string)
  (handler : Handler) : Prop :=
  (method = "GET" /\ StdMap.find pattern (get_handlers_ s) = Some handler)
  \/ (method = "POST"
      /\ StdMap.find pattern (post_handlers_ s) = Some handler).

(** A complete header block [head], its terminator and a body of
    exactly the declared number of bytes, all within the address space. *)
Definition wire (head body w : string) : Prop :=
  w = head ++ CRLFCRLF ++ body
  /\ find CRLFCRLF w 0 = Some (String.length head)
  /\ extract_content_length (head ++ CRLF) = N.of_nat (String.length body)
  /\ (N.of_nat (String.length w) < SIZE_MODULUS)%N.

(** The successive results of [recv] that hand over [w], [b] being what
    was handed over before: every read that leaves part of [w] outstanding
    fills the whole chunk, an interrupted read is retried, and nothing is
    asked of what follows the read that completes [w]. *)
Inductive delivery (w : string) : string -> list recv_result -> Prop :=
| delivery_last b data rest :
    data <> "" -> b ++ data = w ->
    delivery w b (Received data :: rest)
| delivery_full b data rest :
    String.length data = CHUNK ->
    delivery w (b ++ data) rest ->
    delivery w b (Received data :: rest)
| delivery_eintr b rest :
    delivery w b rest ->
    delivery w b (RecvFailed true :: rest).

(** The state of the read loop once [b] has been buffered. *)
Definition buffered (b : string) : read_state :=
  mkRead b (find CRLFCRLF b 0)
         match find CRLFCRLF b 0 with
         | Some h => extract_content_length (substr b 0 (h + 2))
         | None => 0%N
         end.

(** A response obtained from a fresh one through the members of
    [struct Response]. *)
Inductive from_api : Response.t -> Prop :=
| api_init : from_api Response.init
| api_status st r : from_api r -> from_api (Response.with_status st r)
| api_body b r : from_api r -> from_api (Response.with_body b r)
| api_header k v r : from_api r -> from_api (Response.set_header k v r)
| api_content b ct r : from_api r -> from_api (Response.set_content b ct r).

(** The header lines of a response, one per entry, in iteration order. *)
Fixpoint header_lines (hs : StdMap.t string) : string :=
  match hs with
  | [] => ""
  | (k, v) :: hs' => k ++ ": " ++ v ++ CRLF ++ header_lines hs'
  end.

(** Results of [::send] under which all [size] bytes get written: each
    call made while bytes are outstanding returns a positive count. *)
Inductive sends_all (size : nat) : nat -> list Z -> Prop :=
| sends_done sent script : size <= sent -> sends_all size sent script
| sends_more sent written script :
    sent < size -> (0 < written)%Z ->
    sends_all size (sent + Z.to_nat written) script ->
    sends_all size sent (written :: script).

(** *** Syntactically valid JSON (the grammar of RFC 8259) *)

Fixpoint all_chars (p : ascii -> bool) (s : string) : bool :=
  match s with
  | EmptyString => true
  | String c s' => p c && all_chars p s'
  end.

Definition ws_char (c : ascii) : bool :=
  let n := code c in ((n =? 32) || (n =? 9) || (n =? 10) || (n =? 13))%nat.

Definition hex_char (c : ascii) : bool :=
  let n := code c in
  (((48 <=? n) && (n <=? 57)) || ((65 <=? n) && (n <=? 70))
   || ((97 <=? n) && (n <=? 102)))%nat.

Definition escape_char (c : ascii) : bool :=
  existsb (Ascii.eqb c) [DQ; BACKSLASH; "/"; "b"; "f"; "n"; "r"; "t"]%char.

Definition ws (s : string) : Prop := all_chars ws_char s = true.

Definition digits (s : string) : Prop :=
  s <> "" /\ all_chars isdigit s = true.

(** The characters between the quotation marks of a string. *)
Inductive json_chars : string -> Prop :=
| chars_end : json_chars ""
| chars_plain c s :
    (32 <=? code c)%nat = true -> c <> DQ -> c <> BACKSLASH ->
    json_chars s -> json_chars (String c s)
| chars_escape e s :
    escape_char e = true -> json_chars s ->
    json_chars (String BACKSLASH (String e s))
| chars_unicode h1 h2 h3 h4 s :
    all_chars hex_char (String h1 (String h2 (String h3 (String h4 ""))))
    = true ->
    json_chars s ->
    json_chars (String BACKSLASH (String "u" (String h1 (String h2
                 (String h3 (String h4 s)))))).

Inductive json_int : string -> Prop :=
| int_zero : json_int "0"
| int_nonzero c s :
    isdigit c = true -> c <> "0"%char -> all_chars isdigit s = true ->
    json_int (String c s).

Inductive json_frac : string -> Prop :=
| frac_none : json_frac ""
| frac_some d : digits d -> json_frac ("." ++ d).

Inductive json_exp : string -> Prop :=
| exp_none : json_exp ""
| exp_some e sign d :
    e = "e" \/ e = "E" -> sign = "" \/ sign = "+" \/ sign = "-" ->
    digits d -> json_exp (e ++ sign ++ d).

Inductive json_number : string -> Prop :=
| number_intro sign i f e :
    sign = "" \/ sign = "-" -> json_int i -> json_frac f -> json_exp e ->
    json_number (sign ++ i ++ f ++ e).

Inductive json_value : string -> Prop :=
| value_null : json_value "null"
| value_true : json_value "true"
| value_false : json_value "false"
| value_number n : json_number n -> json_value n
| value_string s : json_chars s -> json_value (quoted s)
| value_array_empty w : ws w -> json_value ("[" ++ w ++ "]")
| value_array es : json_elements es -> json_value ("[" ++ es ++ "]")
| value_object_empty w : ws w -> json_value ("{" ++ w ++ "}")
| value_object ms : json_members ms -> json_value ("{" ++ ms ++ "}")
with json_elements : string -> Prop :=
| elements_last w1 v w2 :
    ws w1 -> json_value v -> ws w2 -> json_elements (w1 ++ v ++ w2)
| elements_more w1 v w2 es :
    ws w1 -> json_value v -> ws w2 -> json_elements es ->
    json_elements (w1 ++ v ++ w2 ++ "," ++ es)
with json_members : string -> Prop :=
| members_last w1 k w2 w3 v w4 :
    ws w1 -> json_chars k -> ws w2 -> ws w3 -> json_value v -> ws w4 ->
    json_members (w1 ++ quoted k ++ w2 ++ ":" ++ w3 ++ v ++ w4)
| members_more w1 k w2 w3 v w4 ms :
    ws w1 -> json_chars k -> ws w2 -> ws w3 -> json_value v -> ws w4 ->
    json_members ms ->
    json_members (w1 ++ quoted k ++ w2 ++ ":" ++ w3 ++ v ++ w4 ++ "," ++ ms).

Definition valid_json (text : string) : Prop :=
  exists w1 v w2, ws w1 /\ json_value v /\ ws w2 /\ text = w1 ++ v ++ w2.

(** A header block that starts with a request line: a method and a path,
    neither empty nor holding white space, one space between them, and
    after the path the end of the block or white space (a version, the
    line end and header lines, say). *)
Definition request_line (method path after head : string) : Prop :=
  head = method ++ " " ++ path ++ after
  /\ method <> "" /\ path <> ""
  /\ all_chars (fun c => negb (isspace c)) method = true
  /\ all_chars (fun c => negb (isspace c)) path = true
  /\ match after with
     | EmptyString => True
     | String c _ => isspace c = true
     end.

End Spec.

Module PayloadSpec.

Import Str Web.

Section Payload.
Context {D : DoubleOps}.



End Payload.
End PayloadSpec.

(** ** Sample inputs *)

Module Samples.

Import Str Httplib.

(** A request of 9048 bytes: three reads of up to 4096 bytes. *)
Definition head : string :=
  "POST /resolve HTTP/1.1" ++ CRLF ++ "Content-Length: 9000".
Definition payload : string := fill (9 * 1000) "x".
Definition wire : string := head ++ CRLFCRLF ++ payload.
Definition reads : list recv_result :=
  [RecvFailed true;
   Received (substr wire 0 CHUNK);
   Received (substr wire CHUNK CHUNK);
   RecvFailed true;
   Received (substr_from wire (2 * CHUNK))].

Definition reply : Response.t :=
  Response.set_header "X-Engine" "raku"
    (Response.set_content "ok" "text/html" Response.init).

End Samples.

(* ================================================================== *)
(** ** [src/core/Models.hpp]: the conversions of [Node] *)

Module Models.

Section Conversions.
Context {D : DoubleOps}.

(** [to_json(j, n)]: the initializer list builds an object. *)
Definition to_json (n : Node.t) : Json.json :=
  Json.of_pairs [("title", Json.JString (Node.title n));
                 ("arcana", Json.JString (Node.arcana n));
                 ("seed", Json.Number (number_of_int (Node.seed n)));
                 ("timestamp", Json.JString (Node.timestamp n))].

(** [from_json(j, n)]; [None] when an extraction throws.  Unlike
    [get<Node>] it does not look at [is_object()] first. *)
Definition from_json (j : Json.json) : option Node.t :=
  let title := Json.value_string j "title" "" in
  let arcana := Json.value_string j "arcana" "0" in
  match Json.value_int j "seed" 33 with
  | None => None
  | Some seed =>
      Some (Node.mk title arcana seed (Json.value_string j "timestamp" ""))
  end.

End Conversions.
End Models.

(* ================================================================== *)
(** ** Vocabulary of the further properties *)

Module Laws.

Import Str Httplib.

(** A string with every letter in lower case. *)
Fixpoint lower (s : string) : string :=
  match s with
  | EmptyString => EmptyString
  | String c s' => String (tolower c) (lower s')
  end.

Definition all_space (s : string) : Prop := Spec.all_chars isspace s = true.

Definition no_space (s : string) : Prop :=
  Spec.all_chars (fun c => negb (isspace c)) s = true.

(** Neither the first nor the last character is white space. *)
Definition tight (s : string) : Prop :=
  skip_space s = 0 /\ skip_space (rev s) = 0.

(** Everything the peer sends in the course of a script. *)
Fixpoint received (script : list recv_result) : string :=
  match script with
  | [] => ""
  | Received data :: script' => data ++ received script'
  | RecvFailed _ :: script' => received script'
  end.

(** A script without its interrupted calls. *)
Fixpoint without_retries (script : list recv_result) : list recv_result :=
  match script with
  | [] => []
  | RecvFailed true :: script' => without_retries script'
  | r :: script' => r :: without_retries script'
  end.

(** The directory prefix [serve_file] puts before a relative path. *)
Definition mount_root (s : Server) : string :=
  let full := mount_dir_ s in
  if negb (empty full) &&
     negb (match back full with
           | Some c => Ascii.eqb c "/"
           | None => false
           end)
  then full ++ "/" else full.

(** What a header line declares as the length of the body, if it is a
    Content-Length line. *)
Definition length_line (line : string) : option N :=
  match find_chr ":" line with
  | None => None
  | Some colon =>
      if case_insensitive_equal (trim (substr line 0 colon)) "Content-Length"
      then Some (strtoull (trim (substr_from line (colon + 1))))
      else None
  end.

End Laws.

Module ResolverLaws.

Import Str Resolver.

(** The sum of the letter values of a string, without the 32-bit wrap. *)
Fixpoint letters_total (s : string) : Z :=
  match s with
  | EmptyString => 0%Z
  | String c s' => (letter_value c + letters_total s')%Z
  end.

(** The sum of the decimal digits of a string, without the 32-bit wrap. *)
Fixpoint digits_total (s : string) : Z :=
  match s with
  | EmptyString => 0%Z
  | String c s' => (digit_value c + digits_total s')%Z
  end.

End ResolverLaws.

Module JsonLaws.

Import Str Json.

Section Documents.
Context {D : DoubleOps}.

(** The text [dump_impl] writes for the elements of an array and for
    the members of an object, between the brackets. *)
Fixpoint dump_elements (indent depth : Z) (l : list json) : string :=
  match l with
  | [] => ""
  | x :: l' =>
      newline indent (depth + 1)
        ++ dump_impl x indent (depth + 1)
        ++ separator indent (is_nil l')
        ++ dump_elements indent depth l'
  end.

Fixpoint dump_members (indent depth : Z) (l : list (string * json))
  : string :=
  match l with
  | [] => ""
  | (k, v) :: l' =>
      newline indent (depth + 1)
        ++ dump_string k
        ++ ":" ++ (if (0 <=? indent)%Z then " " else "")
        ++ dump_impl v indent (depth + 1)
        ++ separator indent (is_nil l')
        ++ dump_members indent depth l'
  end.

(** What may follow a value in a document: nothing, a comma, a closing
    bracket or the line break of an indented document. *)
Definition delimited (rest : string) : Prop :=
  match rest with
  | EmptyString => True
  | String c _ => c = ","%char \/ c = "]"%char \/ c = "}"%char \/ c = LF
  end.

(** A number whose text is a numeral that [parse_number] reads back. *)
Definition faithful (n : number) : Prop :=
  (exists c s, print_number n = String c s
               /\ (isdigit c = true \/ c = "-"%char))
  /\ forall rest, delimited rest ->
       parse_number (print_number n ++ rest) = Ok n rest.

(** A document as a [json] value holds it: every object a [std::map],
    its keys ascending, and every number [faithful]. *)
Fixpoint storable (j : json) : Prop :=
  match j with
  | Number n => faithful n
  | Array l =>
      (fix all (l : list json) : Prop :=
         match l with
         | [] => True
         | x :: l' => storable x /\ all l'
         end) l
  | Object m =>
      Sorted StdMap.key_lt (StdMap.keys m)
      /\ (fix all (l : list (string * json)) : Prop :=
            match l with
            | [] => True
            | (_, v) :: l' => storable v /\ all l'
            end) m
  | _ => True
  end.

(** A value that [parse_value] gets back from its text, whatever the
    indentation and whatever delimiter follows, once it has fuel. *)
Definition reads (j : json) : Prop :=
  storable j ->
  forall indent depth rest, delimited rest ->
    exists f0, forall f, f0 <= f ->
      parse_value f (dump_impl j indent depth ++ rest) = Ok j rest.

End Documents.
End JsonLaws.

(* ================================================================== *)
(** * Properties *)

(** ** Strings *)

Section StringFacts.

Import Str.

Lemma length_app (a b : string) :
  String.length (a ++ b) = String.length a + String.length b.
Proof. induction a as [|c a IH]; simpl; [reflexivity | now rewrite IH]. Qed.

Lemma app_empty_r (a : string) : a ++ "" = a.
Proof. induction a as [|c a IH]; simpl; [reflexivity | now rewrite IH]. Qed.

Lemma app_assoc_s (a b c : string) : (a ++ b) ++ c = a ++ b ++ c.
Proof. induction a as [|x a IH]; simpl; [reflexivity | now rewrite IH]. Qed.

Lemma drop_length_app (a b : string) : drop (String.length a) (a ++ b) = b.
Proof. induction a as [|c a IH]; simpl; [now destruct b | exact IH]. Qed.

Lemma drop_length (a : string) : drop (String.length a) a = "".
Proof. induction a as [|c a IH]; simpl; [reflexivity | exact IH]. Qed.

Lemma take_app_le (n : nat) (a b : string) :
  n <= String.length a -> take n (a ++ b) = take n a.
Proof.
  revert n; induction a as [|c a IH]; intros [|n] H; simpl in *;
    try reflexivity; try lia.
  f_equal; apply IH; lia.
Qed.

Lemma length_take (n : nat) (s : string) :
  String.length (take n s) = Nat.min n (String.length s).
Proof.
  revert n; induction s as [|c s IH]; intros [|n]; simpl; try reflexivity.
  now rewrite IH.
Qed.

Lemma length_drop (n : nat) (s : string) :
  String.length (drop n s) = String.length s - n.
Proof.
  revert n; induction s as [|c s IH]; intros [|n]; simpl; try reflexivity.
  apply IH.
Qed.

Lemma prefix_empty (a : string) : prefix "" a = true.
Proof. now destruct a. Qed.

Lemma prefix_app_le (t a b : string) :
  String.length t <= String.length a -> prefix t (a ++ b) = prefix t a.
Proof.
  revert a; induction t as [|x t IH]; intros a H.
  - now rewrite !prefix_empty.
  - destruct a as [|y a]; simpl in *; [lia |].
    destruct (ascii_dec x y); [apply IH; lia | reflexivity].
Qed.

Lemma prefix_length (t a : string) :
  prefix t a = true -> String.length t <= String.length a.
Proof.
  revert a; induction t as [|x t IH]; intros a H; [simpl; lia |].
  destruct a as [|y a]; simpl in *; [discriminate |].
  destruct (ascii_dec x y); [apply IH in H; lia | discriminate].
Qed.

Lemma prefix_split (t a : string) :
  prefix t a = true -> a = t ++ drop (String.length t) a.
Proof.
  revert a; induction t as [|x t IH]; intros a H; [reflexivity |].
  destruct a as [|y a]; simpl in *; [discriminate |].
  destruct (ascii_dec x y); [subst; f_equal; now apply IH | discriminate].
Qed.

Lemma prefix_app_self (t b : string) : prefix t (t ++ b) = true.
Proof.
  induction t as [|x t IH]; simpl; [now destruct b |].
  destruct (ascii_dec x x); [exact IH | congruence].
Qed.

Lemma find_cons (t : string) (c : ascii) (a : string) :
  find t (String c a) 0 =
  if prefix t (String c a) then Some 0 else option_map S (find t a 0).
Proof. reflexivity. Qed.

Lemma find_nil (t : string) :
  find t "" 0 = if empty t then Some 0 else None.
Proof. now destruct t. Qed.

(** A match found by [find] lies inside the string. *)
Lemma find_bound (t a : string) (h : nat) :
  find t a 0 = Some h -> h + String.length t <= String.length a.
Proof.
  revert h; induction a as [|c a IH]; intros h H.
  - rewrite find_nil in H. destruct t; [|discriminate].
    injection H as <-; simpl; lia.
  - rewrite find_cons in H. destruct (prefix t (String c a)) eqn:P.
    + injection H as <-. apply prefix_length in P. simpl in *; lia.
    + destruct (find t a 0) as [k|] eqn:E; [|discriminate].
      injection H as <-. specialize (IH k eq_refl). simpl; lia.
Qed.

(** Appending to a string does not move the first match. *)
Lemma find_app (t a b : string) (h : nat) :
  find t a 0 = Some h -> find t (a ++ b) 0 = Some h.
Proof.
  revert h; induction a as [|c a IH]; intros h H.
  - rewrite find_nil in H. destruct t; [|discriminate]. injection H as <-.
    simpl. destruct b; reflexivity.
  - rewrite find_cons in H.
    change (String c a ++ b) with (String c (a ++ b)). rewrite find_cons.
    change (String c (a ++ b)) with (String c a ++ b).
    destruct (prefix t (String c a)) eqn:P.
    + injection H as <-.
      rewrite prefix_app_le, P by (now apply prefix_length). reflexivity.
    + destruct (find t a 0) as [k|] eqn:E; [|discriminate].
      injection H as <-.
      pose proof (find_bound t a k E) as B.
      rewrite prefix_app_le, P by (simpl; lia).
      now rewrite (IH k eq_refl).
Qed.

(** [find] succeeds on a string that contains the needle. *)
Lemma find_contains (t a b : string) :
  exists h, find t (a ++ t ++ b) 0 = Some h.
Proof.
  induction a as [|c a [h IH]].
  - change ("" ++ t ++ b) with (t ++ b). destruct (t ++ b) eqn:E.
    + rewrite find_nil. destruct t; [simpl; eauto | discriminate].
    + rewrite find_cons, <- E, prefix_app_self. eauto.
  - change (String c a ++ t ++ b) with (String c (a ++ t ++ b)).
    rewrite find_cons.
    destruct (prefix t (String c (a ++ t ++ b))); [eauto |].
    rewrite IH. simpl. eauto.
Qed.

End StringFacts.

(** ** Maps *)

Section MapFacts.

Context {V : Type}.

Lemma compare_refl (k : string) : String.compare k k = Eq.
Proof.
  induction k as [|c k IH]; simpl; [reflexivity |].
  assert (H : Ascii.compare c c = Eq).
  { unfold Ascii.compare. apply N.compare_refl. }
  now rewrite H.
Qed.

Lemma compare_eq (a b : string) : String.compare a b = Eq <-> a = b.
Proof.
  split; [apply String.compare_eq_iff | intros ->; apply compare_refl].
Qed.

Lemma compare_gt_lt (a b : string) :
  String.compare a b = Gt -> String.compare b a = Lt.
Proof. intros H. rewrite String.compare_antisym, H. reflexivity. Qed.

Lemma find_set_same (k : string) (v : V) (m : StdMap.t V) :
  StdMap.find k (StdMap.set k v m) = Some v.
Proof.
  induction m as [|[k' v'] m IH]; simpl.
  - now rewrite String.eqb_refl.
  - destruct (String.compare k k') eqn:C; simpl.
    + now rewrite String.eqb_refl.
    + now rewrite String.eqb_refl.
    + destruct (String.eqb_spec k' k) as [->|_]; [|exact IH].
      rewrite compare_refl in C; discriminate.
Qed.

Lemma find_set_other (k k0 : string) (v : V) (m : StdMap.t V) :
  k0 <> k -> StdMap.find k0 (StdMap.set k v m) = StdMap.find k0 m.
Proof.
  intros N; induction m as [|[k' v'] m IH]; simpl.
  - destruct (String.eqb_spec k k0); congruence.
  - destruct (String.compare k k') eqn:C; simpl.
    + apply compare_eq in C; subst k'.
      destruct (String.eqb_spec k k0); congruence.
    + destruct (String.eqb_spec k k0); congruence.
    + now rewrite IH.
Qed.

(** [m[k] = v] keeps the keys in ascending order. *)
Lemma set_ordered (k : string) (v : V) (m : StdMap.t V) :
  StdMap.ordered m -> StdMap.ordered (StdMap.set k v m).
Proof.
  unfold StdMap.ordered, StdMap.keys.
  induction m as [|[k' v'] m IH]; simpl; intros S.
  - repeat constructor.
  - inversion S as [|? ? S' R]; subst.
    destruct (String.compare k k') eqn:C; simpl.
    + apply compare_eq in C; subst k'. now constructor.
    + constructor; [exact S | now constructor].
    + constructor; [now apply IH |].
      apply compare_gt_lt in C.
      destruct m as [|[k2 v2] m]; simpl; [now constructor |].
      inversion R; subst.
      destruct (String.compare k k2); simpl; now constructor.
Qed.

Lemma empty_ordered : StdMap.ordered (@StdMap.empty V).
Proof. constructor. Qed.

End MapFacts.

(** ** Routing *)

Section Routing.

Import Str Httplib Spec.

(** [dispatch] searches the POST table for the method "POST" and the GET
    table for every other method. *)
Lemma handlers_for_cases (s : Server) (method : string) :
  (method = "POST" /\ handlers_for s method = post_handlers_ s)
  \/ (method <> "POST" /\ handlers_for s method = get_handlers_ s).
Proof.
  unfold handlers_for. destruct (String.eqb_spec method "POST"); auto.
Qed.

Lemma dispatch_match (s : Server) (fs : FileSystem) (req : Request.t)
  (res : Response.t) (h : Handler) :
  StdMap.find (strip_query (Request.path req))
              (handlers_for s (Request.method req)) = Some h ->
  dispatch s fs req res =
  mkDispatch true (ensure_default_headers (h req res)) [] ExitHandler.
Proof. intros H. unfold dispatch. now rewrite H. Qed.

(** C1, evaluated on the code: a handler registered with [Get] also runs
    for the methods PUT and DELETE; such a request is not a miss and the
    static file resolver is not reached. *)
Theorem dispatch_put_runs_get_handler :
  forall (h : Handler) (fs : FileSystem),
    let s := Get "/registry" h new_server in
    let put := Request.mk "PUT" "/registry" "" StdMap.empty in
    let delete := Request.mk "DELETE" "/registry" "" StdMap.empty in
    dispatch s fs put Response.init =
      mkDispatch true (ensure_default_headers (h put Response.init)) []
                 ExitHandler
    /\ dispatch s fs delete Response.init =
      mkDispatch true (ensure_default_headers (h delete Response.init)) []
                 ExitHandler.
Proof. intros h fs; split; reflexivity. Qed.

Lemma ensure_default_content_type (res : Response.t) :
  StdMap.find "Content-Type" (Response.headers (ensure_default_headers res)) =
  Some match StdMap.find "Content-Type" (Response.headers res) with
       | Some v => v
       | None => "text/plain"
       end.
Proof.
  unfold ensure_default_headers, StdMap.count.
  destruct (StdMap.find "Content-Type" (Response.headers res)) eqn:E; simpl.
  - exact E.
  - apply find_set_same.
Qed.

Lemma ensure_default_preserves (res : Response.t) :
  Response.status (ensure_default_headers res) = Response.status res
  /\ Response.body (ensure_default_headers res) = Response.body res
  /\ forall k, k <> "Content-Type" ->
       StdMap.find k (Response.headers (ensure_default_headers res)) =
       StdMap.find k (Response.headers res).
Proof.
  unfold ensure_default_headers, StdMap.count.
  destruct (StdMap.find "Content-Type" (Response.headers res)); simpl; auto.
  repeat split; intros; now apply find_set_other.
Qed.

(** C7: when the method and the stripped path match a registered route,
    [dispatch] runs its handler and the response carries a Content-Type:
    the handler's, or "text/plain" when the handler left none.  Status,
    body and the other headers are the handler's. *)
Theorem dispatch_route_has_content_type :
  forall (s : Server) (fs : FileSystem) (req : Request.t) (res : Response.t)
         (h : Handler),
    registered s (Request.method req) (strip_query (Request.path req)) h ->
    let d := dispatch s fs req res in
    let out := h req res in
    handled d = true
    /\ StdMap.find "Content-Type" (Response.headers (response d)) =
       Some match StdMap.find "Content-Type" (Response.headers out) with
            | Some v => v
            | None => "text/plain"
            end
    /\ Response.status (response d) = Response.status out
    /\ Response.body (response d) = Response.body out
    /\ (forall k, k <> "Content-Type" ->
          StdMap.find k (Response.headers (response d)) =
          StdMap.find k (Response.headers out)).
Proof.
  intros s fs req res h R d out.
  assert (E : d = mkDispatch true (ensure_default_headers out) [] ExitHandler).
  { apply dispatch_match. unfold handlers_for.
    destruct R as [[-> F] | [-> F]]; exact F. }
  rewrite E; simpl. split; [reflexivity |].
  split; [apply ensure_default_content_type |].
  apply ensure_default_preserves.
Qed.

Lemma dispatch_route_has_content_type_witness :
  let h : Handler := fun _ res => Response.with_body "pong" res in
  let s := Post "/ping" h new_server in
  let req := Request.mk "POST" "/ping?x=1" "" StdMap.empty in
  StdMap.find "Content-Type"
    (Response.headers (response (dispatch s (fun _ => None) req Response.init)))
  = Some "text/plain".
Proof.
  intros h s req.
  refine (proj1 (proj2 (dispatch_route_has_content_type
                          s (fun _ => None) req Response.init h _))).
  right; split; reflexivity.
Defined.

End Routing.

(** ** Static files *)

Section StaticFiles.

Import Str Httplib Spec.

Lemma empty_true (s : string) : empty s = true <-> s = "".
Proof. destruct s; simpl; split; congruence. Qed.

Lemma routes_only_mount (s : Server) :
  routes_only s -> mount_point_ s = "/" /\ mount_dir_ s = ".".
Proof. induction 1; simpl; auto. Qed.

Lemma serve_file_opens (s : Server) (fs : FileSystem) (rel : string)
  (res : Response.t) :
  exists full, snd (serve_file s fs rel res) = [full].
Proof.
  unfold serve_file.
  match goal with |- context [fs ?p] => destruct (fs p); simpl; eauto end.
Qed.

(** [dispatch] leaves through the empty-mount branch exactly when no
    handler matches and the mount prefix is empty. *)
Lemma dispatch_mount_empty (s : Server) (fs : FileSystem) (req : Request.t)
  (res : Response.t) :
  exit_ (dispatch s fs req res) = ExitMountEmpty <->
  StdMap.find (strip_query (Request.path req))
              (handlers_for s (Request.method req)) = None
  /\ mount_point_ s = "".
Proof.
  unfold dispatch.
  destruct (StdMap.find _ _) as [h|]; simpl; [split; [|intros []]; discriminate |].
  destruct (empty (mount_point_ s)) eqn:E.
  - apply empty_true in E. simpl. tauto.
  - assert (N : mount_point_ s <> "").
    { intros C. apply empty_true in C. congruence. }
    split; [|tauto]. intros X. exfalso. revert X.
    destruct (_ || _).
    + destruct (serve_file s fs "index.html" res) as [[[] ?] ?]; discriminate.
    + simpl. destruct (rfind0 _ _) as [[|?]|]; try discriminate.
      destruct (find ".." _ 0); [discriminate |].
      destruct (serve_file _ _ _ _) as [[[] ?] ?]; discriminate.
Qed.

Lemma contains_find (t s : string) :
  contains t s -> exists h, find t s 0 = Some h.
Proof. intros (a & b & ->). apply find_contains. Qed.

(** C4 as stated fails when the mount prefix is empty: no route matches,
    the path extends the prefix and the remainder contains "..", yet
    [dispatch] leaves through the empty-mount branch with 404. *)
Lemma traversal_under_empty_mount :
  let s := snd (set_mount_point "" "public" new_server) in
  let req := Request.mk "GET" "/../secret" "" StdMap.empty in
  let path := strip_query (Request.path req) in
  let d := dispatch s (fun _ => None) req Response.init in
  StdMap.find path (handlers_for s (Request.method req)) = None
  /\ prefix (mount_point_ s) path = true
  /\ contains ".." (remainder (mount_point_ s) path)
  /\ Response.status (response d) = 404%Z
  /\ Response.status (response d) <> 403%Z
  /\ exit_ d = ExitMountEmpty.
Proof.
  repeat split; try reflexivity.
  - exists "", "/secret". reflexivity.
  - discriminate.
Qed.

(** C4, with the mount prefix not empty: when no route matches, the
    stripped path starts with the prefix and what remains after the
    prefix and one leading slash contains "..", [dispatch] answers 403
    and no file is opened. *)
Theorem dispatch_traversal_forbidden :
  forall (s : Server) (fs : FileSystem) (req : Request.t) (res : Response.t),
    let path := strip_query (Request.path req) in
    StdMap.find path (handlers_for s (Request.method req)) = None ->
    mount_point_ s <> "" ->
    prefix (mount_point_ s) path = true ->
    contains ".." (remainder (mount_point_ s) path) ->
    dispatch s fs req res =
    mkDispatch false
      (Response.with_body "forbidden" (Response.with_status 403 res))
      [] ExitForbidden.
Proof.
  intros s fs req res path U N P C.
  assert (R : remainder (mount_point_ s) path <> "").
  { destruct C as (a & b & E). rewrite E. destruct a; discriminate. }
  assert (Ne : path <> mount_point_ s).
  { intros E. apply R. unfold remainder. rewrite E, drop_length. reflexivity. }
  unfold dispatch. fold path. rewrite U.
  destruct (empty (mount_point_ s)) eqn:Em;
    [apply empty_true in Em; contradiction |].
  destruct (String.eqb_spec path (mount_point_ s)) as [|_]; [contradiction |].
  rewrite Bool.andb_false_r. simpl.
  unfold rfind0. rewrite P. unfold substr_from.
  change (match drop (String.length (mount_point_ s)) path with
          | String "/" r => r
          | _ => drop (String.length (mount_point_ s)) path
          end) with (remainder (mount_point_ s) path).
  destruct (empty (remainder (mount_point_ s) path)) eqn:Er;
    [apply empty_true in Er; contradiction |].
  destruct (contains_find _ _ C) as [h ->]. reflexivity.
Qed.

Lemma dispatch_traversal_forbidden_witness :
  let s := snd (set_mount_point "/assets" "./public" new_server) in
  let req := Request.mk "GET" "/assets/../../etc/passwd" "" StdMap.empty in
  dispatch s (fun _ => Some "secret") req Response.init =
  mkDispatch false
    (Response.with_body "forbidden" (Response.with_status 403 Response.init))
    [] ExitForbidden.
Proof.
  intros s req.
  apply (dispatch_traversal_forbidden s (fun _ => Some "secret") req).
  - reflexivity.
  - discriminate.
  - reflexivity.
  - exists "", "/../etc/passwd". reflexivity.
Defined.

End StaticFiles.

(** ** Resolver *)

Section ResolverFacts.

Import Resolver.

(** C2, evaluated on the code: the seed -1 with an empty title and an
    empty arcana resolves to worker 0, outside 1..72. *)
Theorem resolve_negative_seed :
  resolve (Node.mk "" "" (-1) "") = 0%Z
  /\ ~ (1 <= resolve (Node.mk "" "" (-1) "") <= 72)%Z.
Proof. split; [reflexivity | vm_compute; intros [H _]; now apply H]. Qed.

Lemma wrap_int_small (z : Z) :
  (- 2 ^ 31 <= z < 2 ^ 31)%Z -> wrap_int z = z.
Proof.
  intros H. unfold wrap_int.
  rewrite Z.mod_small by lia. lia.
Qed.

(** Whatever the node, the result lies in -70..72; it lies in 1..72 as
    soon as the score is not negative. *)
Lemma resolve_bounds (n : Node.t) :
  (-70 <= resolve n <= 72)%Z
  /\ ((0 <= score n)%Z -> (1 <= resolve n <= 72)%Z).
Proof.
  unfold resolve.
  assert (A : (-72 < Z.rem (score n) 72 < 72)%Z).
  { pose proof (Z.rem_bound_abs (score n) 72). lia. }
  rewrite wrap_int_small by lia. split; [lia |].
  intros P. pose proof (Z.rem_bound_pos (score n) 72 P). lia.
Qed.

End ResolverFacts.

(** ** Framing *)

Section Framing.

Import Str Httplib Spec.

Lemma find_from_ge (t s : string) (pos m : nat) :
  find t s pos = Some m -> pos <= m.
Proof.
  unfold find. revert pos m; induction s as [|c s IH]; intros pos m H.
  - destruct pos; simpl in H; [lia | discriminate].
  - destruct pos as [|pos]; [lia |].
    simpl in H. destruct (index pos t s) as [k|] eqn:E; [|discriminate].
    injection H as <-. apply IH in E. lia.
Qed.

(** The loops terminate within the fuel they are given. *)
Lemma extract_content_length_loop_total (fuel : nat) (headers : string)
  (pos : nat) :
  0 < fuel -> String.length headers < pos + fuel ->
  extract_content_length_loop fuel headers pos <> None.
Proof.
  revert pos; induction fuel as [|fuel IH]; intros pos F0 H; [lia |].
  simpl. destruct (Nat.ltb_spec pos (String.length headers)) as [L|L];
    [|discriminate].
  assert (G : pos <= match find CRLF headers pos with
                     | Some e => e
                     | None => String.length headers
                     end).
  { destruct (find CRLF headers pos) eqn:E;
      [now apply find_from_ge in E | lia]. }
  destruct (find_chr ":" _); [|apply IH; lia].
  destruct (negb _); [apply IH; lia | discriminate].
Qed.

Lemma extract_content_length_total (headers : string) :
  extract_content_length_loop (S (String.length headers)) headers 0
  = Some (extract_content_length headers).
Proof.
  unfold extract_content_length.
  pose proof (extract_content_length_loop_total
                (S (String.length headers)) headers 0) as T.
  destruct (extract_content_length_loop _ headers 0);
    [reflexivity | exfalso; apply T; [lia | lia | reflexivity]].
Qed.

Lemma parse_headers_loop_total (fuel : nat) (raw : string)
  (header_end pos : nat) (headers : StdMap.t string) :
  0 < fuel -> header_end < pos + fuel ->
  parse_headers_loop fuel raw header_end pos headers <> None.
Proof.
  revert pos headers; induction fuel as [|fuel IH]; intros pos hs F0 H; [lia |].
  simpl. destruct (Nat.ltb_spec pos header_end) as [L|L]; [|discriminate].
  destruct (find CRLF raw pos) as [next|] eqn:E; [|discriminate].
  apply find_from_ge in E.
  destruct (header_end <? next)%nat; [discriminate |].
  destruct (find_chr ":" _); apply IH; lia.
Qed.

(** [parse_request] fails only where the code returns [false]: no line
    end, or an empty method or path. *)
Lemma parse_request_result (raw : string) (header_end : nat)
  (content_length : N) :
  match parse_request raw header_end content_length with
  | Some p =>
      Httplib.header_end p = header_end
      /\ Httplib.content_length p = content_length
      /\ Request.body (request p) =
         substr_n raw (header_end + 4) content_length
  | None =>
      match find CRLF raw 0 with
      | None => True
      | Some line_end =>
          let (method, rest) := extract_token (substr raw 0 line_end) in
          empty method || empty (fst (extract_token rest)) = true
      end
  end.
Proof.
  unfold parse_request.
  destruct (find CRLF raw 0) as [line_end|]; [|exact I].
  pose proof (parse_headers_loop_total (S header_end) raw header_end
                (line_end + 2) StdMap.empty) as T.
  destruct (parse_headers_loop _ raw header_end _ _) as [hs|];
    [|exfalso; apply T; [lia | lia | reflexivity]].
  destruct (extract_token (substr raw 0 line_end)) as [method rest1].
  destruct (extract_token rest1) as [path rest2]. cbn [fst].
  destruct (empty method || empty path); [reflexivity |].
  cbn. repeat split.
Qed.

Lemma length_substr_n (s : string) (pos : nat) (n : N) :
  (N.of_nat pos + n <= N.of_nat (String.length s))%N ->
  N.of_nat (String.length (substr_n s pos n)) = n.
Proof.
  intros H. unfold substr_n. rewrite length_take, length_drop.
  rewrite N.min_l by lia. lia.
Qed.

(** A framed and parsed request carries exactly the declared number of
    body bytes, provided [header_end + 4 + content_length] does not wrap
    around in [size_t]. *)
Lemma body_length_without_wrap (script : list recv_result)
  (p : ParsedRequest) :
  read_request script = Some p ->
  (N.of_nat (header_end p) + 4 + content_length p < SIZE_MODULUS)%N ->
  N.of_nat (String.length (Request.body (request p))) = content_length p.
Proof.
  unfold read_request. intros H W.
  destruct (recv_loop script read_init) as [st|]; [|discriminate].
  destruct (empty (buffer st)); [discriminate |].
  match type of H with
  | match ?l with _ => _ end = _ => destruct l as [[h cl]|]; [|discriminate]
  end.
  destruct (N.ltb_spec (N.of_nat (String.length (buffer st)))
                       (total_needed h cl)) as [L|L]; [discriminate |].
  pose proof (parse_request_result (buffer st) h cl) as R.
  rewrite H in R. destruct R as (Eh & Ec & Eb).
  rewrite Eh, Ec in W. rewrite Eb, Ec.
  unfold total_needed in L. rewrite N.mod_small in L by exact W.
  apply length_substr_n. lia.
Qed.

(** C3, evaluated on the code: a declared length of 2^64 - 1 makes
    [header_end + 4 + content_length] wrap around, the request is framed
    and parsed, and its body holds the 2 bytes that were buffered, not
    the declared number. *)
Theorem content_length_wraps_around :
  let raw := "POST /resolve HTTP/1.1" ++ CRLF
             ++ "Content-Length: 18446744073709551615" ++ CRLF ++ CRLF
             ++ "{}" in
  exists p,
    read_request [Received raw] = Some p
    /\ content_length p = 18446744073709551615%N
    /\ content_length p = extract_content_length (substr raw 0 (header_end p + 2))
    /\ Request.body (request p) = "{}"
    /\ N.of_nat (String.length (Request.body (request p))) <> content_length p.
Proof.
  intros raw. eexists. split; [vm_compute; reflexivity |].
  repeat split; try (vm_compute; reflexivity).
  vm_compute. discriminate.
Qed.

(** *** Reassembly *)

Lemma absorb_buffered (b data : string) :
  absorb (buffered b) data = buffered (b ++ data).
Proof.
  unfold absorb, buffered; simpl.
  destruct (find CRLFCRLF b 0) as [h|] eqn:F.
  - rewrite (find_app _ _ data _ F).
    apply find_bound in F. simpl in F.
    unfold substr. simpl drop. rewrite take_app_le by lia. reflexivity.
  - destruct (find CRLFCRLF (b ++ data) 0); reflexivity.
Qed.

Lemma wire_head (head body w : string) :
  wire head body w ->
  substr w 0 (String.length head + 2) = head ++ CRLF.
Proof.
  intros (-> & _). unfold substr. simpl drop.
  induction head as [|c head IH]; simpl; [reflexivity | now rewrite IH].
Qed.

Lemma buffered_wire (head body w : string) :
  wire head body w ->
  buffered w = mkRead w (Some (String.length head))
                      (N.of_nat (String.length body)).
Proof.
  intros W. pose proof (wire_head _ _ _ W) as H.
  destruct W as (E & F & Dcl & _).
  unfold buffered. rewrite F, H, Dcl. reflexivity.
Qed.

Lemma wire_total (head body w : string) :
  wire head body w ->
  total_needed (String.length head) (N.of_nat (String.length body))
  = N.of_nat (String.length w).
Proof.
  intros (E & _ & _ & Fit). unfold total_needed.
  assert (L : N.of_nat (String.length w) =
              (N.of_nat (String.length head) + 4
               + N.of_nat (String.length body))%N).
  { rewrite E, !length_app. simpl. lia. }
  rewrite <- L. apply N.mod_small. exact Fit.
Qed.

Lemma complete_wire (head body w : string) :
  wire head body w -> complete (buffered w) = true.
Proof.
  intros W. rewrite (buffered_wire _ _ _ W). unfold complete; simpl.
  rewrite (wire_total _ _ _ W). apply N.leb_refl.
Qed.

(** While part of the wire is outstanding the request is not complete. *)
Lemma incomplete_prefix (head body w b r : string) :
  wire head body w -> w = b ++ r -> r <> "" ->
  complete (buffered b) = false.
Proof.
  intros W E Nr. unfold complete, buffered; simpl.
  destruct (find CRLFCRLF b 0) as [h|] eqn:F; [|reflexivity].
  pose proof (find_app _ _ r _ F) as F'. rewrite <- E in F'.
  pose proof (wire_head _ _ _ W) as H.
  pose proof (wire_total _ _ _ W) as T.
  destruct W as (_ & Fw & Dcl & _).
  rewrite Fw in F'. injection F' as <-.
  apply find_bound in F. simpl in F.
  assert (X : substr b 0 (String.length head + 2) = head ++ CRLF).
  { rewrite <- H, E. unfold substr. simpl drop.
    now rewrite take_app_le by lia. }
  rewrite X, Dcl, T. apply N.leb_gt.
  rewrite E, length_app.
  destruct r; [contradiction | simpl; lia].
Qed.

Lemma delivery_outstanding (w b : string) (script : list recv_result) :
  delivery w b script -> exists r, r <> "" /\ w = b ++ r.
Proof.
  induction 1 as [b data rest Nd E | b data rest L _ (r & Nr & E) | ].
  - eauto.
  - exists (data ++ r). split.
    + destruct data; [discriminate | discriminate].
    + now rewrite <- app_assoc_s.
  - assumption.
Qed.

Lemma recv_loop_delivery (head body w b : string)
  (script : list recv_result) :
  wire head body w -> delivery w b script ->
  recv_loop script (buffered b) = Some (buffered w).
Proof.
  intros W Dl.
  induction Dl as [b data rest Nd E | b data rest L Dl IH | b rest Dl IH].
  - simpl. destruct data as [|c data]; [contradiction |]. simpl Nat.eqb.
    rewrite absorb_buffered, E, (complete_wire _ _ _ W). reflexivity.
  - simpl. rewrite L. simpl Nat.eqb. rewrite absorb_buffered.
    destruct (delivery_outstanding _ _ _ Dl) as (r & Nr & E).
    rewrite (incomplete_prefix _ _ _ _ _ W E Nr).
    rewrite Nat.ltb_irrefl. exact IH.
  - simpl. exact IH.
Qed.

(** The outcome of [read_request] on any delivery of a wire. *)
Lemma read_request_delivery (head body w : string)
  (script : list recv_result) :
  wire head body w -> delivery w "" script ->
  read_request script =
  parse_request w (String.length head) (N.of_nat (String.length body)).
Proof.
  intros W Dl. unfold read_request.
  change read_init with (buffered "").
  rewrite (recv_loop_delivery _ _ _ _ _ W Dl), (buffered_wire _ _ _ W).
  simpl. rewrite (wire_total _ _ _ W), N.ltb_irrefl.
  destruct W as (E & _). rewrite E at 1.
  destruct head; reflexivity.
Qed.

Lemma wire_body (head body w : string) :
  wire head body w ->
  substr_n w (String.length head + 4) (N.of_nat (String.length body)) = body.
Proof.
  intros (-> & _). unfold substr_n.
  rewrite !length_app. simpl String.length.
  replace (String.length head + (4 + String.length body)
           - (String.length head + 4)) with (String.length body) by lia.
  rewrite N.min_id, Nat2N.id.
  replace (drop (String.length head + 4) (head ++ CRLFCRLF ++ body))
    with body.
  - rewrite <- (app_empty_r body) at 2.
    generalize body. intros s.
    induction s as [|c s IH]; simpl; [reflexivity | now rewrite IH].
  - rewrite <- app_assoc_s.
    replace (String.length head + 4) with (String.length (head ++ CRLFCRLF))
      by (rewrite length_app; reflexivity).
    now rewrite drop_length_app.
Qed.

End Framing.

(** ** JSON *)

Section JsonFacts.

Import Str Json.
Context {D : DoubleOps}.


Lemma skip_ws_length (s : string) :
  String.length (skip_ws s) <= String.length s.
Proof. unfold skip_ws. rewrite length_drop. lia. Qed.

Lemma match_length (c : ascii) (s r : string) :
  match_ c s = Some r -> String.length r < String.length s.
Proof.
  unfold match_. destruct s as [|c' s]; [discriminate |].
  destruct (Ascii.eqb c' c); [|discriminate].
  intros [= <-]. cbn [String.length]. lia.
Qed.

Lemma expect_result (c : ascii) (s : string) :
  expect c s <> OutOfFuel
  /\ forall u r, expect c s = Ok u r -> String.length r < String.length s.
Proof.
  unfold expect. destruct s as [|c' s]; [split; discriminate |].
  destruct (Ascii.eqb c' c); split; try discriminate.
  intros u r [= _ <-]. cbn [String.length]. lia.
Qed.

Lemma consume_literal_result (literal s : string) :
  consume_literal literal s <> OutOfFuel
  /\ forall u r, consume_literal literal s = Ok u r ->
       String.length r <= String.length s.
Proof.
  revert s; induction literal as [|l literal IH]; intros s; cbn [consume_literal].
  - split; [discriminate | intros u r [= _ <-]; lia].
  - destruct s as [|c s]; [split; discriminate |].
    destruct (Ascii.eqb c l); [|split; discriminate].
    destruct (IH s) as [N L]. split; [exact N |].
    intros u r H. apply L in H. cbn [String.length]. lia.
Qed.

Lemma parse_string_body_result (s : string) :
  parse_string_body s <> OutOfFuel
  /\ forall str r, parse_string_body s = Ok str r ->
       String.length r < String.length s.
Proof.
  assert (G : forall n s, String.length s < n ->
            parse_string_body s <> OutOfFuel
            /\ forall str r, parse_string_body s = Ok str r ->
                 String.length r < String.length s).
  { clear s. induction n as [|n IH]; intros s Hn; [lia |].
    destruct s as [|ch s]; cbn [parse_string_body]; [split; discriminate |].
    destruct (Ascii.eqb ch DQ).
    { split; [discriminate | intros str r [= _ <-]; cbn [String.length]; lia]. }
    destruct (Ascii.eqb ch BACKSLASH).
    - destruct s as [|esc s]; [split; discriminate |].
      destruct (unescape esc); [|split; discriminate].
      cbn [String.length] in Hn. destruct (IH s) as [N L]; [lia |].
      destruct (parse_string_body s) as [str' r'| |] eqn:E;
        [|split; discriminate | contradiction].
      split; [discriminate |]. intros str r [= _ <-].
      specialize (L _ _ eq_refl). cbn [String.length]. lia.
    - cbn [String.length] in Hn. destruct (IH s) as [N L]; [lia |].
      destruct (parse_string_body s) as [str' r'| |] eqn:E;
        [|split; discriminate | contradiction].
      split; [discriminate |]. intros str r [= _ <-].
      specialize (L _ _ eq_refl). cbn [String.length]. lia. }
  apply (G (S (String.length s))). lia.
Qed.

Lemma parse_number_result (s : string) :
  parse_number s <> OutOfFuel
  /\ forall n r, parse_number s = Ok n r ->
       String.length r <= String.length s.
Proof.
  unfold parse_number. destruct (stod _); split; try discriminate.
  intros n' r [= _ <-]. rewrite length_drop. lia.
Qed.

(** A step of the parser never runs out of fuel when it is given more
    than twice the length of the unread text, and never returns more
    text than it was given. *)
Lemma parse_fuel (fuel : nat) :
  (forall s, 2 * String.length s < fuel ->
     parse_value fuel s <> OutOfFuel
     /\ forall v r, parse_value fuel s = Ok v r ->
          String.length r <= String.length s)
  /\ (forall s acc, 2 * String.length s + 1 < fuel ->
        parse_members fuel s acc <> OutOfFuel
        /\ forall v r, parse_members fuel s acc = Ok v r ->
             String.length r <= String.length s)
  /\ (forall s acc, 2 * String.length s + 1 < fuel ->
        parse_elements fuel s acc <> OutOfFuel
        /\ forall v r, parse_elements fuel s acc = Ok v r ->
             String.length r <= String.length s).
Proof.
  induction fuel as [|fuel (IHv & IHm & IHe)].
  { repeat split; intros; lia. }
  split; [|split].
  - (* parse_value *)
    intros s Hf. cbn [parse_value].
    pose proof (skip_ws_length s) as Ws.
    destruct (skip_ws s) as [|ch r] eqn:E; [split; discriminate |].
    change (String.length (String ch r)) with (S (String.length r)) in Ws.
    destruct (Ascii.eqb ch DQ).
    { destruct (parse_string_body_result r) as [N L].
      destruct (parse_string_body r) as [str rest| |] eqn:P;
        [|split; discriminate | contradiction].
      split; [discriminate |]. intros v r' [= _ <-].
      specialize (L _ _ eq_refl). lia. }
    destruct (Ascii.eqb ch "{").
    { pose proof (skip_ws_length r) as Wr.
      destruct (match_ "}" (skip_ws r)) as [rest|] eqn:M.
      - apply match_length in M.
        split; [discriminate |]. intros v r' [= _ <-]. lia.
      - destruct (IHm (skip_ws r) StdMap.empty) as [N L]; [lia |].
        split; [exact N |]. intros v r' H. apply L in H. lia. }
    destruct (Ascii.eqb ch "[").
    { pose proof (skip_ws_length r) as Wr.
      destruct (match_ "]" (skip_ws r)) as [rest|] eqn:M.
      - apply match_length in M.
        split; [discriminate |]. intros v r' [= _ <-]. lia.
      - destruct (IHe (skip_ws r) []) as [N L]; [lia |].
        split; [exact N |]. intros v r' H. apply L in H. lia. }
    assert (Lit : forall lit (j : json),
              match consume_literal lit (String ch r) with
              | Ok _ rest => Ok j rest
              | Throw what => Throw what
              | OutOfFuel => OutOfFuel
              end <> OutOfFuel
              /\ forall v r',
                   match consume_literal lit (String ch r) with
                   | Ok _ rest => Ok j rest
                   | Throw what => Throw what
                   | OutOfFuel => OutOfFuel
                   end = Ok v r' ->
                   String.length r' <= String.length s).
    { intros lit j. destruct (consume_literal_result lit (String ch r)) as [N L].
      destruct (consume_literal lit (String ch r)) as [u rest| |] eqn:C;
        [|split; discriminate | contradiction].
      split; [discriminate |]. intros v r' [= _ <-].
      specialize (L _ _ eq_refl).
      change (String.length (String ch r)) with (S (String.length r)) in L.
      lia. }
    destruct (Ascii.eqb ch "t"); [apply Lit |].
    destruct (Ascii.eqb ch "f"); [apply Lit |].
    destruct (Ascii.eqb ch "n"); [apply Lit |].
    destruct (parse_number_result (String ch r)) as [N L].
    destruct (parse_number (String ch r)) as [n rest| |] eqn:P;
      [|split; discriminate | contradiction].
    split; [discriminate |]. intros v r' [= _ <-].
    specialize (L _ _ eq_refl).
    change (String.length (String ch r)) with (S (String.length r)) in L.
    lia.
  - (* parse_members *)
    intros s acc Hf. cbn [parse_members].
    pose proof (skip_ws_length s) as Ws.
    destruct (match_ DQ (skip_ws s)) as [r|] eqn:M; [|split; discriminate].
    apply match_length in M.
    destruct (parse_string_body_result r) as [N1 L1].
    destruct (parse_string_body r) as [key r1| |] eqn:P;
      [|split; discriminate | contradiction].
    specialize (L1 _ _ eq_refl).
    pose proof (skip_ws_length r1) as W1.
    destruct (expect_result ":" (skip_ws r1)) as [N2 L2].
    destruct (expect ":" (skip_ws r1)) as [u r2| |] eqn:X;
      [|split; discriminate | contradiction].
    specialize (L2 _ _ eq_refl).
    destruct (IHv r2) as [N3 L3]; [lia |].
    destruct (parse_value fuel r2) as [value r3| |] eqn:V;
      [|split; discriminate | contradiction].
    specialize (L3 _ _ eq_refl).
    pose proof (skip_ws_length r3) as W3.
    destruct (match_ "}" (skip_ws r3)) as [rest|] eqn:M2.
    { apply match_length in M2.
      split; [discriminate |]. intros v r' [= _ <-]. lia. }
    destruct (expect_result "," (skip_ws r3)) as [N4 L4].
    destruct (expect "," (skip_ws r3)) as [u' r4| |] eqn:X2;
      [|split; discriminate | contradiction].
    specialize (L4 _ _ eq_refl).
    destruct (IHm r4 (StdMap.emplace key value acc)) as [N5 L5]; [lia |].
    split; [exact N5 |]. intros v r' H. apply L5 in H. lia.
  - (* parse_elements *)
    intros s acc Hf. cbn [parse_elements].
    destruct (IHv s) as [N1 L1]; [lia |].
    destruct (parse_value fuel s) as [value r1| |] eqn:V;
      [|split; discriminate | contradiction].
    specialize (L1 _ _ eq_refl).
    pose proof (skip_ws_length r1) as W1.
    destruct (match_ "]" (skip_ws r1)) as [rest|] eqn:M.
    { apply match_length in M.
      split; [discriminate |]. intros v r' [= _ <-]. lia. }
    destruct (expect_result "," (skip_ws r1)) as [N2 L2].
    destruct (expect "," (skip_ws r1)) as [u r2| |] eqn:X;
      [|split; discriminate | contradiction].
    specialize (L2 _ _ eq_refl).
    destruct (IHe r2 (value :: acc)) as [N3 L3]; [lia |].
    split; [exact N3 |]. intros v r' H. apply L3 in H. lia.
Qed.

(** [json::parse] returns a document or throws: its fuel suffices. *)
Lemma parse_total (text : string) : parse text <> OutOfFuel.
Proof.
  unfold parse.
  destruct (parse_fuel (S (2 * String.length text))) as [Pv _].
  destruct (Pv text) as [N _]; [lia |].
  destruct (parse_value _ text) as [v rest| |]; [|discriminate|contradiction].
  destruct (skip_ws rest); discriminate.
Qed.

Lemma parse_cases (text : string) :
  (exists j, parse text = Ok j "") \/ (exists what, parse text = Throw what).
Proof.
  pose proof (parse_total text) as T.
  destruct (parse text) as [j rest|what|] eqn:E; [| eauto | contradiction].
  left. exists j. unfold parse in E.
  destruct (parse_value _ text) as [v r| |]; try discriminate.
  destruct (skip_ws r); [|discriminate]. injection E as _ <-. reflexivity.
Qed.

End JsonFacts.

(** ** Response writer *)

Section Writer.

Import Str Httplib Spec.

Lemma from_api_ordered (res : Response.t) :
  from_api res -> StdMap.ordered (Response.headers res).
Proof.
  induction 1; simpl; auto using empty_ordered, set_ordered.
Qed.

Lemma fold_header_lines (hs : StdMap.t string) (b : string) :
  fold_left (fun b (entry : string * string) =>
               b ++ fst entry ++ ": " ++ snd entry ++ CRLF) hs b
  = b ++ header_lines hs.
Proof.
  revert b; induction hs as [|[k v] hs IH]; intros b;
    cbn [fold_left header_lines fst snd].
  - now rewrite app_empty_r.
  - rewrite IH, !app_assoc_s. reflexivity.
Qed.

Lemma response_text_format (res : Response.t) :
  response_text res =
  "HTTP/1.1 " ++ of_int (Response.status res) ++ " "
    ++ status_message (Response.status res) ++ CRLF
    ++ header_lines (Response.headers res)
    ++ "Content-Length: " ++ of_size (String.length (Response.body res))
    ++ CRLF ++ "Connection: close" ++ CRLF ++ CRLF ++ Response.body res.
Proof.
  unfold response_text. rewrite fold_header_lines.
  rewrite !app_assoc_s. reflexivity.
Qed.

Lemma send_loop_all (size sent : nat) (script : list Z) :
  sends_all size sent script -> size <= send_loop script size sent.
Proof.
  induction 1 as [sent script H | sent written script L P _ IH].
  - destruct script as [|w script]; simpl; [exact H |].
    destruct (Nat.ltb_spec sent size); [lia | exact H].
  - simpl. destruct (Nat.ltb_spec sent size); [|lia].
    destruct (Z.leb_spec written 0); [lia | exact IH].
Qed.

Lemma take_all (n : nat) (s : string) : String.length s <= n -> take n s = s.
Proof.
  revert n; induction s as [|c s IH]; intros [|n] H; simpl in *;
    try reflexivity; try lia.
  f_equal. apply IH. lia.
Qed.

Lemma status_message_default (st : Z) :
  ~ In st [200; 201; 204; 400; 403; 404; 500; 503]%Z ->
  status_message st = "OK".
Proof.
  intros H. unfold status_message.
  repeat match goal with
         | |- context [match ?p with _ => _ end] => destruct p
         end; try reflexivity; exfalso; apply H; simpl; tauto.
Qed.

Lemma prefix_take (n : nat) (s : string) : prefix (take n s) s = true.
Proof.
  revert n; induction s as [|c s IH]; intros [|n]; simpl; try reflexivity.
  destruct (ascii_dec c c); [apply IH | congruence].
Qed.

(** C6: for every response, the text [send_response] serialises is the
    status line with the reason of the table ("OK" for a code outside
    it), one line per header in the iteration order of the map, which for
    a response built through the members of [Response] is ascending key
    order, then Content-Length with the size of the body, then
    Connection: close, an empty line and the body.  That text reaches the
    socket whole when every [::send] succeeds, and cut short otherwise. *)
Theorem send_response_format :
  forall (res : Response.t),
    response_text res =
      "HTTP/1.1 " ++ of_int (Response.status res) ++ " "
        ++ status_message (Response.status res) ++ CRLF
        ++ header_lines (Response.headers res)
        ++ "Content-Length: " ++ of_size (String.length (Response.body res))
        ++ CRLF ++ "Connection: close" ++ CRLF ++ CRLF ++ Response.body res
    /\ (from_api res ->
        Sorted StdMap.key_lt (StdMap.keys (Response.headers res)))
    /\ status_message 200 = "OK"
    /\ status_message 201 = "Created"
    /\ status_message 204 = "No Content"
    /\ status_message 400 = "Bad Request"
    /\ status_message 403 = "Forbidden"
    /\ status_message 404 = "Not Found"
    /\ status_message 500 = "Internal Server Error"
    /\ status_message 503 = "Service Unavailable"
    /\ (forall st, ~ In st [200; 201; 204; 400; 403; 404; 500; 503]%Z ->
          status_message st = "OK")
    /\ (forall script,
          sends_all (String.length (response_text res)) 0 script ->
          send_response script res = response_text res)
    /\ (forall script,
          prefix (send_response script res) (response_text res) = true).
Proof.
  intros res.
  split; [apply response_text_format |].
  split; [apply from_api_ordered |].
  repeat split; try reflexivity.
  - apply status_message_default.
  - intros script S. unfold send_response, substr. simpl drop.
    apply take_all. now apply send_loop_all.
  - intros script. unfold send_response, substr. simpl drop.
    apply prefix_take.
Qed.

(** The reply of the sample on a socket that takes 10, 20 and then the
    remaining bytes. *)
Example send_response_sample :
  send_response [10; 20; 4000]%Z Samples.reply =
  "HTTP/1.1 200 OK" ++ CRLF
    ++ "Content-Type: text/html" ++ CRLF
    ++ "X-Engine: raku" ++ CRLF
    ++ "Content-Length: 2" ++ CRLF
    ++ "Connection: close" ++ CRLF ++ CRLF ++ "ok".
Proof. vm_compute. reflexivity. Qed.

End Writer.

(** ** The application's routes *)

Section Application.

Import Str Httplib Spec Web PayloadSpec.
Context {D : DoubleOps}.

Lemma registry_route (reg : Registry) :
  StdMap.find "/registry" (get_handlers_ (make_server reg))
  = Some (registry_handler reg).
Proof. reflexivity. Qed.

Lemma resolve_route (reg : Registry) :
  StdMap.find "/resolve" (post_handlers_ (make_server reg))
  = Some resolve_handler.
Proof. reflexivity. Qed.

Lemma load_registry_ok (file : option string) :
  (ok (load_registry file) = false <->
   file = None
   \/ exists text what, file = Some text /\ Json.parse text = Json.Throw what)
  /\ (ok (load_registry file) = true ->
      exists text, file = Some text
                   /\ Json.parse text = Json.Ok (root (load_registry file)) "").
Proof.
  unfold load_registry. destruct file as [text|]; simpl.
  - destruct (parse_cases text) as [[j E] | [what E]]; rewrite E; simpl.
    + split; [|eauto]. split; [discriminate |].
      intros [C | (t & w & [= <-] & C)]; [discriminate |].
      rewrite E in C; discriminate.
    + split; [|discriminate]. split; [|reflexivity]. intros _. right. eauto.
  - split; [|discriminate]. split; auto.
Qed.

(** C8: a GET of /registry is answered by the registry handler: 503 with
    the no_registry body exactly when the registry's [ok] flag is false
    (the file did not open or did not parse), and otherwise 200 with the
    [dump()] of the loaded document. *)
Theorem registry_route_response :
  forall (reg : Registry) (fs : FileSystem) (req : Request.t),
    Request.method req = "GET" ->
    strip_query (Request.path req) = "/registry" ->
    let d := dispatch (make_server reg) fs req Response.init in
    handled d = true
    /\ ((Response.status (response d) = 503%Z
         /\ Response.body (response d) = NO_REGISTRY) <-> ok reg = false)
    /\ (ok reg = true ->
        Response.status (response d) = 200%Z
        /\ Response.body (response d) = Json.dump (root reg))
    /\ (forall file, reg = load_registry file ->
        (ok reg = false <->
         file = None
         \/ exists text what,
              file = Some text /\ Json.parse text = Json.Throw what)
        /\ (ok reg = true ->
            exists text, file = Some text
                         /\ Json.parse text = Json.Ok (root reg) "")).
Proof.
  intros reg fs req M P d.
  assert (E : d = mkDispatch true
                    (ensure_default_headers
                       (registry_handler reg req Response.init))
                    [] ExitHandler).
  { apply dispatch_match. rewrite M, P. apply registry_route. }
  rewrite E. cbn [handled response].
  destruct (ensure_default_preserves
              (registry_handler reg req Response.init)) as (-> & -> & _).
  unfold registry_handler.
  split; [reflexivity |]. split; [|split].
  - destruct (ok reg); simpl; split; try reflexivity; try discriminate.
    + intros [C _]; discriminate.
    + intros _; split; reflexivity.
  - intros ->. simpl. split; reflexivity.
  - intros file ->. apply load_registry_ok.
Qed.


End Application.

Section ApplicationSamples.

Import Str Httplib Spec Web PayloadSpec.

(** A \u escape is valid JSON; the parser does not support it and the
    handler answers 400. *)
Remark unicode_escape_answered_400 :
  let text := quoted (chr BACKSLASH ++ "u0041") in
  valid_json text
  /\ forall (D : DoubleOps),
       Response.status
         (resolve_handler (Request.mk "POST" "/resolve" text StdMap.empty)
                          Response.init) = 400%Z.
Proof.
  split.
  - exists "", (quoted (chr BACKSLASH ++ "u0041")), "".
    repeat split. apply value_string.
    apply chars_unicode; [reflexivity | apply chars_end].
  - intros D. reflexivity.
Qed.

(** A negative seed reaches the resolver through the handler. *)
Remark negative_seed_worker_zero :
  let text := "{" ++ quoted "seed" ++ ":-1}" in
  Response.body
    (@resolve_handler WholeNumbers.whole
       (Request.mk "POST" "/resolve" text StdMap.empty) Response.init)
  = "{" ++ quoted "system" ++ ":" ++ quoted "raku-lite-cpp" ++ ", "
        ++ quoted "worker_id" ++ ":0}".
Proof. vm_compute. reflexivity. Qed.

Lemma registry_route_response_witness :
  let reg := @load_registry WholeNumbers.whole (Some "[1, 2]") in
  let req := Request.mk "GET" "/registry?pretty" "" StdMap.empty in
  Response.status
    (response (dispatch (make_server reg) (fun _ => None) req Response.init))
  = 200%Z
  /\ Response.body
       (response (dispatch (make_server reg) (fun _ => None) req Response.init))
     = "[1, 2]".
Proof.
  intros reg req.
  refine (proj1 (proj2 (proj2 (registry_route_response
                                 reg (fun _ => None) req _ _))) _);
    reflexivity.
Defined.

End ApplicationSamples.

(** ** The model at work *)

Section Runs.

Import Str Httplib Web.

(** A request with a query string, a lower-case length header and bytes
    after the declared body. *)
Example read_request_run :
  read_request
    [Received ("GET /a?x=1 HTTP/1.1" ++ CRLF ++ "Host:  example  " ++ CRLF
               ++ "content-length: 5" ++ CRLF ++ CRLF ++ "helloEXTRA")]
  = Some (mkParsed
            (Request.mk "GET" "/a?x=1" "hello"
                        [("Host", "example"); ("content-length", "5")])
            56 5).
Proof. vm_compute. reflexivity. Qed.

(** End of stream before the header terminator is a framing failure,
    answered 400. *)
Example handle_client_bad_framing :
  response_text
    (handle_client new_server (fun _ => None)
                   [Received ("GET / HTTP/1.1" ++ CRLF)])
  = "HTTP/1.1 400 Bad Request" ++ CRLF
      ++ "Content-Type: text/plain" ++ CRLF
      ++ "Content-Length: 11" ++ CRLF
      ++ "Connection: close" ++ CRLF ++ CRLF ++ "Bad Request".
Proof. vm_compute. reflexivity. Qed.

(** The health check of the application, end to end. *)
Example handle_client_health :
  response_text
    (handle_client (@make_server WholeNumbers.whole (load_registry None))
                   (fun _ => None)
                   [Received ("GET /core/health-check.html HTTP/1.1" ++ CRLF
                              ++ CRLF)])
  = "HTTP/1.1 200 OK" ++ CRLF
      ++ "Content-Type: text/html" ++ CRLF
      ++ "Content-Length: 2" ++ CRLF
      ++ "Connection: close" ++ CRLF ++ CRLF ++ "ok".
Proof. vm_compute. reflexivity. Qed.

(** /resolve on the payload of the documentation. *)
Example resolve_run :
  let text := "{" ++ quoted "title" ++ ":" ++ quoted "AB" ++ ","
                  ++ quoted "arcana" ++ ":" ++ quoted "1" ++ ","
                  ++ quoted "seed" ++ ":33}" in
  @resolve_handler WholeNumbers.whole
    (Request.mk "POST" "/resolve" text StdMap.empty) Response.init
  = Response.mk 200
      ("{" ++ quoted "system" ++ ":" ++ quoted "raku-lite-cpp" ++ ", "
           ++ quoted "worker_id" ++ ":45}")
      [("Content-Type", "application/json")].
Proof. vm_compute. reflexivity. Qed.

(** A file under the mount directory, and a missing one. *)
Example static_file_run :
  let s := snd (set_mount_point "/" "./public" new_server) in
  let fs := fun p => if String.eqb p "./public/app.js"
                     then Some "let x;" else None in
  let get path := dispatch s fs (Request.mk "GET" path "" StdMap.empty)
                           Response.init in
  opened (get "/app.js") = ["./public/app.js"]
  /\ Response.status (response (get "/app.js")) = 200%Z
  /\ Response.body (response (get "/app.js")) = "let x;"
  /\ opened (get "/none.js") = ["./public/none.js"]
  /\ Response.status (response (get "/none.js")) = 404%Z
  /\ opened (get "/") = ["./public/index.html"].
Proof. repeat split; vm_compute; reflexivity. Qed.

(** [ends_with] hands [std::equal] two whole ranges, so it holds only
    between strings of one length, whatever the case of the letters. *)
Remark ends_with_same_length (value suffix : string) :
  ends_with value suffix = true -> String.length value = String.length suffix.
Proof.
  unfold ends_with.
  destruct (String.length value <? String.length suffix)%nat;
    [discriminate |].
  assert (R : forall s, String.length (rev s) = String.length s).
  { induction s as [|c s IH]; simpl; [reflexivity |].
    rewrite length_app, IH. simpl. lia. }
  rewrite <- (R value), <- (R suffix).
  generalize (rev suffix) (rev value). intros a.
  induction a as [|x a IH]; intros [|y b] H; simpl in *;
    try reflexivity; try discriminate.
  destruct (Ascii.eqb (tolower x) (tolower y)); [|discriminate].
  f_equal. symmetry. apply IH in H. now symmetry.
Qed.

Example detect_mime_run :
  detect_mime ".HTML" = "text/html"
  /\ detect_mime "index.html" = "application/octet-stream".
Proof. split; reflexivity. Qed.

(** [trim] and [strtoull] on header values. *)
Example header_value_run :
  trim "  12 " = "12"
  /\ strtoull "12" = 12%N
  /\ strtoull "12abc" = 12%N
  /\ strtoull "abc" = 0%N
  /\ strtoull "" = 0%N
  /\ strtoull "-1" = ULLONG_MAX
  /\ strtoull "99999999999999999999999" = ULLONG_MAX.
Proof. repeat split; vm_compute; reflexivity. Qed.

End Runs.

(* ================================================================== *)
(** * Further properties *)

(** ** More on strings *)

Section MoreStrings.

Import Str Httplib Laws.

Lemma rev_app (a b : string) : rev (a ++ b) = rev b ++ rev a.
Proof.
  induction a as [|c a IH]; simpl.
  - now rewrite app_empty_r.
  - now rewrite IH, app_assoc_s.
Qed.

Lemma rev_involutive (a : string) : rev (rev a) = a.
Proof.
  induction a as [|c a IH]; simpl; [reflexivity |].
  now rewrite rev_app, IH.
Qed.

Lemma length_rev (a : string) : String.length (rev a) = String.length a.
Proof.
  induction a as [|c a IH]; simpl; [reflexivity |].
  rewrite length_app, IH. simpl. lia.
Qed.

Lemma lower_app (a b : string) : lower (a ++ b) = lower a ++ lower b.
Proof. induction a as [|c a IH]; simpl; [reflexivity | now rewrite IH]. Qed.

Lemma lower_rev (a : string) : lower (rev a) = rev (lower a).
Proof.
  induction a as [|c a IH]; simpl; [reflexivity |].
  now rewrite lower_app, IH.
Qed.

Lemma length_lower (a : string) : String.length (lower a) = String.length a.
Proof. induction a as [|c a IH]; simpl; [reflexivity | now rewrite IH]. Qed.

Lemma std_equal_lower (a b : string) :
  std_equal (fun x y => Ascii.eqb (tolower x) (tolower y)) a b
  = String.eqb (lower a) (lower b).
Proof.
  revert b; induction a as [|x a IH]; intros [|y b]; simpl; try reflexivity.
  destruct (Ascii.eqb (tolower x) (tolower y)); [apply IH | reflexivity].
Qed.

Lemma equal_lower_eqb (a b : string) :
  equal_lower a b = String.eqb (lower a) (lower b).
Proof.
  revert b; induction a as [|x a IH]; intros [|y b]; simpl; try reflexivity.
  destruct (Ascii.eqb (tolower x) (tolower y)); [apply IH | reflexivity].
Qed.

Lemma case_insensitive_equal_eqb (a b : string) :
  case_insensitive_equal a b = String.eqb (lower a) (lower b).
Proof.
  unfold case_insensitive_equal.
  destruct (Nat.eqb_spec (String.length a) (String.length b)) as [E|N]; simpl.
  - apply equal_lower_eqb.
  - symmetry. apply String.eqb_neq. intros C.
    apply N. rewrite <- (length_lower a), <- (length_lower b). now rewrite C.
Qed.

(** X1: [case_insensitive_equal] compares the lower-case forms of its
    arguments; it is an equivalence and relates only strings of one
    length. *)
Theorem case_insensitive_equal_equivalence :
  forall a b c : string,
    case_insensitive_equal a b = String.eqb (lower a) (lower b)
    /\ case_insensitive_equal a a = true
    /\ case_insensitive_equal a b = case_insensitive_equal b a
    /\ (case_insensitive_equal a b = true ->
        case_insensitive_equal b c = true ->
        case_insensitive_equal a c = true)
    /\ (case_insensitive_equal a b = true ->
        String.length a = String.length b).
Proof.
  intros a b c. rewrite !case_insensitive_equal_eqb.
  split; [reflexivity |]. split; [apply String.eqb_refl |].
  split; [apply String.eqb_sym |]. split.
  - rewrite !String.eqb_eq. congruence.
  - rewrite String.eqb_eq. intros E.
    rewrite <- (length_lower a), <- (length_lower b). now rewrite E.
Qed.

(** X2: [ends_with] is [case_insensitive_equal]: the suffix must be the
    whole value.  So [detect_mime] answers application/octet-stream for
    every path of more than five characters. *)
Theorem ends_with_whole_value :
  forall value suffix : string,
    ends_with value suffix = case_insensitive_equal value suffix
    /\ (5 < String.length value ->
        detect_mime value = "application/octet-stream").
Proof.
  assert (E : forall value suffix,
             ends_with value suffix = case_insensitive_equal value suffix).
  { intros value suffix. rewrite case_insensitive_equal_eqb.
    unfold ends_with. rewrite std_equal_lower, !lower_rev.
    destruct (String.eqb_spec (lower value) (lower suffix)) as [Eq|Ne].
    - rewrite Eq, String.eqb_refl.
      destruct (Nat.ltb_spec (String.length value) (String.length suffix));
        [|reflexivity].
      rewrite <- (length_lower value), <- (length_lower suffix), Eq in *. lia.
    - destruct (_ <? _)%nat; [reflexivity |].
      apply String.eqb_neq. intros C. apply Ne.
      rewrite <- (rev_involutive (lower value)),
              <- (rev_involutive (lower suffix)). now rewrite C. }
  intros value suffix. split; [apply E |].
  intros L. unfold detect_mime.
  assert (F : forall sfx, String.length sfx <= 5 -> ends_with value sfx = false).
  { intros sfx Ls. rewrite E.
    destruct (case_insensitive_equal value sfx) eqn:C; [|reflexivity].
    rewrite case_insensitive_equal_eqb in C. apply String.eqb_eq in C.
    rewrite <- (length_lower value), C, length_lower in L. lia. }
  rewrite !F by (simpl; lia). reflexivity.
Qed.

Lemma ends_with_whole_value_witness :
  detect_mime "index.html" = "application/octet-stream".
Proof.
  apply (proj2 (ends_with_whole_value "index.html" "")). simpl. lia.
Defined.

Lemma find_chr_bound (c : ascii) (s : string) (q : nat) :
  find_chr c s = Some q -> q < String.length s.
Proof.
  revert q; induction s as [|x s IH]; intros q H; simpl in H; [discriminate |].
  destruct (Ascii.eqb x c); [injection H as <-; simpl; lia |].
  destruct (find_chr c s) as [k|]; [|discriminate].
  injection H as <-. specialize (IH k eq_refl). simpl. lia.
Qed.

Lemma find_chr_take (c : ascii) (s : string) (q : nat) :
  find_chr c s = Some q -> find_chr c (take q s) = None.
Proof.
  revert q; induction s as [|x s IH]; intros q H; simpl in H; [discriminate |].
  destruct (Ascii.eqb x c) eqn:E; [injection H as <-; reflexivity |].
  destruct (find_chr c s) as [k|]; [|discriminate].
  injection H as <-. simpl. rewrite E, (IH k eq_refl). reflexivity.
Qed.

Lemma find_chr_app (c : ascii) (a b : string) :
  find_chr c a = None ->
  find_chr c (a ++ String c b) = Some (String.length a).
Proof.
  induction a as [|x a IH]; simpl; intros H.
  - now rewrite Ascii.eqb_refl.
  - destruct (Ascii.eqb x c); [discriminate |].
    destruct (find_chr c a); [discriminate |]. now rewrite IH.
Qed.

Lemma take_length_app (a b : string) : take (String.length a) (a ++ b) = a.
Proof. induction a as [|x a IH]; simpl; [now destruct b | now rewrite IH]. Qed.

(** X3: [strip_query] returns the path up to its first '?': the result
    holds no '?', is a prefix of the path, and is the path itself when
    the path holds none. *)
Theorem strip_query_first_mark :
  forall path : string,
    find_chr "?" (strip_query path) = None
    /\ prefix (strip_query path) path = true
    /\ (find_chr "?" path = None -> strip_query path = path)
    /\ (forall a b, path = a ++ "?" ++ b -> find_chr "?" a = None ->
        strip_query path = a).
Proof.
  intros path. unfold strip_query, substr. simpl drop.
  destruct (find_chr "?" path) as [q|] eqn:F.
  - split; [now apply find_chr_take |].
    split; [apply prefix_take |]. split; [discriminate |].
    intros a b -> Na.
    change (a ++ "?" ++ b) with (a ++ String "?" b) in *.
    rewrite (find_chr_app _ _ b Na) in F. injection F as <-.
    apply take_length_app.
  - split; [exact F |].
    split; [rewrite <- (app_empty_r path) at 2; apply prefix_app_self |].
    split; [reflexivity |].
    intros a b -> Na.
    change (a ++ "?" ++ b) with (a ++ String "?" b) in F.
    rewrite (find_chr_app _ _ b Na) in F. discriminate.
Qed.

End MoreStrings.

(** ** More on framing *)

Section MoreFraming.

Import Str Httplib Spec Laws.

Lemma recv_loop_without_retries (script : list recv_result) (st : read_state) :
  recv_loop (without_retries script) st = recv_loop script st.
Proof.
  revert st; induction script as [|r script IH]; intros st; [reflexivity |].
  destruct r as [data | [|]]; simpl.
  - destruct (String.length data =? 0)%nat; [reflexivity |].
    destruct (complete (absorb st data)); [reflexivity |].
    destruct (String.length data <? CHUNK)%nat; [reflexivity | apply IH].
  - apply IH.
  - reflexivity.
Qed.

(** X4: an interrupted [recv] is retried and leaves no trace: a script
    and the same script without its EINTR failures frame alike. *)
Theorem read_request_retries :
  forall script : list recv_result,
    read_request (without_retries script) = read_request script.
Proof.
  intros script. unfold read_request.
  now rewrite recv_loop_without_retries.
Qed.

Lemma recv_loop_short_read (pre : list recv_result) (data : string)
  (rest : list recv_result) (st : read_state) :
  String.length data < CHUNK ->
  recv_loop (pre ++ Received data :: rest) st
  = recv_loop (pre ++ [Received data]) st.
Proof.
  intros L. revert st; induction pre as [|r pre IH]; intros st.
  - simpl. destruct (String.length data =? 0)%nat; [reflexivity |].
    destruct (complete (absorb st data)); [reflexivity |].
    destruct (Nat.ltb_spec (String.length data) CHUNK); [reflexivity | lia].
  - destruct r as [d | [|]]; simpl.
    + destruct (String.length d =? 0)%nat; [reflexivity |].
      destruct (complete (absorb st d)); [reflexivity |].
      destruct (String.length d <? CHUNK)%nat; [reflexivity | apply IH].
    + apply IH.
    + reflexivity.
Qed.

(** X5: a read that returns fewer bytes than the chunk is the last one:
    whatever the peer sends afterwards is not read, and the request is
    framed from what has arrived by then. *)
Theorem read_request_stops_at_short_read :
  forall (pre : list recv_result) (data : string) (rest : list recv_result),
    String.length data < CHUNK ->
    read_request (pre ++ Received data :: rest)
    = read_request (pre ++ [Received data]).
Proof.
  intros pre data rest L. unfold read_request.
  now rewrite (recv_loop_short_read pre data rest read_init L).
Qed.

Lemma read_request_stops_at_short_read_witness :
  let head := "POST /resolve HTTP/1.1" ++ CRLF ++ "Content-Length: 2"
              ++ CRLF ++ CRLF in
  read_request [Received head; Received "{}"] = None.
Proof.
  intros head.
  refine (eq_trans
            (read_request_stops_at_short_read [] head [Received "{}"] _) _).
  - vm_compute. lia.
  - vm_compute. reflexivity.
Defined.

Lemma find_app_none (t a b : string) :
  find t (a ++ b) 0 = None -> t <> "" -> find t a 0 = None.
Proof.
  intros H Nt. destruct (find t a 0) as [h|] eqn:F; [|reflexivity].
  rewrite (find_app _ _ b _ F) in H. discriminate.
Qed.

Lemma buffered_init : read_init = buffered "".
Proof. reflexivity. Qed.

(** The buffer only ever holds a prefix of what the peer sends. *)
Lemma recv_loop_buffer (script : list recv_result) (b : string)
  (st : read_state) :
  recv_loop script (buffered b) = Some st ->
  exists got rest, st = buffered (b ++ got) /\ received script = got ++ rest.
Proof.
  revert b; induction script as [|r script IH]; intros b H.
  - injection H as <-. exists "", "". now rewrite app_empty_r.
  - destruct r as [data | [|]]; simpl in H.
    + destruct (String.length data =? 0)%nat.
      { injection H as <-. exists "", (data ++ received script).
        now rewrite app_empty_r. }
      rewrite absorb_buffered in H.
      destruct (complete (buffered (b ++ data))).
      { injection H as <-. exists data, (received script). auto. }
      destruct (String.length data <? CHUNK)%nat.
      { injection H as <-. exists data, (received script). auto. }
      destruct (IH _ H) as (got & rest & -> & E).
      exists (data ++ got), rest. simpl.
      rewrite E, !app_assoc_s. auto.
    + destruct (IH _ H) as (got & rest & -> & E). eauto.
    + discriminate.
Qed.

(** X6: when what the peer sends holds no header terminator, framing
    fails and the connection is answered 400 Bad Request, whatever the
    routes and the files. *)
Theorem no_terminator_is_bad_request :
  forall (s : Server) (fs : FileSystem) (script : list recv_result),
    find CRLFCRLF (received script) 0 = None ->
    read_request script = None
    /\ handle_client s fs script = error_response 400 "Bad Request".
Proof.
  intros s fs script H.
  assert (R : read_request script = None).
  { unfold read_request. rewrite buffered_init.
    destruct (recv_loop script (buffered "")) as [st|] eqn:L; [|reflexivity].
    destruct (recv_loop_buffer _ _ _ L) as (got & rest & -> & E).
    simpl in *. rewrite E in H.
    apply find_app_none in H; [|discriminate].
    destruct (empty got); [reflexivity |]. now rewrite H. }
  split; [exact R |]. unfold handle_client. now rewrite R.
Qed.

Lemma no_terminator_is_bad_request_witness :
  response_text
    (handle_client new_server (fun _ => None)
       [Received ("GET / HTTP/1.1" ++ CRLF); RecvFailed true;
        Received ("Host: x" ++ CRLF)])
  = "HTTP/1.1 400 Bad Request" ++ CRLF
      ++ "Content-Type: text/plain" ++ CRLF
      ++ "Content-Length: 11" ++ CRLF
      ++ "Connection: close" ++ CRLF ++ CRLF ++ "Bad Request".
Proof.
  refine (eq_trans
            (f_equal response_text
               (proj2 (no_terminator_is_bad_request
                         new_server (fun _ => None)
                         [Received ("GET / HTTP/1.1" ++ CRLF); RecvFailed true;
                          Received ("Host: x" ++ CRLF)] _))) _).
  - vm_compute. reflexivity.
  - vm_compute. reflexivity.
Defined.

Lemma read_word_no_space (s : string) : no_space (fst (read_word s)).
Proof.
  unfold no_space. induction s as [|c s IH]; simpl; [reflexivity |].
  destruct (isspace c) eqn:E; [reflexivity |].
  destruct (read_word s) as [w r]. simpl in *. now rewrite E, IH.
Qed.

Lemma parse_headers_loop_ordered (fuel : nat) (raw : string)
  (header_end pos : nat) (headers out : StdMap.t string) :
  StdMap.ordered headers ->
  parse_headers_loop fuel raw header_end pos headers = Some out ->
  StdMap.ordered out.
Proof.
  revert pos headers; induction fuel as [|fuel IH]; intros pos hs O H;
    [discriminate |].
  simpl in H. destruct (pos <? header_end)%nat; [|now injection H as <-].
  destruct (find CRLF raw pos) as [next|]; [|now injection H as <-].
  destruct (header_end <? next)%nat; [now injection H as <-|].
  destruct (find_chr ":" _).
  - eapply IH; [|exact H]. now apply set_ordered.
  - eapply IH; [|exact H]. exact O.
Qed.

Lemma strtoull_bound (s : string) : (strtoull s <= ULLONG_MAX)%N.
Proof.
  unfold strtoull.
  destruct (match drop (skip_space s) s with
            | String "-" r => (true, r)
            | String "+" r => (false, r)
            | _ => (false, drop (skip_space s) s)
            end) as [neg s2].
  destruct (N.ltb_spec ULLONG_MAX (digits_value s2 0)) as [L|L];
    [apply N.le_refl |].
  destruct neg; [|exact L].
  pose proof (N.mod_upper_bound (SIZE_MODULUS - digits_value s2 0)
                                SIZE_MODULUS) as U.
  unfold ULLONG_MAX, SIZE_MODULUS in *. lia.
Qed.

Lemma extract_content_length_bound (headers : string) :
  (extract_content_length headers <= ULLONG_MAX)%N.
Proof.
  unfold extract_content_length.
  assert (G : forall fuel pos v,
             extract_content_length_loop fuel headers pos = Some v ->
             (v <= ULLONG_MAX)%N).
  { induction fuel as [|fuel IH]; intros pos v H; [discriminate |].
    simpl in H. destruct (pos <? String.length headers)%nat.
    - destruct (find_chr ":" _); [|now apply IH in H].
      destruct (negb _); [now apply IH in H |].
      injection H as <-. apply strtoull_bound.
    - injection H as <-. unfold ULLONG_MAX. lia. }
  destruct (extract_content_length_loop _ headers 0) eqn:E;
    [now apply G in E | unfold ULLONG_MAX; lia].
Qed.

(** X7: a request that is framed and parsed has a method and a path that
    are not empty and hold no white space, headers in ascending key
    order, and a declared length that fits [size_t]. *)
Theorem parsed_request_shape :
  forall (script : list recv_result) (p : ParsedRequest),
    read_request script = Some p ->
    Request.method (request p) <> ""
    /\ Request.path (request p) <> ""
    /\ no_space (Request.method (request p))
    /\ no_space (Request.path (request p))
    /\ StdMap.ordered (Request.headers (request p))
    /\ (content_length p <= ULLONG_MAX)%N.
Proof.
  intros script p H. unfold read_request in H.
  destruct (recv_loop script read_init) as [st|] eqn:Lp; [|discriminate].
  destruct (empty (buffer st)); [discriminate |].
  assert (B : forall h cl,
             match found st with
             | Some h => Some (h, declared st)
             | None =>
                 match find CRLFCRLF (buffer st) 0 with
                 | None => None
                 | Some h =>
                     Some (h, extract_content_length
                                (substr (buffer st) 0 (h + 2)))
                 end
             end = Some (h, cl) -> (cl <= ULLONG_MAX)%N).
  { intros h cl E. rewrite buffered_init in Lp.
    destruct (recv_loop_buffer _ _ _ Lp) as (got & rest & -> & _).
    simpl in E. destruct (find CRLFCRLF got 0); [|discriminate].
    injection E as _ <-. apply extract_content_length_bound. }
  match type of H with
  | match ?l with _ => _ end = _ => destruct l as [[h cl]|]; [|discriminate]
  end.
  specialize (B h cl eq_refl).
  destruct (_ <? _)%N; [discriminate |].
  unfold parse_request in H.
  destruct (find CRLF (buffer st) 0) as [line_end|]; [|discriminate].
  destruct (parse_headers_loop (S h) (buffer st) h (line_end + 2)
                               StdMap.empty) as [hs|] eqn:L.
  - apply parse_headers_loop_ordered in L; [|apply empty_ordered].
    pose proof (read_word_no_space
                  (drop (skip_space (substr (buffer st) 0 line_end))
                        (substr (buffer st) 0 line_end))) as Nm.
    fold (extract_token (substr (buffer st) 0 line_end)) in Nm.
    destruct (extract_token (substr (buffer st) 0 line_end))
      as [method rest1].
    pose proof (read_word_no_space (drop (skip_space rest1) rest1)) as Np.
    fold (extract_token rest1) in Np.
    destruct (extract_token rest1) as [path rest2].
    destruct (empty method) eqn:Em; [discriminate |].
    destruct (empty path) eqn:Ep; [discriminate |].
    cbn [orb] in H. injection H as <-. cbn.
    repeat split; try assumption.
    + intros ->. discriminate.
    + intros ->. discriminate.
  - destruct (extract_token (substr (buffer st) 0 line_end)) as [m r1].
    destruct (extract_token r1) as [pa r2].
    destruct (empty m || empty pa); discriminate.
Qed.

Lemma parsed_request_shape_witness :
  let script := [Received ("GET /a HTTP/1.1" ++ CRLF ++ "B: 1" ++ CRLF
                           ++ "A: 2" ++ CRLF ++ CRLF)] in
  let p := mkParsed (Request.mk "GET" "/a" "" [("A", "2"); ("B", "1")]) 27 0 in
  read_request script = Some p
  /\ StdMap.ordered (Request.headers (request p)).
Proof.
  intros script p.
  assert (R : read_request script = Some p) by (vm_compute; reflexivity).
  split; [exact R |].
  exact (proj1 (proj2 (proj2 (proj2 (proj2
           (parsed_request_shape script p R)))))).
Defined.

End MoreFraming.

(** ** More on dispatch *)

Section MoreDispatch.

Import Str Httplib Spec Laws.

Lemma serve_file_cases (s : Server) (fs : FileSystem) (rel : string)
  (res : Response.t) :
  snd (serve_file s fs rel res) = [mount_root s ++ rel]
  /\ (fst (fst (serve_file s fs rel res)) = false ->
      snd (fst (serve_file s fs rel res)) = res)
  /\ (fst (fst (serve_file s fs rel res)) = true ->
      StdMap.find "Content-Type"
        (Response.headers (snd (fst (serve_file s fs rel res))))
      = Some (detect_mime rel)
      /\ Response.status (snd (fst (serve_file s fs rel res))) = 200%Z
      /\ fs (mount_root s ++ rel)
         = Some (Response.body (snd (fst (serve_file s fs rel res))))).
Proof.
  unfold serve_file. fold (mount_root s).
  destruct (fs (mount_root s ++ rel)) as [contents|]; simpl.
  - split; [reflexivity |]. split; [discriminate |]. intros _.
    split; [apply find_set_same | split; reflexivity].
  - split; [reflexivity |]. split; [reflexivity | discriminate].
Qed.

Lemma ensure_default_some (res : Response.t) :
  StdMap.find "Content-Type" (Response.headers (ensure_default_headers res))
  <> None.
Proof. rewrite ensure_default_content_type. discriminate. Qed.

(** [dispatch] ends in one of two ways: it returns [true] with a
    response that carries a Content-Type, or it returns [false] with
    status 404 and body not_found or status 403 and body forbidden, the
    headers being those it was given. *)
Lemma dispatch_cases (s : Server) (fs : FileSystem) (req : Request.t)
  (res : Response.t) :
    let d := dispatch s fs req res in
    (handled d = true /\
     StdMap.find "Content-Type" (Response.headers (response d)) <> None)
    \/ (handled d = false /\
        Response.headers (response d) = Response.headers res /\
        ((Response.status (response d) = 404%Z
          /\ Response.body (response d) = "not_found")
         \/ (Response.status (response d) = 403%Z
             /\ Response.body (response d) = "forbidden"))).
Proof.
  cbv zeta. unfold dispatch.
  destruct (StdMap.find _ _) as [h|].
  { left. split; [reflexivity | apply ensure_default_some]. }
  destruct (empty (mount_point_ s)).
  { right. simpl. auto. }
  destruct (_ || _).
  { destruct (serve_file_cases s fs "index.html" res) as (_ & F & _).
    destruct (serve_file s fs "index.html" res) as [[[] r] l]; simpl in *.
    - left. split; [reflexivity | apply ensure_default_some].
    - right. rewrite (F eq_refl). simpl. auto. }
  simpl. destruct (rfind0 _ _) as [[|?]|]; try (right; simpl; now auto).
  destruct (find ".." _ 0); [right; simpl; now auto |].
  match goal with |- context [serve_file s fs ?r res] =>
    destruct (serve_file_cases s fs r res) as (_ & F & _);
    destruct (serve_file s fs r res) as [[[] r'] l]
  end; simpl in *.
  - left. split; [reflexivity | apply ensure_default_some].
  - right. rewrite (F eq_refl). simpl. auto.
Qed.

(** X8: every response [handle_client] serialises carries a
    Content-Type; a connection that cannot be framed gets 400 Bad
    Request, and a request that [dispatch] declines gets 404 not_found or
    403 forbidden as text/plain: the "Not Found" text [handle_client]
    holds in reserve for an empty body is never sent. *)
Theorem handle_client_outcomes :
  forall (s : Server) (fs : FileSystem) (script : list recv_result),
    let r := handle_client s fs script in
    StdMap.find "Content-Type" (Response.headers r) <> None
    /\ (read_request script = None -> r = error_response 400 "Bad Request")
    /\ (forall p, read_request script = Some p ->
        handled (dispatch s fs (request p) Response.init) = false ->
        r = error_response 404 "not_found"
        \/ r = error_response 403 "forbidden").
Proof.
  intros s fs script. unfold handle_client.
  destruct (read_request script) as [p|].
  - pose proof (dispatch_cases s fs (request p) Response.init) as O.
    cbv zeta in O.
    destruct O as [[H C] | (H & _ & [[St B] | [St B]])]; rewrite H; simpl.
    + split; [exact C |]. split; [discriminate |].
      intros p' [= <-] X. congruence.
    + rewrite St, B. simpl. split; [discriminate |].
      split; [discriminate |]. intros p' _ _. now left.
    + rewrite St, B. simpl. split; [discriminate |].
      split; [discriminate |]. intros p' _ _. now right.
  - split; [discriminate |]. split; [reflexivity |].
    intros p' X. discriminate.
Qed.

(** X9: [dispatch] opens at most one file.  It is always the mount
    directory followed by a relative path that holds no ".."; no file is
    opened when a handler runs or when the request is answered 403. *)
Theorem dispatch_opens_under_mount :
  forall (s : Server) (fs : FileSystem) (req : Request.t) (res : Response.t),
    let d := dispatch s fs req res in
    (opened d = []
     \/ exists rel, opened d = [mount_root s ++ rel]
                    /\ rel <> "" /\ find ".." rel 0 = None)
    /\ (exit_ d = ExitHandler \/ exit_ d = ExitForbidden -> opened d = []).
Proof.
  intros s fs req res. unfold dispatch.
  destruct (StdMap.find _ _) as [h|]; [simpl; auto |].
  destruct (empty (mount_point_ s)); [simpl; auto |].
  destruct (_ || _).
  { destruct (serve_file_cases s fs "index.html" res) as (L & _).
    destruct (serve_file s fs "index.html" res) as [[[] r] l]; simpl in *;
      (split; [right; exists "index.html"; repeat split;
               [exact L | discriminate] | intros [|]; discriminate]). }
  simpl. destruct (rfind0 _ _) as [[|?]|]; try (simpl; now auto).
  match goal with |- context [find ".." ?r 0] =>
    destruct (find ".." r 0) eqn:F; [simpl; auto |];
    assert (Nr : r <> "") by
      (destruct (empty _) eqn:Er; [discriminate |];
       intros C; rewrite C in Er; discriminate);
    destruct (serve_file_cases s fs r res) as (L & _);
    destruct (serve_file s fs r res) as [[[] r'] l]
  end; simpl in *;
    (split; [right; eexists; repeat split; [exact L | exact Nr | exact F]
            | intros [|]; discriminate]).
Qed.

Lemma ensure_default_keeps (res : Response.t) (v : string) :
  StdMap.find "Content-Type" (Response.headers res) = Some v ->
  ensure_default_headers res = res.
Proof.
  intros H. unfold ensure_default_headers, StdMap.count. now rewrite H.
Qed.

(** X10: when [dispatch] leaves through one of its two file branches, the
    response is 200, its body is the contents of the one file that was
    opened, and its Content-Type is what [detect_mime] gives for the
    relative path. *)
Theorem served_file_is_the_opened_one :
  forall (s : Server) (fs : FileSystem) (req : Request.t) (res : Response.t),
    let d := dispatch s fs req res in
    exit_ d = ExitIndex \/ exit_ d = ExitFile ->
    handled d = true
    /\ Response.status (response d) = 200%Z
    /\ exists rel,
         opened d = [mount_root s ++ rel]
         /\ fs (mount_root s ++ rel) = Some (Response.body (response d))
         /\ StdMap.find "Content-Type" (Response.headers (response d))
            = Some (detect_mime rel).
Proof.
  intros s fs req res. unfold dispatch.
  destruct (StdMap.find _ _) as [h|]; [intros [|]; discriminate |].
  destruct (empty (mount_point_ s)); [intros [|]; discriminate |].
  destruct (_ || _).
  { destruct (serve_file_cases s fs "index.html" res) as (L & _ & T).
    destruct (serve_file s fs "index.html" res) as [[[] r] l]; simpl in *;
      [|intros [|]; discriminate].
    intros _. destruct (T eq_refl) as (C & St & B).
    rewrite (ensure_default_keeps _ _ C).
    split; [reflexivity |]. split; [exact St |]. eauto. }
  simpl. destruct (rfind0 _ _) as [[|?]|]; try (intros [|]; discriminate).
  destruct (find ".." _ 0); [intros [|]; discriminate |].
  match goal with |- context [serve_file s fs ?r res] =>
    destruct (serve_file_cases s fs r res) as (L & _ & T);
    destruct (serve_file s fs r res) as [[[] r'] l]
  end; simpl in *; [|intros [|]; discriminate].
  intros _. destruct (T eq_refl) as (C & St & B).
  rewrite (ensure_default_keeps _ _ C).
  split; [reflexivity |]. split; [exact St |]. eauto.
Qed.

Lemma served_file_is_the_opened_one_witness :
  let s := snd (set_mount_point "/" "./public" new_server) in
  let fs := fun p => if String.eqb p "./public/.css"
                     then Some "body{}" else None in
  let d := dispatch s fs (Request.mk "GET" "/.css" "" StdMap.empty)
                    Response.init in
  handled d = true /\ Response.status (response d) = 200%Z.
Proof.
  intros s fs d.
  destruct (served_file_is_the_opened_one
              s fs (Request.mk "GET" "/.css" "" StdMap.empty) Response.init)
    as (H & St & _); [right; reflexivity |].
  split; assumption.
Defined.

(** X11: a file that exists under the mount directory is served: when no
    route matches, the mount prefix is not empty, the stripped path
    extends it by a relative path that holds no "..", and the file
    opens, [dispatch] answers 200 with its contents. *)
Theorem existing_file_is_served :
  forall (s : Server) (fs : FileSystem) (req : Request.t) (res : Response.t)
         (contents : string),
    let path := strip_query (Request.path req) in
    let rel := remainder (mount_point_ s) path in
    StdMap.find path (handlers_for s (Request.method req)) = None ->
    mount_point_ s <> "" ->
    prefix (mount_point_ s) path = true ->
    rel <> "" ->
    find ".." rel 0 = None ->
    fs (mount_root s ++ rel) = Some contents ->
    let d := dispatch s fs req res in
    handled d = true
    /\ opened d = [mount_root s ++ rel]
    /\ Response.status (response d) = 200%Z
    /\ Response.body (response d) = contents
    /\ StdMap.find "Content-Type" (Response.headers (response d))
       = Some (detect_mime rel).
Proof.
  intros s fs req res contents path rel U N P Nr F Fs.
  assert (Ne : path <> mount_point_ s).
  { intros E. apply Nr. unfold rel, remainder. rewrite E, drop_length.
    reflexivity. }
  unfold dispatch. fold path. rewrite U.
  destruct (empty (mount_point_ s)) eqn:Em;
    [apply empty_true in Em; contradiction |].
  destruct (String.eqb_spec path (mount_point_ s)) as [|_]; [contradiction |].
  rewrite Bool.andb_false_r. simpl.
  unfold rfind0. rewrite P. unfold substr_from.
  change (match drop (String.length (mount_point_ s)) path with
          | String "/" r => r
          | _ => drop (String.length (mount_point_ s)) path
          end) with rel.
  destruct (empty rel) eqn:Er; [apply empty_true in Er; contradiction |].
  rewrite F. unfold serve_file. fold (mount_root s). rewrite Fs. simpl.
  rewrite (ensure_default_keeps _ (detect_mime rel))
    by (simpl; apply find_set_same).
  simpl. repeat split. apply find_set_same.
Qed.

Lemma existing_file_is_served_witness :
  let s := snd (set_mount_point "/static" "www/" new_server) in
  let fs := fun p => if String.eqb p "www/js/app.js"
                     then Some "let x;" else None in
  let d := dispatch s fs (Request.mk "GET" "/static/js/app.js?v=2" ""
                                     StdMap.empty) Response.init in
  handled d = true
  /\ opened d = ["www/js/app.js"]
  /\ Response.status (response d) = 200%Z
  /\ Response.body (response d) = "let x;"
  /\ StdMap.find "Content-Type" (Response.headers (response d))
     = Some "application/octet-stream".
Proof.
  intros s fs d.
  apply (existing_file_is_served
           s fs (Request.mk "GET" "/static/js/app.js?v=2" "" StdMap.empty)
           Response.init "let x;"); try reflexivity; discriminate.
Defined.

Lemma dispatch_same_lookup (s s' : Server) (fs : FileSystem)
  (req : Request.t) (res : Response.t) :
  mount_point_ s' = mount_point_ s ->
  mount_dir_ s' = mount_dir_ s ->
  StdMap.find (strip_query (Request.path req))
              (handlers_for s' (Request.method req))
  = StdMap.find (strip_query (Request.path req))
                (handlers_for s (Request.method req)) ->
  dispatch s' fs req res = dispatch s fs req res.
Proof.
  intros Mp Md F. unfold dispatch, serve_file. now rewrite F, Mp, Md.
Qed.

Lemma dispatch_other_route (s : Server) (fs : FileSystem)
  (pattern : string) (h : Handler) (req : Request.t) (res : Response.t) :
  strip_query (Request.path req) <> pattern ->
  dispatch (Get pattern h s) fs req res = dispatch s fs req res
  /\ dispatch (Post pattern h s) fs req res = dispatch s fs req res.
Proof.
  intros N. split; apply dispatch_same_lookup; try reflexivity;
    unfold handlers_for; destruct (String.eqb _ "POST"); simpl;
    try reflexivity; now apply find_set_other.
Qed.

(** X12: registering a route changes what [dispatch] does only for the
    requests it matches: after [Get] a request of any method other than
    POST with that stripped path runs the new handler, the latest
    registration winning; every request with another stripped path, and
    every POST, is dispatched as before.  [Post] is symmetric. *)
Theorem registration_is_local :
  forall (s : Server) (fs : FileSystem) (pattern : string) (h : Handler)
         (req : Request.t) (res : Response.t),
    let path := strip_query (Request.path req) in
    let run := mkDispatch true (ensure_default_headers (h req res)) []
                          ExitHandler in
    (Request.method req <> "POST" -> path = pattern ->
     dispatch (Get pattern h s) fs req res = run)
    /\ (Request.method req = "POST" \/ path <> pattern ->
        dispatch (Get pattern h s) fs req res = dispatch s fs req res)
    /\ (Request.method req = "POST" -> path = pattern ->
        dispatch (Post pattern h s) fs req res = run)
    /\ (Request.method req <> "POST" \/ path <> pattern ->
        dispatch (Post pattern h s) fs req res = dispatch s fs req res).
Proof.
  intros s fs pattern h req res path run.
  repeat split.
  - intros M P. apply dispatch_match. fold path. unfold handlers_for.
    apply String.eqb_neq in M. rewrite M, P. apply find_set_same.
  - intros [M | N]; [|now apply dispatch_other_route].
    apply dispatch_same_lookup; try reflexivity.
    unfold handlers_for. now rewrite M.
  - intros M P. apply dispatch_match. fold path. unfold handlers_for.
    rewrite M, P. simpl. apply find_set_same.
  - intros [M | N]; [|now apply dispatch_other_route].
    apply dispatch_same_lookup; try reflexivity.
    unfold handlers_for. apply String.eqb_neq in M. now rewrite M.
Qed.

(** X13: a route whose pattern holds a '?' is never matched: the lookup
    key is the path with its query string stripped, so registering such
    a route leaves [dispatch] as it was for every request. *)
Theorem pattern_with_query_never_matches :
  forall (s : Server) (fs : FileSystem) (pattern : string) (h : Handler)
         (req : Request.t) (res : Response.t),
    find_chr "?" pattern <> None ->
    dispatch (Get pattern h s) fs req res = dispatch s fs req res
    /\ dispatch (Post pattern h s) fs req res = dispatch s fs req res.
Proof.
  intros s fs pattern h req res Q.
  apply dispatch_other_route. intros E. apply Q. rewrite <- E.
  unfold strip_query, substr. simpl drop.
  destruct (find_chr "?" (Request.path req)) as [q|] eqn:F;
    [now apply find_chr_take | exact F].
Qed.

Lemma pattern_with_query_never_matches_witness :
  let h : Handler := fun _ res => Response.with_body "hit" res in
  let req := Request.mk "GET" "/a?b" "" StdMap.empty in
  dispatch (Get "/a?b" h new_server) (fun _ => None) req Response.init
  = dispatch new_server (fun _ => None) req Response.init.
Proof.
  intros h req.
  apply (pattern_with_query_never_matches
           new_server (fun _ => None) "/a?b" h req Response.init).
  discriminate.
Defined.

End MoreDispatch.

(** ** The resolver *)

Section MoreResolver.

Import Str Resolver ResolverLaws Laws.

Lemma wrap_int_add_l (a b : Z) : wrap_int (wrap_int a + b) = wrap_int (a + b).
Proof.
  unfold wrap_int. f_equal.
  replace ((a + 2 ^ 31) mod 2 ^ 32 - 2 ^ 31 + b + 2 ^ 31)%Z
    with ((a + 2 ^ 31) mod 2 ^ 32 + b)%Z by lia.
  rewrite Z.add_mod_idemp_l by lia. f_equal. lia.
Qed.

Lemma pythag_loop_total (s : string) (sum : Z) :
  wrap_int (pythag_loop s sum) = wrap_int (sum + letters_total s).
Proof.
  revert sum; induction s as [|c s IH]; intros sum; simpl.
  - now rewrite Z.add_0_r.
  - rewrite IH, wrap_int_add_l. f_equal. lia.
Qed.

Lemma digits_loop_total (s : string) (sum : Z) :
  wrap_int (digits_loop s sum) = wrap_int (sum + digits_total s).
Proof.
  revert sum; induction s as [|c s IH]; intros sum; simpl.
  - now rewrite Z.add_0_r.
  - rewrite IH, wrap_int_add_l. f_equal. lia.
Qed.

Lemma wrap_int_idem (z : Z) : wrap_int (wrap_int z) = wrap_int z.
Proof.
  unfold wrap_int.
  pose proof (Z.mod_pos_bound (z + 2 ^ 31) (2 ^ 32) ltac:(lia)).
  replace ((z + 2 ^ 31) mod 2 ^ 32 - 2 ^ 31 + 2 ^ 31)%Z
    with ((z + 2 ^ 31) mod 2 ^ 32)%Z by lia.
  now rewrite Z.mod_mod by lia.
Qed.

Lemma pythag_loop_wrapped (s : string) (sum : Z) :
  wrap_int sum = sum -> wrap_int (pythag_loop s sum) = pythag_loop s sum.
Proof.
  revert sum; induction s as [|c s IH]; intros sum H; simpl; [exact H |].
  apply IH, wrap_int_idem.
Qed.

Lemma digits_loop_wrapped (s : string) (sum : Z) :
  wrap_int sum = sum -> wrap_int (digits_loop s sum) = digits_loop s sum.
Proof.
  revert sum; induction s as [|c s IH]; intros sum H; simpl; [exact H |].
  apply IH, wrap_int_idem.
Qed.

Lemma pythag_sum_total (s : string) :
  pythag_sum s = wrap_int (letters_total s).
Proof.
  unfold pythag_sum.
  rewrite <- pythag_loop_wrapped by reflexivity.
  now rewrite pythag_loop_total.
Qed.

Lemma sum_digits_total (s : string) :
  sum_digits s = wrap_int (digits_total s).
Proof.
  unfold sum_digits.
  rewrite <- digits_loop_wrapped by reflexivity.
  now rewrite digits_loop_total.
Qed.

Lemma letter_value_bound (c : ascii) : (0 <= letter_value c <= 26)%Z.
Proof.
  destruct c as [[] [] [] [] [] [] [] []]; vm_compute; split; discriminate.
Qed.

Lemma digit_value_bound (c : ascii) : (0 <= digit_value c <= 9)%Z.
Proof.
  destruct c as [[] [] [] [] [] [] [] []]; vm_compute; split; discriminate.
Qed.

Lemma letter_value_lower (c : ascii) :
  letter_value (tolower c) = letter_value c.
Proof. destruct c as [[] [] [] [] [] [] [] []]; reflexivity. Qed.

Lemma letters_total_bound (s : string) :
  (0 <= letters_total s <= 26 * Z.of_nat (String.length s))%Z.
Proof.
  induction s as [|c s IH]; simpl String.length; simpl letters_total; [lia |].
  pose proof (letter_value_bound c). lia.
Qed.

Lemma digits_total_bound (s : string) :
  (0 <= digits_total s <= 9 * Z.of_nat (String.length s))%Z.
Proof.
  induction s as [|c s IH]; simpl String.length; simpl digits_total; [lia |].
  pose proof (digit_value_bound c). lia.
Qed.

Lemma letters_total_app (a b : string) :
  letters_total (a ++ b) = (letters_total a + letters_total b)%Z.
Proof. induction a as [|c a IH]; simpl; [reflexivity | rewrite IH; lia]. Qed.

Lemma letters_total_lower (s : string) :
  letters_total (lower s) = letters_total s.
Proof.
  induction s as [|c s IH]; simpl; [reflexivity |].
  now rewrite letter_value_lower, IH.
Qed.

(** X14: [pythag_sum] sees neither the case of the letters nor the
    order of the parts of a string; as long as 26 times the length fits
    an [int] nothing overflows, the sum lies between 0 and 26 times the
    length, and the sum of a concatenation is the sum of the sums. *)
Theorem pythag_sum_letters :
  forall a b : string,
    pythag_sum (lower a) = pythag_sum a
    /\ pythag_sum (a ++ b) = pythag_sum (b ++ a)
    /\ ((26 * Z.of_nat (String.length (a ++ b)) <= 2 ^ 31 - 1)%Z ->
        pythag_sum (a ++ b) = (pythag_sum a + pythag_sum b)%Z
        /\ (0 <= pythag_sum (a ++ b)
            <= 26 * Z.of_nat (String.length (a ++ b)))%Z).
Proof.
  intros a b. rewrite !pythag_sum_total, !letters_total_app,
    letters_total_lower.
  split; [reflexivity |]. split; [f_equal; lia |].
  rewrite length_app, Nat2Z.inj_add. intros B.
  pose proof (letters_total_bound a). pose proof (letters_total_bound b).
  rewrite !wrap_int_small by lia. lia.
Qed.

(** X15: for a seed that is not negative and a title and an arcana of
    fewer than twenty million characters together, no [int] overflows
    and [resolve] returns
    (3 * letters + 2 * digits + seed mod 72) mod 72 + 1, a worker id in
    1..72 that depends on the seed only through its remainder by 72. *)
Theorem resolve_in_range :
  forall n : Node.t,
    (0 <= Node.seed n)%Z ->
    (Z.of_nat (String.length (Node.title n))
     + Z.of_nat (String.length (Node.arcana n)) < 20000000)%Z ->
    resolve n =
      ((3 * letters_total (Node.title n) + 2 * digits_total (Node.arcana n)
        + Node.seed n mod 72) mod 72 + 1)%Z
    /\ (1 <= resolve n <= 72)%Z
    /\ resolve (Node.mk (Node.title n) (Node.arcana n) (Node.seed n + 72)
                        (Node.timestamp n)) = resolve n.
Proof.
  intros n Hs Hl.
  pose proof (letters_total_bound (Node.title n)) as Bt.
  pose proof (digits_total_bound (Node.arcana n)) as Ba.
  assert (F : forall seed, (0 <= seed)%Z ->
            resolve (Node.mk (Node.title n) (Node.arcana n) seed
                             (Node.timestamp n))
            = ((3 * letters_total (Node.title n)
                + 2 * digits_total (Node.arcana n) + seed mod 72) mod 72
               + 1)%Z).
  { intros seed Hp. unfold resolve, score, day_mod_36.
    cbn [Node.title Node.arcana Node.seed Node.timestamp].
    rewrite pythag_sum_total, sum_digits_total.
    rewrite (Z.rem_mod_nonneg seed 72) by lia.
    pose proof (Z.mod_pos_bound seed 72 ltac:(lia)).
    set (A := letters_total (Node.title n)) in *.
    set (B := digits_total (Node.arcana n)) in *.
    change (0 * 2)%Z with 0%Z.
    rewrite (wrap_int_small A) by lia.
    rewrite (wrap_int_small B) by lia.
    rewrite (wrap_int_small 0) by lia.
    rewrite (wrap_int_small (3 * A)) by lia.
    rewrite (wrap_int_small (2 * B)) by lia.
    rewrite (wrap_int_small (2 * 0)) by lia.
    rewrite (wrap_int_small (3 * A + 2 * B)) by lia.
    rewrite (wrap_int_small (3 * A + 2 * B + 2 * 0)) by lia.
    rewrite (wrap_int_small (3 * A + 2 * B + 2 * 0 + seed mod 72)) by lia.
    rewrite Z.rem_mod_nonneg by lia.
    pose proof (Z.mod_pos_bound (3 * A + 2 * B + 2 * 0 + seed mod 72) 72
                  ltac:(lia)).
    rewrite wrap_int_small by lia.
    do 2 f_equal. lia. }
  assert (E : resolve n = resolve (Node.mk (Node.title n) (Node.arcana n)
                                           (Node.seed n) (Node.timestamp n)))
    by (now destruct n).
  rewrite E, !F by lia.
  split; [reflexivity |]. split.
  - pose proof (Z.mod_pos_bound
                  (3 * letters_total (Node.title n)
                   + 2 * digits_total (Node.arcana n) + Node.seed n mod 72) 72
                  ltac:(lia)). lia.
  - replace (Node.seed n + 72)%Z with (Node.seed n + 1 * 72)%Z by lia.
    now rewrite Z.mod_add by lia.
Qed.

Lemma resolve_in_range_witness :
  (1 <= resolve (Node.mk "Vehuiyah" "XIII-13" 105 "") <= 72)%Z.
Proof.
  apply (resolve_in_range (Node.mk "Vehuiyah" "XIII-13" 105 ""));
    simpl; lia.
Defined.

End MoreResolver.

(** ** Decimal text *)

Section Decimal.

Import Str.

Lemma digits_value_digit (c : ascii) (s : string) (acc : N) (k : N) :
  isdigit c = true -> N.of_nat (code c - 48) = k ->
  digits_value (String c s) acc = digits_value s (acc * 10 + k)%N.
Proof. intros D <-. simpl. now rewrite D. Qed.

(** The digits [operator<<] writes for a [size_t] read back. *)
Lemma digits_value_of_uint (d : Decimal.uint) (acc : N) :
  digits_value (NilEmpty.string_of_uint d) acc
  = N.of_nat (Nat.of_uint_acc d (N.to_nat acc)).
Proof.
  revert acc; induction d; intros acc; cbn [NilEmpty.string_of_uint];
    [simpl; now rewrite N2Nat.id | ..];
    (erewrite digits_value_digit by reflexivity);
    match goal with
    | |- context [N.of_nat (code ?c - 48)] =>
        let v := eval vm_compute in (N.of_nat (code c - 48)) in
        change (N.of_nat (code c - 48)) with v
    end;
    rewrite IHd; f_equal; cbn [Nat.of_uint_acc];
    rewrite Nat.tail_mul_spec; f_equal; lia.
Qed.

Lemma string_of_uint_starts_with_digit (d : Decimal.uint) :
  match NilZero.string_of_uint d with
  | String c _ => isdigit c = true
  | EmptyString => False
  end.
Proof. destruct d; reflexivity. Qed.

Lemma digits_value_of_size (n : nat) :
  digits_value (of_size n) 0 = N.of_nat n.
Proof.
  unfold of_size, NilZero.string_of_uint.
  pose proof (DecimalNat.Unsigned.of_to n) as R. unfold Nat.of_uint in R.
  destruct (Nat.to_uint n) eqn:E;
    try (rewrite digits_value_of_uint; simpl N.to_nat; now rewrite R).
  simpl in R. now subst n.
Qed.

Lemma isdigit_not_space (c : ascii) : isdigit c = true -> isspace c = false.
Proof. destruct c as [[] [] [] [] [] [] [] []]; vm_compute; congruence. Qed.

(** [strtoull] reads back the decimal text of a [size_t]. *)
Lemma strtoull_of_size (n : nat) :
  (N.of_nat n <= ULLONG_MAX)%N -> strtoull (of_size n) = N.of_nat n.
Proof.
  intros B. unfold strtoull.
  pose proof (digits_value_of_size n) as V.
  pose proof (string_of_uint_starts_with_digit (Nat.to_uint n)) as S.
  fold (of_size n) in S.
  destruct (of_size n) as [|c s] eqn:E; [contradiction |].
  cbn [skip_space]. rewrite (isdigit_not_space c S). cbn [drop].
  assert (M : match String c s with
              | String "-" r => (true, r)
              | String "+" r => (false, r)
              | _ => (false, String c s)
              end = (false, String c s)).
  { destruct c as [[] [] [] [] [] [] [] []]; try reflexivity;
      vm_compute in S; discriminate. }
  rewrite M, V.
  destruct (N.ltb_spec ULLONG_MAX (N.of_nat n)); [lia | reflexivity].
Qed.

Lemma digits_value_of_uint_acc (d : Decimal.uint) (acc : positive) :
  digits_value (NilEmpty.string_of_uint d) (N.pos acc)
  = N.pos (Pos.of_uint_acc d acc).
Proof.
  revert acc; induction d; intros acc; cbn [NilEmpty.string_of_uint];
    [reflexivity | ..];
    (erewrite digits_value_digit by reflexivity);
    match goal with
    | |- context [N.of_nat (code ?c - 48)] =>
        let v := eval vm_compute in (N.of_nat (code c - 48)) in
        change (N.of_nat (code c - 48)) with v
    end;
    cbn [Pos.of_uint_acc]; rewrite <- IHd; f_equal; lia.
Qed.

Lemma digits_value_of_uint_pos (d : Decimal.uint) :
  digits_value (NilEmpty.string_of_uint d) 0 = Pos.of_uint d.
Proof.
  induction d; cbn [NilEmpty.string_of_uint Pos.of_uint];
    [reflexivity | ..];
    (erewrite digits_value_digit by reflexivity);
    match goal with
    | |- context [N.of_nat (code ?c - 48)] =>
        let v := eval vm_compute in (N.of_nat (code c - 48)) in
        change (N.of_nat (code c - 48)) with v
    end;
    [exact IHd | ..]; apply digits_value_of_uint_acc.
Qed.

Lemma digits_value_of_pos (p : positive) :
  digits_value (NilZero.string_of_uint (Pos.to_uint p)) 0 = N.pos p
  /\ match NilZero.string_of_uint (Pos.to_uint p) with
     | String c _ => isdigit c = true
     | EmptyString => False
     end.
Proof.
  split; [|apply string_of_uint_starts_with_digit].
  pose proof (DecimalPos.Unsigned.of_to p) as R.
  unfold NilZero.string_of_uint.
  destruct (Pos.to_uint p) eqn:E;
    try (rewrite digits_value_of_uint_pos; exact R).
  simpl in R. discriminate.
Qed.

Lemma digit_first_is_plain (c : ascii) (s : string) :
  isdigit c = true ->
  drop (skip_space (String c s)) (String c s) = String c s
  /\ match String c s with
     | String "-" r => (true, r)
     | String "+" r => (false, r)
     | _ => (false, String c s)
     end = (false, String c s).
Proof.
  intros D. cbn [skip_space]. rewrite (isdigit_not_space c D). split;
    [reflexivity |].
  destruct c as [[] [] [] [] [] [] [] []]; try reflexivity;
    vm_compute in D; discriminate.
Qed.

End Decimal.

Section MoreJsonNumbers.

Import Str Json.

(** X16: [std::stoi] reads back the decimal text of an integer exactly
    when the integer fits an [int], and throws on the text of any other
    integer: a seed sent as a JSON string of digits is that seed. *)
Theorem stoi_of_int :
  forall z : Z,
    stoi (of_int z) =
    if ((INT_MIN <=? z) && (z <=? INT_MAX))%Z then Some z else None.
Proof.
  intros z. unfold of_int, stoi. destruct z as [|p|p]; [reflexivity | |].
  - cbn [Z.to_int NilZero.string_of_int].
    destruct (digits_value_of_pos p) as [V S].
    destruct (NilZero.string_of_uint (Pos.to_uint p)) as [|c s] eqn:E;
      [contradiction |].
    destruct (digit_first_is_plain c s S) as [-> ->].
    rewrite S, V. cbn [Z.of_N].
    unfold INT_MIN, INT_MAX.
    destruct (Z.ltb_spec (Z.pos p) (- 2 ^ 31)); [lia |].
    destruct (Z.ltb_spec (2 ^ 31 - 1) (Z.pos p));
      destruct (Z.leb_spec (- 2 ^ 31) (Z.pos p));
      destruct (Z.leb_spec (Z.pos p) (2 ^ 31 - 1)); simpl; try lia;
      reflexivity.
  - cbn [Z.to_int NilZero.string_of_int].
    destruct (digits_value_of_pos p) as [V S].
    destruct (NilZero.string_of_uint (Pos.to_uint p)) as [|c s] eqn:E;
      [contradiction |].
    change (drop (skip_space (String "-" (String c s)))
                 (String "-" (String c s)))
      with (String "-" (String c s)).
    cbv iota beta. rewrite S, V. cbn [Z.of_N Z.opp].
    unfold INT_MIN, INT_MAX.
    destruct (Z.ltb_spec (2 ^ 31 - 1) (Z.neg p)); [lia |].
    destruct (Z.ltb_spec (Z.neg p) (- 2 ^ 31));
      destruct (Z.leb_spec (- 2 ^ 31) (Z.neg p));
      destruct (Z.leb_spec (Z.neg p) (2 ^ 31 - 1)); simpl; try lia;
      reflexivity.
Qed.

End MoreJsonNumbers.

(** ** Header lines *)

Section HeaderLines.

Import Str Httplib Spec Laws.

Lemma skip_space_all (ws x : string) :
  all_space ws -> skip_space (ws ++ x) = String.length ws + skip_space x.
Proof.
  unfold all_space. induction ws as [|c ws IH]; simpl; [reflexivity |].
  intros H. apply andb_prop in H. destruct H as [C W].
  now rewrite C, IH.
Qed.

Lemma at_app_length (a : string) (c : ascii) (b : string) :
  at_ (a ++ String c b) (String.length a) = c.
Proof. unfold at_. induction a as [|x a IH]; simpl; [reflexivity | exact IH]. Qed.

Lemma all_space_at (ws : string) (k : nat) :
  all_space ws -> k < String.length ws ->
  exists a c b, ws = a ++ String c b /\ String.length a = k
                /\ isspace c = true.
Proof.
  unfold all_space. revert k; induction ws as [|x ws IH]; intros k H L;
    simpl in *; [lia |].
  apply andb_prop in H. destruct H as [C W].
  destruct k as [|k].
  - exists "", x, ws. auto.
  - destruct (IH k W ltac:(lia)) as (a & c & b & -> & La & Sc).
    exists (String x a), c, b. simpl. auto.
Qed.

(** The [end--] loop walks back over trailing white space. *)
Lemma trim_end_spaces (pre ws : string) (start k : nat) :
  all_space ws -> start <= String.length pre -> k <= String.length ws ->
  trim_end (pre ++ ws) start (String.length pre + k)
  = trim_end (pre ++ ws) start (String.length pre).
Proof.
  intros W Hs. induction k as [|k IH]; intros K.
  - now rewrite Nat.add_0_r.
  - rewrite Nat.add_succ_r. cbn [trim_end].
    destruct (all_space_at ws k W ltac:(lia)) as (a & c & b & E & La & Sc).
    assert (A : at_ (pre ++ ws) (String.length pre + k) = c).
    { rewrite E, <- app_assoc_s, <- La, <- length_app. apply at_app_length. }
    rewrite A, Sc.
    destruct (Nat.ltb_spec start (S (String.length pre + k))); [|lia].
    simpl. apply IH. lia.
Qed.

Lemma trim_end_stop (pre : string) (c : ascii) (post : string) (start : nat) :
  isspace c = false ->
  trim_end (pre ++ String c post) start (S (String.length pre))
  = S (String.length pre).
Proof.
  intros N. cbn [trim_end]. rewrite at_app_length, N.
  now rewrite Bool.andb_false_r.
Qed.

Lemma rev_cons_split (s : string) (c : ascii) (r : string) :
  rev s = String c r -> s = rev r ++ chr c.
Proof.
  intros H. rewrite <- (rev_involutive s), H. reflexivity.
Qed.

Lemma skip_space_length (s : string) : skip_space s <= String.length s.
Proof.
  induction s as [|c s IH]; simpl; [lia |]. destruct (isspace c); lia.
Qed.

Lemma skip_space_full (ws : string) :
  all_space ws -> skip_space ws = String.length ws.
Proof.
  intros W. rewrite <- (app_empty_r ws) at 1.
  rewrite skip_space_all by exact W. simpl. lia.
Qed.

Lemma all_space_app (a b : string) :
  all_space a -> all_space b -> all_space (a ++ b).
Proof.
  unfold all_space. induction a as [|c a IH]; simpl; [auto |].
  intros H B. apply andb_prop in H. destruct H as [C A].
  now rewrite C, IH.
Qed.

Lemma trim_end_zero (value : string) (start n : nat) :
  n <= start -> trim_end value start n = n.
Proof.
  intros L. destruct n as [|n]; [reflexivity |]. cbn [trim_end].
  destruct (Nat.ltb_spec start (S n)); [lia | reflexivity].
Qed.

Lemma trim_end_core (pre : string) (l : ascii) (ws : string) (start : nat) :
  all_space ws -> isspace l = false -> start <= S (String.length pre) ->
  trim_end (pre ++ String l ws) start (String.length (pre ++ String l ws))
  = S (String.length pre).
Proof.
  intros W N Hs.
  replace (pre ++ String l ws) with ((pre ++ chr l) ++ ws)
    by (rewrite app_assoc_s; reflexivity).
  rewrite (length_app (pre ++ chr l) ws).
  rewrite trim_end_spaces;
    [| exact W | rewrite length_app; simpl; lia | lia].
  rewrite length_app. simpl String.length. rewrite Nat.add_1_r.
  rewrite app_assoc_s. change (chr l ++ ws) with (String l ws).
  now apply trim_end_stop.
Qed.

Lemma trim_padded (ws1 core ws2 : string) :
  all_space ws1 -> all_space ws2 -> tight core ->
  trim (ws1 ++ core ++ ws2) = core.
Proof.
  intros W1 W2 [T1 T2]. unfold trim, substr.
  destruct core as [|c core'] eqn:Ec.
  - change (ws1 ++ "" ++ ws2) with (ws1 ++ ws2).
    pose proof (skip_space_full _ (all_space_app _ _ W1 W2)) as F.
    rewrite F, trim_end_zero by lia. now rewrite Nat.sub_diag.
  - rewrite <- Ec in *.
    assert (Fc : isspace c = false).
    { rewrite Ec in T1. simpl in T1. destruct (isspace c); [discriminate |
                                                           reflexivity]. }
    assert (St : skip_space (ws1 ++ core ++ ws2) = String.length ws1).
    { rewrite skip_space_all by exact W1. rewrite Ec. simpl.
      rewrite Fc. lia. }
    rewrite St.
    destruct (rev core) as [|l r] eqn:Er.
    { apply (f_equal rev) in Er. rewrite rev_involutive in Er.
      rewrite Ec in Er. discriminate. }
    assert (Fl : isspace l = false).
    { simpl in T2. destruct (isspace l); [discriminate | reflexivity]. }
    apply rev_cons_split in Er.
    assert (Ev : ws1 ++ core ++ ws2 = (ws1 ++ rev r) ++ String l ws2).
    { rewrite Er, !app_assoc_s. reflexivity. }
    assert (En : trim_end (ws1 ++ core ++ ws2) (String.length ws1)
                          (String.length (ws1 ++ core ++ ws2))
                 = String.length ws1 + String.length core).
    { rewrite Ev, trim_end_core;
        [| exact W2 | exact Fl | rewrite length_app; lia].
      rewrite Er, !length_app. simpl. lia. }
    rewrite En.
    replace (String.length ws1 + String.length core - String.length ws1)
      with (String.length core) by lia.
    rewrite drop_length_app. apply take_length_app.
Qed.

(** X17: [trim] removes the white space around a string and nothing
    else: wrapped in any white space, a string that neither starts nor
    ends with white space comes back as it was, and trimming the result
    again changes nothing. *)
Theorem trim_removes_padding :
  forall ws1 core ws2 : string,
    all_space ws1 -> all_space ws2 -> tight core ->
    trim (ws1 ++ core ++ ws2) = core
    /\ trim (trim (ws1 ++ core ++ ws2)) = trim (ws1 ++ core ++ ws2).
Proof.
  intros ws1 core ws2 W1 W2 T.
  rewrite (trim_padded ws1 core ws2 W1 W2 T). split; [reflexivity |].
  pose proof (trim_padded "" core "" eq_refl eq_refl T) as E.
  cbn [String.append] in E. now rewrite app_empty_r in E.
Qed.

Lemma trim_removes_padding_witness :
  trim ("  " ++ "text/html; charset=utf-8" ++ String "009" " ")
  = "text/html; charset=utf-8".
Proof.
  apply (proj1 (trim_removes_padding "  " "text/html; charset=utf-8"
                  (String "009" " ") eq_refl eq_refl
                  (conj eq_refl eq_refl))).
Defined.

End HeaderLines.

(** ** The declared length *)

Section DeclaredLength.

Import Str Httplib Spec Laws.

Lemma find_shift (t pre s : string) (pos : nat) :
  find t (pre ++ s) (String.length pre + pos)
  = option_map (Nat.add (String.length pre)) (find t s pos).
Proof.
  unfold find. induction pre as [|c pre IH]; simpl.
  - destruct (index pos t s); reflexivity.
  - rewrite IH. destruct (index pos t s); reflexivity.
Qed.

Lemma drop_shift (pre s : string) (pos : nat) :
  drop (String.length pre + pos) (pre ++ s) = drop pos s.
Proof. induction pre as [|c pre IH]; simpl; [reflexivity | exact IH]. Qed.

Lemma extract_loop_shift (fuel : nat) (pre s : string) (pos : nat) :
  extract_content_length_loop fuel (pre ++ s) (String.length pre + pos)
  = extract_content_length_loop fuel s pos.
Proof.
  revert pos; induction fuel as [|fuel IH]; intros pos; [reflexivity |].
  cbn [extract_content_length_loop].
  rewrite length_app, find_shift.
  replace (String.length pre + pos <? String.length pre + String.length s)%nat
    with (pos <? String.length s)%nat
    by (destruct (Nat.ltb_spec pos (String.length s));
        destruct (Nat.ltb_spec (String.length pre + pos)
                               (String.length pre + String.length s)); lia).
  destruct (pos <? String.length s)%nat; [|reflexivity].
  set (e := match find CRLF s pos with
            | Some e => e
            | None => String.length s
            end).
  replace (match option_map (Nat.add (String.length pre)) (find CRLF s pos) with
           | Some e0 => e0
           | None => String.length pre + String.length s
           end) with (String.length pre + e)
    by (unfold e; destruct (find CRLF s pos); reflexivity).
  unfold substr. rewrite drop_shift.
  replace (String.length pre + e - (String.length pre + pos)) with (e - pos)
    by lia.
  replace (String.length pre + e + 2) with (String.length pre + (e + 2))
    by lia.
  rewrite !IH. reflexivity.
Qed.

Lemma extract_loop_fuel (fuel fuel' : nat) (headers : string) (pos : nat) :
  0 < fuel -> String.length headers < pos + fuel ->
  0 < fuel' -> String.length headers < pos + fuel' ->
  extract_content_length_loop fuel headers pos
  = extract_content_length_loop fuel' headers pos.
Proof.
  revert fuel' pos; induction fuel as [|fuel IH]; intros fuel' pos F0 F F0' F';
    [lia |].
  destruct fuel' as [|fuel']; [lia |].
  cbn [extract_content_length_loop].
  destruct (Nat.ltb_spec pos (String.length headers)) as [L|L];
    [|reflexivity].
  assert (G : pos <= match find CRLF headers pos with
                     | Some e => e
                     | None => String.length headers
                     end).
  { destruct (find CRLF headers pos) eqn:E;
      [now apply find_from_ge in E | lia]. }
  destruct (find_chr ":" _); [|apply IH; lia].
  destruct (negb _); [apply IH; lia | reflexivity].
Qed.

(** The first line break of a text that starts with a line. *)
Lemma find_crlf_after_line (line rest : string) :
  find CRLF line 0 = None ->
  find CRLF (line ++ CRLF ++ rest) 0 = Some (String.length line).
Proof.
  induction line as [|c line IH]; intros H.
  { change ("" ++ CRLF ++ rest) with (String CR (String LF rest)).
    rewrite find_cons. change (String CR (String LF rest)) with (CRLF ++ rest).
    now rewrite prefix_app_self. }
  rewrite find_cons in H.
  destruct (prefix CRLF (String c line)) eqn:P; [discriminate |].
  destruct (find CRLF line 0) eqn:F; [discriminate |].
  change (String c line ++ CRLF ++ rest)
    with (String c (line ++ CRLF ++ rest)).
  rewrite find_cons, (IH eq_refl).
  replace (prefix CRLF (String c (line ++ CRLF ++ rest))) with false;
    [reflexivity |].
  symmetry. unfold CRLF in *. cbn [prefix] in *.
  destruct (ascii_dec CR c) as [<-|]; [|reflexivity].
  destruct line as [|d line].
  - cbn. destruct (ascii_dec LF CR); [discriminate | reflexivity].
  - cbn [append prefix]. destruct (ascii_dec LF d) as [<-|]; [|reflexivity].
    destruct line; discriminate.
Qed.

Lemma extract_line (line rest : string) :
  find CRLF line 0 = None ->
  extract_content_length (line ++ CRLF ++ rest)
  = match length_line line with
    | Some v => v
    | None => extract_content_length rest
    end.
Proof.
  intros H. unfold extract_content_length at 1.
  cbn [extract_content_length_loop].
  assert (L : (0 <? String.length (line ++ CRLF ++ rest))%nat = true).
  { apply Nat.ltb_lt. rewrite !length_app. simpl. lia. }
  rewrite L, (find_crlf_after_line _ _ H), Nat.sub_0_r.
  assert (Es : substr (line ++ CRLF ++ rest) 0 (String.length line) = line)
    by apply take_length_app.
  rewrite !Es. unfold length_line.
  destruct (find_chr ":" line) as [colon|].
  - destruct (case_insensitive_equal _ _); [reflexivity |].
    cbn [negb].
    replace (line ++ CRLF ++ rest) with ((line ++ CRLF) ++ rest)
      by apply app_assoc_s.
    replace (String.length line + 2) with (String.length (line ++ CRLF) + 0)
      by (rewrite length_app; simpl; lia).
    rewrite extract_loop_shift.
    rewrite (extract_loop_fuel _ (S (String.length rest)))
      by (rewrite ?length_app; simpl; lia).
    reflexivity.
  - replace (line ++ CRLF ++ rest) with ((line ++ CRLF) ++ rest)
      by apply app_assoc_s.
    replace (String.length line + 2) with (String.length (line ++ CRLF) + 0)
      by (rewrite length_app; simpl; lia).
    rewrite extract_loop_shift.
    rewrite (extract_loop_fuel _ (S (String.length rest)))
      by (rewrite ?length_app; simpl; lia).
    reflexivity.
Qed.

Lemma extract_last_line (line : string) :
  find CRLF line 0 = None ->
  extract_content_length line
  = match length_line line with Some v => v | None => 0%N end.
Proof.
  intros H. unfold extract_content_length.
  destruct line as [|c line]; [reflexivity |].
  set (text := String c line) in *.
  cbn [extract_content_length_loop].
  assert (L : (0 <? String.length text)%nat = true) by reflexivity.
  rewrite L, H, Nat.sub_0_r.
  assert (Es : substr text 0 (String.length text) = text)
    by (apply take_all; lia).
  rewrite !Es. unfold length_line.
  assert (E : extract_content_length_loop
                (String.length text) text (String.length text + 2)
              = Some 0%N).
  { unfold text. cbn [String.length extract_content_length_loop].
    destruct (Nat.ltb_spec (S (String.length line) + 2)
                           (S (String.length line))); [lia | reflexivity]. }
  destruct (find_chr ":" text) as [colon|].
  - destruct (case_insensitive_equal _ _); [reflexivity |].
    cbn [negb]. now rewrite E.
  - now rewrite E.
Qed.

(** X18: [extract_content_length] goes through the text line by line and
    returns what the first Content-Length line declares, whatever the
    case of its key and the white space around key and value; lines
    without a colon or with another key are passed over, and a text
    without such a line gives 0. *)
Theorem extract_content_length_first_line :
  forall line rest : string,
    find CRLF line 0 = None ->
    extract_content_length (line ++ CRLF ++ rest)
    = match length_line line with
      | Some v => v
      | None => extract_content_length rest
      end
    /\ extract_content_length line
       = match length_line line with Some v => v | None => 0%N end.
Proof.
  intros line rest H. split; [now apply extract_line |].
  now apply extract_last_line.
Qed.

Lemma extract_content_length_first_line_witness :
  extract_content_length
    ("GET / HTTP/1.1" ++ CRLF ++ " content-LENGTH :  7 " ++ CRLF ++ "Host: a")
  = 7%N.
Proof.
  rewrite (proj1 (extract_content_length_first_line
                    "GET / HTTP/1.1"
                    (" content-LENGTH :  7 " ++ CRLF ++ "Host: a") eq_refl)).
  change (length_line "GET / HTTP/1.1") with (@None N). cbv iota.
  rewrite (proj1 (extract_content_length_first_line
                    " content-LENGTH :  7 " "Host: a" eq_refl)).
  reflexivity.
Defined.

Lemma no_cr_no_crlf (s : string) :
  all_chars (fun c => negb (Ascii.eqb c CR)) s = true ->
  find CRLF s 0 = None.
Proof.
  induction s as [|c s IH]; simpl all_chars; intros H; [reflexivity |].
  apply andb_prop in H. destruct H as [C A].
  rewrite find_cons, (IH A).
  replace (prefix CRLF (String c s)) with false; [reflexivity |].
  symmetry. unfold CRLF. cbn [prefix].
  destruct (ascii_dec CR c) as [<-|]; [discriminate | reflexivity].
Qed.

Lemma all_chars_app (p : ascii -> bool) (a b : string) :
  all_chars p (a ++ b) = all_chars p a && all_chars p b.
Proof.
  induction a as [|c a IH]; simpl; [reflexivity |].
  now rewrite IH, Bool.andb_assoc.
Qed.

Lemma all_chars_weaken (p q : ascii -> bool) (s : string) :
  (forall c, p c = true -> q c = true) ->
  all_chars p s = true -> all_chars q s = true.
Proof.
  intros I. induction s as [|c s IH]; simpl; [reflexivity |].
  intros H. apply andb_prop in H. destruct H as [C A].
  now rewrite (I c C), IH.
Qed.

Lemma of_size_digits (n : nat) : all_chars isdigit (of_size n) = true.
Proof.
  unfold of_size, NilZero.string_of_uint.
  assert (G : forall d, all_chars isdigit (NilEmpty.string_of_uint d) = true).
  { induction d; simpl; auto. }
  destruct (Nat.to_uint n); try apply G. reflexivity.
Qed.

Lemma digits_tight (s : string) : all_chars isdigit s = true -> tight s.
Proof.
  intros H.
  assert (G : forall t, all_chars isdigit t = true -> skip_space t = 0).
  { intros [|c t] A; [reflexivity |]. simpl in *.
    apply andb_prop in A. destruct A as [C _].
    now rewrite (isdigit_not_space c C). }
  split; [now apply G |]. apply G.
  clear G. induction s as [|c s IH]; [reflexivity |].
  simpl in *. apply andb_prop in H. destruct H as [C A].
  rewrite all_chars_app, (IH A). simpl. now rewrite C.
Qed.

(** X19: the Content-Length line [send_response] writes is read back by
    [extract_content_length] as the size it was written for, for every
    size a [size_t] holds. *)
Theorem written_length_is_read_back :
  forall (n : nat) (rest : string),
    (N.of_nat n <= ULLONG_MAX)%N ->
    extract_content_length
      ("Content-Length: " ++ of_size n ++ CRLF ++ rest) = N.of_nat n.
Proof.
  intros n rest B.
  replace ("Content-Length: " ++ of_size n ++ CRLF ++ rest)
    with (("Content-Length: " ++ of_size n) ++ CRLF ++ rest)
    by (now rewrite app_assoc_s).
  rewrite extract_line.
  - unfold length_line.
    change (find_chr ":" ("Content-Length: " ++ of_size n)) with (Some 14).
    change (substr ("Content-Length: " ++ of_size n) 0 14)
      with "Content-Length".
    change (case_insensitive_equal (trim "Content-Length") "Content-Length")
      with true. cbv iota.
    replace (substr_from ("Content-Length: " ++ of_size n) (14 + 1))
      with (" " ++ of_size n ++ "") by (now rewrite app_empty_r).
    rewrite (trim_padded " " (of_size n) "");
      [now apply strtoull_of_size | reflexivity | reflexivity |].
    apply digits_tight, of_size_digits.
  - apply no_cr_no_crlf. rewrite all_chars_app. simpl.
    apply (all_chars_weaken isdigit); [|apply of_size_digits].
    intros c. destruct c as [[] [] [] [] [] [] [] []]; vm_compute; congruence.
Qed.

Lemma written_length_is_read_back_witness :
  extract_content_length
    (response_text (Response.with_body "hello" Response.init)) = 5%N.
Proof.
  change (response_text (Response.with_body "hello" Response.init))
    with ("HTTP/1.1 200 OK" ++ CRLF
          ++ "Content-Length: " ++ of_size 5 ++ CRLF
          ++ ("Connection: close" ++ CRLF ++ CRLF ++ "hello")).
  rewrite extract_line by reflexivity.
  change (length_line "HTTP/1.1 200 OK") with (@None N). cbv iota.
  apply (written_length_is_read_back 5). vm_compute. discriminate.
Defined.

End DeclaredLength.

(** ** Maps, continued *)

Section MoreMaps.

Context {V : Type}.

Lemma ascii_compare_lt_trans (a b c : ascii) :
  Ascii.compare a b = Lt -> Ascii.compare b c = Lt -> Ascii.compare a c = Lt.
Proof.
  unfold Ascii.compare. rewrite !N.compare_lt_iff. apply N.lt_trans.
Qed.

Lemma ascii_compare_eq (a b : ascii) : Ascii.compare a b = Eq -> a = b.
Proof. apply Ascii.compare_eq_iff. Qed.

Lemma key_lt_trans (a b c : string) :
  StdMap.key_lt a b -> StdMap.key_lt b c -> StdMap.key_lt a c.
Proof.
  unfold StdMap.key_lt.
  revert b c; induction a as [|x a IH]; intros [|y b] [|z c]; simpl;
    try discriminate; try reflexivity.
  destruct (Ascii.compare x y) eqn:Cxy; try discriminate;
    destruct (Ascii.compare y z) eqn:Cyz; try discriminate; intros H1 H2.
  - apply ascii_compare_eq in Cxy, Cyz. subst.
    assert (R : Ascii.compare z z = Eq)
      by (unfold Ascii.compare; apply N.compare_refl).
    rewrite R. now apply (IH b c).
  - apply ascii_compare_eq in Cxy. subst. now rewrite Cyz.
  - apply ascii_compare_eq in Cyz. subst. now rewrite Cxy.
  - now rewrite (ascii_compare_lt_trans _ _ _ Cxy Cyz).
Qed.

Lemma key_lt_irrefl (a : string) : ~ StdMap.key_lt a a.
Proof. unfold StdMap.key_lt. rewrite compare_refl. discriminate. Qed.

(** In an ordered map the first key is below all the others. *)
Lemma ordered_head (k : string) (v : V) (m : StdMap.t V) :
  StdMap.ordered ((k, v) :: m) ->
  StdMap.ordered m /\ Forall (fun e => StdMap.key_lt k (fst e)) m.
Proof.
  unfold StdMap.ordered, StdMap.keys.
  revert k v; induction m as [|[k' v'] m IH]; intros k v S; simpl in *.
  - split; constructor.
  - inversion S as [|? ? S' R]; subst. inversion R; subst.
    split; [exact S' |]. constructor; [assumption |].
    destruct (IH k' v' S') as [_ F].
    eapply Forall_impl; [|exact F]. intros e. now apply key_lt_trans.
Qed.

Lemma find_above (k : string) (m : StdMap.t V) :
  Forall (fun e => StdMap.key_lt k (fst e)) m -> StdMap.find k m = None.
Proof.
  induction 1 as [|[k' v'] m L _ IH]; simpl; [reflexivity |].
  destruct (String.eqb_spec k' k) as [->|_]; [|exact IH].
  now apply key_lt_irrefl in L.
Qed.

Lemma emplace_find_other (k k0 : string) (v : V) (m : StdMap.t V) :
  k0 <> k -> StdMap.find k0 (StdMap.emplace k v m) = StdMap.find k0 m.
Proof.
  intros N; induction m as [|[k' v'] m IH]; simpl.
  - destruct (String.eqb_spec k k0); congruence.
  - destruct (String.compare k k') eqn:C; simpl.
    + reflexivity.
    + destruct (String.eqb_spec k k0); congruence.
    + now rewrite IH.
Qed.

Lemma emplace_find_same (k : string) (v : V) (m : StdMap.t V) :
  StdMap.ordered m ->
  StdMap.find k (StdMap.emplace k v m)
  = Some match StdMap.find k m with Some v0 => v0 | None => v end.
Proof.
  induction m as [|[k' v'] m IH]; intros O; simpl.
  - now rewrite String.eqb_refl.
  - destruct (ordered_head _ _ _ O) as [O' F].
    destruct (String.compare k k') eqn:C; simpl.
    + apply compare_eq in C. subst k'. now rewrite String.eqb_refl.
    + rewrite String.eqb_refl.
      destruct (String.eqb_spec k' k) as [->|_];
        [rewrite compare_refl in C; discriminate |].
      rewrite find_above; [reflexivity |].
      eapply Forall_impl; [|exact F]. intros e. now apply key_lt_trans.
    + destruct (String.eqb_spec k' k) as [->|_];
        [rewrite compare_refl in C; discriminate |].
      now apply IH.
Qed.

Lemma emplace_ordered (k : string) (v : V) (m : StdMap.t V) :
  StdMap.ordered m -> StdMap.ordered (StdMap.emplace k v m).
Proof.
  unfold StdMap.ordered, StdMap.keys.
  induction m as [|[k' v'] m IH]; simpl; intros S.
  - repeat constructor.
  - inversion S as [|? ? S' R]; subst.
    destruct (String.compare k k') eqn:C; simpl.
    + exact S.
    + constructor; [exact S | now constructor].
    + constructor; [now apply IH |].
      apply compare_gt_lt in C.
      destruct m as [|[k2 v2] m]; simpl; [now constructor |].
      inversion R; subst.
      destruct (String.compare k k2); simpl; now constructor.
Qed.

Lemma emplace_last (acc : StdMap.t V) (k : string) (v : V) :
  Forall (fun e => StdMap.key_lt (fst e) k) acc ->
  StdMap.emplace k v acc = (acc ++ [(k, v)])%list.
Proof.
  induction 1 as [|[k' v'] acc L _ IH]; simpl; [reflexivity |].
  rewrite String.compare_antisym. unfold StdMap.key_lt in L. simpl in L.
  rewrite L. simpl. now rewrite IH.
Qed.

Lemma find_app_list (k : string) (a b : StdMap.t V) :
  StdMap.find k (a ++ b)%list
  = match StdMap.find k a with
    | Some v => Some v
    | None => StdMap.find k b
    end.
Proof.
  induction a as [|[k' v'] a IH]; simpl; [reflexivity |].
  destruct (String.eqb k' k); [reflexivity | exact IH].
Qed.

(** A run of [m[k] = v] assignments: the last one for a key stands. *)
Lemma fold_set_last (init : list (string * V)) (acc : StdMap.t V) :
  StdMap.ordered acc ->
  let m := fold_left (fun obj item => StdMap.set (fst item) (snd item) obj)
                     init acc in
  StdMap.ordered m
  /\ forall k, StdMap.find k m
               = match StdMap.find k (List.rev init) with
                 | Some v => Some v
                 | None => StdMap.find k acc
                 end.
Proof.
  revert acc; induction init as [|[k0 v0] init IH]; intros acc O; simpl.
  - split; [exact O | reflexivity].
  - destruct (IH (StdMap.set k0 v0 acc) (set_ordered _ _ _ O)) as [Om F].
    split; [exact Om |]. intros k. rewrite F, find_app_list. simpl.
    destruct (StdMap.find k (List.rev init)); [reflexivity |].
    destruct (String.eqb_spec k0 k) as [<-|N].
    + apply find_set_same.
    + apply find_set_other. congruence.
Qed.

End MoreMaps.

(** ** Documents written and read back *)

Section MoreJson.

Import Str Json Laws JsonLaws.
Context {D : DoubleOps}.

(** Induction over documents, through the elements and members. *)
Lemma json_induction (P : json -> Prop) :
  P Null -> (forall b, P (Boolean b)) -> (forall n, P (Number n)) ->
  (forall s, P (JString s)) ->
  (forall l, Forall P l -> P (Array l)) ->
  (forall m, Forall (fun e => P (snd e)) m -> P (Object m)) ->
  forall j, P j.
Proof.
  intros HN HB HNum HS HA HO. fix IH 1. intros [ |b|n|s|l|m].
  - exact HN.
  - apply HB.
  - apply HNum.
  - apply HS.
  - apply HA. revert l. fix IHl 1. intros [|x l]; constructor.
    + apply IH.
    + apply IHl.
  - apply HO. revert m. fix IHm 1. intros [|[k v] m]; constructor.
    + apply IH.
    + apply IHm.
Qed.

Lemma storable_array (l : list json) :
  storable (Array l) <-> Forall storable l.
Proof.
  induction l as [|x l IH].
  - split; [constructor | exact (fun _ => I)].
  - split.
    + intros [Hx Hl]. constructor; [exact Hx | now apply IH].
    + intros H. inversion H; subst. split; [assumption | now apply IH].
Qed.

Lemma storable_members (m : list (string * json)) :
  storable (Object m)
  <-> StdMap.ordered m /\ Forall (fun e => storable (snd e)) m.
Proof.
  unfold StdMap.ordered. cbn [storable].
  split; intros [O H]; (split; [exact O |]); clear O.
  - induction m as [|[k v] m IH]; constructor.
    + now destruct H.
    + apply IH. now destruct H.
  - induction m as [|[k v] m IH]; [exact I |].
    inversion H; subst. split; [assumption | now apply IH].
Qed.

Lemma dump_array (l : list json) (indent depth : Z) :
  dump_impl (Array l) indent depth
  = "[" ++ dump_elements indent depth l
        ++ (if is_nil l then "" else newline indent depth) ++ "]".
Proof.
  cbn [dump_impl]. do 2 f_equal.
  induction l as [|x l IH]; [reflexivity |].
  cbn [dump_elements]. now rewrite IH.
Qed.

Lemma dump_object (m : list (string * json)) (indent depth : Z) :
  dump_impl (Object m) indent depth
  = "{" ++ dump_members indent depth m
        ++ (if is_nil m then "" else newline indent depth) ++ "}".
Proof.
  cbn [dump_impl]. do 2 f_equal.
  induction m as [|[k v] m IH]; [reflexivity |].
  cbn [dump_members]. now rewrite IH.
Qed.

(** *** Objects *)

(** X20: the initializer-list constructor assigns its pairs in turn, so
    the object it builds holds for every key the value of the last pair
    with that key, and holds its keys in ascending order whatever the
    order of the list. *)
Theorem initializer_list_last_wins :
  forall init : list (string * json),
    exists m, of_pairs init = Object m
              /\ StdMap.ordered m
              /\ forall k, StdMap.find k m = StdMap.find k (List.rev init).
Proof.
  intros init. unfold of_pairs. eexists. split; [reflexivity |].
  destruct (fold_set_last init StdMap.empty empty_ordered) as [O F].
  split; [exact O |]. intros k. rewrite F.
  now destruct (StdMap.find k (List.rev init)).
Qed.

(** X21: the loop of [parse_object] never overwrites: whatever text it
    reads, when it returns it returns an object that still holds every
    member it started with, so of two members with one key the first
    stands, and the keys stay in ascending order. *)
Theorem parse_object_first_wins :
  forall (fuel : nat) (s : string) (acc : StdMap.t json) (j : json)
         (rest : string),
    StdMap.ordered acc ->
    parse_members fuel s acc = Ok j rest ->
    exists m, j = Object m
              /\ StdMap.ordered m
              /\ forall k x, StdMap.find k acc = Some x ->
                             StdMap.find k m = Some x.
Proof.
  induction fuel as [|fuel IH]; intros s acc j rest O H; [discriminate |].
  cbn [parse_members] in H.
  destruct (match_ DQ (skip_ws s)) as [r|]; [|discriminate].
  destruct (parse_string_body r) as [key r1| |]; try discriminate.
  destruct (expect ":" (skip_ws r1)) as [[] r2| |]; try discriminate.
  destruct (parse_value fuel r2) as [value r3| |]; try discriminate.
  cbv zeta in H.
  assert (K : forall k x, StdMap.find k acc = Some x ->
                StdMap.find k (StdMap.emplace key value acc) = Some x).
  { intros k x Fk. destruct (String.eqb_spec k key) as [->|N].
    - rewrite emplace_find_same by exact O. now rewrite Fk.
    - now rewrite emplace_find_other. }
  pose proof (emplace_ordered key value acc O) as O'.
  destruct (match_ "}" (skip_ws r3)) as [rest'|].
  - injection H as <- <-. eauto.
  - destruct (expect "," (skip_ws r3)) as [[] r4| |]; try discriminate.
    destruct (IH _ _ _ _ O' H) as (m & -> & Om & F). eauto 6.
Qed.

(** *** Fuel *)

(** A parse that did not run out of fuel gives the same with more. *)
Lemma parse_mono (fuel : nat) :
  (forall s f, fuel <= f -> parse_value fuel s <> OutOfFuel ->
     parse_value f s = parse_value fuel s)
  /\ (forall s acc f, fuel <= f -> parse_members fuel s acc <> OutOfFuel ->
        parse_members f s acc = parse_members fuel s acc)
  /\ (forall s acc f, fuel <= f -> parse_elements fuel s acc <> OutOfFuel ->
        parse_elements f s acc = parse_elements fuel s acc).
Proof.
  induction fuel as [|fuel (IHv & IHm & IHe)].
  { repeat split; intros; now contradiction H0. }
  split; [|split].
  - intros s [|f] L; [lia |]. cbn [parse_value].
    destruct (skip_ws s) as [|ch r]; [reflexivity |].
    destruct (Ascii.eqb ch DQ); [reflexivity |].
    destruct (Ascii.eqb ch "{").
    { destruct (match_ "}" (skip_ws r)); [reflexivity |].
      apply IHm. lia. }
    destruct (Ascii.eqb ch "[").
    { destruct (match_ "]" (skip_ws r)); [reflexivity |].
      apply IHe. lia. }
    reflexivity.
  - intros s acc [|f] L; [lia |]. cbn [parse_members].
    destruct (match_ DQ (skip_ws s)) as [r|]; [|reflexivity].
    destruct (parse_string_body r) as [key r1| |]; try reflexivity.
    destruct (expect ":" (skip_ws r1)) as [[] r2| |]; try reflexivity.
    destruct (parse_value fuel r2) as [value r3| |] eqn:Ev;
      [| |intros N; now contradiction N];
      (rewrite (IHv r2 f) by (try rewrite Ev; try discriminate; lia));
      rewrite Ev; [|reflexivity].
    destruct (match_ "}" (skip_ws r3)); [reflexivity |].
    destruct (expect "," (skip_ws r3)) as [[] r4| |]; try reflexivity.
    apply IHm. lia.
  - intros s acc [|f] L; [lia |]. cbn [parse_elements].
    destruct (parse_value fuel s) as [value r1| |] eqn:Ev;
      [| |intros N; now contradiction N];
      (rewrite (IHv s f) by (try rewrite Ev; try discriminate; lia));
      rewrite Ev; [|reflexivity].
    destruct (match_ "]" (skip_ws r1)); [reflexivity |].
    destruct (expect "," (skip_ws r1)) as [[] r2| |]; try reflexivity.
    apply IHe. lia.
Qed.

(** *** White space *)

Lemma skip_ws_lead (lead s : string) :
  all_space lead -> skip_ws (lead ++ s) = skip_ws s.
Proof.
  intros W. unfold skip_ws. rewrite skip_space_all by exact W.
  apply drop_shift.
Qed.

Lemma skip_ws_stop (c : ascii) (s : string) :
  isspace c = false -> skip_ws (String c s) = String c s.
Proof. intros H. unfold skip_ws. simpl. now rewrite H. Qed.

Lemma skip_ws_idem (s : string) : skip_ws (skip_ws s) = skip_ws s.
Proof.
  unfold skip_ws. induction s as [|c s IH]; [reflexivity |].
  simpl. destruct (isspace c) eqn:E; [exact IH |].
  simpl. now rewrite E.
Qed.

Lemma parse_value_lead (f : nat) (lead s : string) :
  all_space lead -> parse_value f (lead ++ s) = parse_value f s.
Proof.
  intros W. destruct f; [reflexivity |]. cbn [parse_value].
  now rewrite skip_ws_lead.
Qed.

Lemma parse_elements_lead (f : nat) (lead s : string) (acc : list json) :
  all_space lead -> parse_elements f (lead ++ s) acc = parse_elements f s acc.
Proof.
  intros W. destruct f; [reflexivity |]. cbn [parse_elements].
  now rewrite parse_value_lead.
Qed.

Lemma parse_elements_skip (f : nat) (s : string) (acc : list json) :
  parse_elements f (skip_ws s) acc = parse_elements f s acc.
Proof.
  destruct f; [reflexivity |]. cbn [parse_elements].
  destruct f; [reflexivity |]. cbn [parse_value].
  now rewrite skip_ws_idem.
Qed.

Lemma parse_members_skip (f : nat) (s : string) (acc : StdMap.t json) :
  parse_members f (skip_ws s) acc = parse_members f s acc.
Proof.
  destruct f; [reflexivity |]. cbn [parse_members].
  now rewrite skip_ws_idem.
Qed.

Lemma parse_members_lead (f : nat) (lead s : string) (acc : StdMap.t json) :
  all_space lead -> parse_members f (lead ++ s) acc = parse_members f s acc.
Proof.
  intros W. destruct f; [reflexivity |]. cbn [parse_members].
  now rewrite skip_ws_lead.
Qed.

Lemma fill_space (n : nat) : all_space (fill n " ").
Proof.
  unfold all_space. induction n as [|n IH]; [reflexivity | exact IH].
Qed.

Lemma newline_space (indent depth : Z) : all_space (newline indent depth).
Proof.
  unfold newline. destruct (0 <=? indent)%Z; [|reflexivity].
  apply (all_space_app (chr LF)); [reflexivity | apply fill_space].
Qed.

(** *** Strings *)

Lemma escaped_string_body (s rest : string) :
  parse_string_body (escape s ++ String DQ rest) = Ok s rest.
Proof.
  induction s as [|ch s IH]; [reflexivity |].
  cbn [escape].
  destruct (Ascii.eqb_spec ch DQ) as [->|N1];
    [simpl; now rewrite IH |].
  destruct (Ascii.eqb_spec ch BACKSLASH) as [->|N2];
    [simpl; now rewrite IH |].
  destruct (Ascii.eqb_spec ch "008") as [->|N3];
    [simpl; now rewrite IH |].
  destruct (Ascii.eqb_spec ch "012") as [->|N4];
    [simpl; now rewrite IH |].
  destruct (Ascii.eqb_spec ch LF) as [->|N5];
    [simpl; now rewrite IH |].
  destruct (Ascii.eqb_spec ch CR) as [->|N6];
    [simpl; now rewrite IH |].
  destruct (Ascii.eqb_spec ch "009") as [->|N7];
    [simpl; now rewrite IH |].
  change ((chr ch ++ escape s) ++ String DQ rest)
    with (String ch (escape s ++ String DQ rest)).
  cbn [parse_string_body].
  apply Ascii.eqb_neq in N1, N2. rewrite N1, N2, IH. reflexivity.
Qed.

(** *** Values *)

Lemma numeral_start (c : ascii) :
  isdigit c = true \/ c = "-"%char ->
  isspace c = false /\ Ascii.eqb c DQ = false /\ Ascii.eqb c "{" = false
  /\ Ascii.eqb c "[" = false /\ Ascii.eqb c "t" = false
  /\ Ascii.eqb c "f" = false /\ Ascii.eqb c "n" = false
  /\ Ascii.eqb c "]" = false.
Proof.
  intros [H | ->]; [|repeat split].
  destruct c as [[] [] [] [] [] [] [] []]; vm_compute in H;
    try discriminate; repeat split.
Qed.

(** The text of a storable value starts with a character that is
    neither white space nor a closing bracket. *)
Lemma dump_starts (j : json) (indent depth : Z) :
  storable j ->
  exists c s, dump_impl j indent depth = String c s
              /\ isspace c = false /\ Ascii.eqb c "]" = false.
Proof.
  destruct j as [ |[]|n|s|l|m]; intros Hs.
  - now exists "n"%char, "ull".
  - now exists "t"%char, "rue".
  - now exists "f"%char, "alse".
  - destruct Hs as [(c & s & E & Hc) _].
    destruct (numeral_start c Hc) as (? & _ & _ & _ & _ & _ & _ & ?).
    exists c, s. cbn [dump_impl]. auto.
  - now exists DQ, (escape s ++ chr DQ).
  - rewrite dump_array. now eexists _, _.
  - rewrite dump_object. now eexists _, _.
Qed.

Lemma closing_delimited (indent depth : Z) (c : ascii) (rest : string) :
  c = "]"%char \/ c = "}"%char ->
  delimited (newline indent depth ++ String c rest)
  /\ skip_ws (newline indent depth ++ String c rest) = String c rest.
Proof.
  intros Hc. split.
  - unfold newline. destruct (0 <=? indent)%Z; simpl; tauto.
  - rewrite skip_ws_lead by apply newline_space.
    apply skip_ws_stop. now destruct Hc as [-> | ->].
Qed.

Lemma read_elements (indent depth : Z) (rest : string) (l : list json) :
  l <> [] -> Forall reads l -> Forall storable l ->
  forall (lead : string) (acc : list json),
    all_space lead ->
    exists f0, forall f, f0 <= f ->
      parse_elements f
        (lead ++ dump_elements indent depth l
              ++ newline indent depth ++ String "]" rest) acc
      = Ok (Array (List.rev acc ++ l)%list) rest.
Proof.
  induction l as [|x l IHl]; [contradiction |].
  intros _ R Hs lead acc W.
  inversion R as [|? ? Rx Rl]; subst. inversion Hs as [|? ? Sx Sl]; subst.
  cbn [dump_elements]. rewrite !app_assoc_s.
  set (close := newline indent depth ++ String "]" rest).
  destruct (closing_delimited indent depth "]" rest (or_introl eq_refl))
    as [Dc Kc]. fold close in Dc, Kc.
  destruct l as [|y l].
  - cbn [is_nil separator dump_elements String.append].
    destruct (Rx Sx indent (depth + 1)%Z close Dc) as [f0 Hx].
    exists (S f0). intros [|f] L; [lia |].
    cbn [parse_elements].
    rewrite parse_value_lead by exact W.
    rewrite parse_value_lead by apply newline_space.
    rewrite Hx by lia. rewrite Kc. simpl. reflexivity.
  - cbn [is_nil separator].
    set (sp := if (indent <? 0)%Z then " " else "").
    assert (Wsp : all_space sp) by (subst sp; now destruct (indent <? 0)%Z).
    rewrite !app_assoc_s.
    change ("," ++ sp ++ dump_elements indent depth (y :: l) ++ close)
      with (String "," (sp ++ dump_elements indent depth (y :: l) ++ close)).
    destruct (Rx Sx indent (depth + 1)%Z
                (String "," (sp ++ dump_elements indent depth (y :: l)
                                ++ close)))
      as [f1 Hx]; [simpl; tauto |].
    destruct (IHl ltac:(discriminate) Rl Sl sp (x :: acc) Wsp) as [f2 Hl].
    exists (S (Nat.max f1 f2)). intros [|f] L; [lia |].
    cbn [parse_elements].
    rewrite parse_value_lead by exact W.
    rewrite parse_value_lead by apply newline_space.
    rewrite Hx by lia.
    rewrite skip_ws_stop by reflexivity.
    cbn [match_ expect]. simpl Ascii.eqb. cbv iota.
    fold close in Hl. rewrite Hl by lia.
    simpl List.rev. now rewrite <- app_assoc.
Qed.

Lemma ordered_below (acc : StdMap.t json) (k : string) (v : json)
      (m : StdMap.t json) :
  StdMap.ordered (acc ++ (k, v) :: m)%list ->
  Forall (fun e => StdMap.key_lt (fst e) k) acc.
Proof.
  induction acc as [|[k0 v0] acc IH]; intros O; [constructor |].
  destruct (ordered_head _ _ _ O) as [O' F].
  constructor; [|now apply IH].
  rewrite Forall_forall in F. apply (F (k, v)).
  apply in_or_app. right. now left.
Qed.

Lemma read_members (indent depth : Z) (rest : string)
      (m : list (string * json)) :
  m <> [] -> Forall (fun e => reads (snd e)) m ->
  Forall (fun e => storable (snd e)) m ->
  forall (lead : string) (acc : StdMap.t json),
    all_space lead -> StdMap.ordered (acc ++ m)%list ->
    exists f0, forall f, f0 <= f ->
      parse_members f
        (lead ++ dump_members indent depth m
              ++ newline indent depth ++ String "}" rest) acc
      = Ok (Object (acc ++ m)%list) rest.
Proof.
  induction m as [|[k v] m IHm]; [contradiction |].
  intros _ R Hs lead acc W O.
  inversion R as [|? ? Rx Rl]; subst. inversion Hs as [|? ? Sx Sl]; subst.
  cbn [snd] in Rx, Sx.
  pose proof (emplace_last acc k v (ordered_below _ _ _ _ O)) as Em.
  cbn [dump_members]. unfold dump_string, quoted. rewrite !app_assoc_s.
  set (close := newline indent depth ++ String "}" rest).
  destruct (closing_delimited indent depth "}" rest (or_intror eq_refl))
    as [Dc Kc]. fold close in Dc, Kc.
  set (sp0 := if (0 <=? indent)%Z then " " else "").
  assert (Wsp0 : all_space sp0)
    by (subst sp0; now destruct (0 <=? indent)%Z).
  assert (Key : forall tail f,
             parse_members (S f)
               (lead ++ newline indent (depth + 1) ++ chr DQ ++ escape k
                     ++ chr DQ ++ ":" ++ sp0
                     ++ dump_impl v indent (depth + 1) ++ tail) acc
             = match parse_value f
                       (dump_impl v indent (depth + 1) ++ tail) with
               | Ok value r3 =>
                   let result' := StdMap.emplace k value acc in
                   match match_ "}" (skip_ws r3) with
                   | Some rest => Ok (Object result') rest
                   | None =>
                       match expect "," (skip_ws r3) with
                       | Ok _ r4 => parse_members f r4 result'
                       | Throw what => Throw what
                       | OutOfFuel => OutOfFuel
                       end
                   end
               | other => other
               end).
  { intros tail f. cbn [parse_members].
    rewrite skip_ws_lead by exact W.
    rewrite skip_ws_lead by apply newline_space.
    change (chr DQ ++ escape k ++ chr DQ ++ ":" ++ sp0
              ++ dump_impl v indent (depth + 1) ++ tail)
      with (String DQ (escape k ++ String DQ
              (String ":" (sp0 ++ dump_impl v indent (depth + 1) ++ tail)))).
    rewrite skip_ws_stop by reflexivity.
    cbn [match_]. simpl Ascii.eqb. cbv iota.
    rewrite escaped_string_body.
    rewrite skip_ws_stop by reflexivity.
    cbn [expect]. simpl Ascii.eqb. cbv iota.
    now rewrite parse_value_lead by exact Wsp0. }
  destruct m as [|[k' v'] m].
  - cbn [is_nil separator dump_members].
    change ("" ++ "" ++ close) with close.
    destruct (Rx Sx indent (depth + 1)%Z close Dc) as [f0 Hx].
    exists (S f0). intros [|f] L; [lia |].
    rewrite Key, Hx by lia. cbv zeta. rewrite Kc. simpl.
    now rewrite Em.
  - cbn [is_nil separator].
    set (sp := if (indent <? 0)%Z then " " else "").
    assert (Wsp : all_space sp) by (subst sp; now destruct (indent <? 0)%Z).
    rewrite !app_assoc_s.
    change ("," ++ sp ++ dump_members indent depth ((k', v') :: m) ++ close)
      with (String ","
              (sp ++ dump_members indent depth ((k', v') :: m) ++ close)).
    destruct (Rx Sx indent (depth + 1)%Z
                (String "," (sp ++ dump_members indent depth ((k', v') :: m)
                                ++ close)))
      as [f1 Hx]; [simpl; tauto |].
    assert (O' : StdMap.ordered ((acc ++ [(k, v)]) ++ (k', v') :: m)%list)
      by (now rewrite <- app_assoc).
    destruct (IHm ltac:(discriminate) Rl Sl sp (acc ++ [(k, v)])%list Wsp O')
      as [f2 Hl].
    exists (S (Nat.max f1 f2)). intros [|f] L; [lia |].
    rewrite Key, Hx by lia. cbv zeta.
    rewrite skip_ws_stop by reflexivity.
    cbn [match_ expect]. simpl Ascii.eqb. cbv iota.
    rewrite Em. fold close in Hl. rewrite Hl by lia.
    now rewrite <- app_assoc.
Qed.

(** Every storable value is read back from its text, whatever the
    indentation and whatever delimiter follows. *)
Lemma reads_all (j : json) : reads j.
Proof.
  induction j as [ |b|n|s|l IH|m IH] using json_induction;
    intros Hs indent depth rest Dr.
  - exists 1. intros [|f] L; [lia | reflexivity].
  - exists 1. intros [|f] L; [lia | now destruct b].
  - destruct Hs as [(c & s & E & Hc) P]. specialize (P rest Dr).
    destruct (numeral_start c Hc) as (C0 & C1 & C2 & C3 & C4 & C5 & C6 & _).
    exists 1. intros [|f] L; [lia |].
    cbn [parse_value dump_impl]. rewrite E in *.
    change (String c s ++ rest) with (String c (s ++ rest)) in *.
    rewrite skip_ws_stop by exact C0.
    rewrite C1, C2, C3, C4, C5, C6, P. reflexivity.
  - exists 1. intros [|f] L; [lia |].
    cbn [parse_value dump_impl]. unfold dump_string, quoted.
    rewrite !app_assoc_s.
    change (chr DQ ++ escape s ++ chr DQ ++ rest)
      with (String DQ (escape s ++ String DQ rest)).
    rewrite skip_ws_stop by reflexivity.
    simpl Ascii.eqb. cbv iota. now rewrite escaped_string_body.
  - rewrite dump_array. apply storable_array in Hs.
    destruct l as [|x l].
    { exists 1. intros [|f] L; [lia | reflexivity]. }
    destruct (read_elements indent depth rest (x :: l) ltac:(discriminate)
                IH Hs "" [] eq_refl) as [f0 H0].
    exists (S f0). intros [|f] L; [lia |].
    cbn [is_nil]. rewrite !app_assoc_s.
    change ("[" ++ dump_elements indent depth (x :: l)
                ++ newline indent depth ++ "]" ++ rest)
      with (String "[" (dump_elements indent depth (x :: l)
                ++ newline indent depth ++ String "]" rest)).
    cbn [parse_value]. rewrite skip_ws_stop by reflexivity.
    simpl Ascii.eqb. cbv iota.
    rewrite parse_elements_skip.
    change (dump_elements indent depth (x :: l)
              ++ newline indent depth ++ String "]" rest)
      with ("" ++ dump_elements indent depth (x :: l)
               ++ newline indent depth ++ String "]" rest) at 2.
    rewrite H0 by lia.
    cbn [dump_elements]. rewrite !app_assoc_s.
    rewrite skip_ws_lead by apply newline_space.
    inversion Hs as [|? ? Sx _]; subst.
    destruct (dump_starts x indent (depth + 1)%Z Sx) as (c & s & E & C0 & C1).
    rewrite E.
    change (String c s ++ ?t) with (String c (s ++ t)).
    rewrite skip_ws_stop by exact C0.
    cbn [match_]. rewrite C1. reflexivity.
  - rewrite dump_object. apply storable_members in Hs. destruct Hs as [O Hs].
    destruct m as [|[k v] m].
    { exists 1. intros [|f] L; [lia | reflexivity]. }
    destruct (read_members indent depth rest ((k, v) :: m)
                ltac:(discriminate) IH Hs "" [] eq_refl O) as [f0 H0].
    exists (S f0). intros [|f] L; [lia |].
    cbn [is_nil]. rewrite !app_assoc_s.
    change ("{" ++ dump_members indent depth ((k, v) :: m)
                ++ newline indent depth ++ "}" ++ rest)
      with (String "{" (dump_members indent depth ((k, v) :: m)
                ++ newline indent depth ++ String "}" rest)).
    cbn [parse_value]. rewrite skip_ws_stop by reflexivity.
    simpl Ascii.eqb. cbv iota.
    rewrite parse_members_skip.
    change (dump_members indent depth ((k, v) :: m)
              ++ newline indent depth ++ String "}" rest)
      with ("" ++ dump_members indent depth ((k, v) :: m)
               ++ newline indent depth ++ String "}" rest) at 2.
    rewrite H0 by lia.
    cbn [dump_members]. unfold dump_string, quoted. rewrite !app_assoc_s.
    rewrite skip_ws_lead by apply newline_space.
    reflexivity.
Qed.

(** From [parse_value] with enough fuel to [parse] with its own. *)
Lemma reads_parse (j : json) (indent : Z) :
  reads j -> storable j -> parse (dump_impl j indent 0) = Ok j "".
Proof.
  intros R Hs. destruct (R Hs indent 0%Z "" I) as [f0 H].
  rewrite app_empty_r in H. unfold parse.
  set (text := dump_impl j indent 0) in *.
  set (F := S (2 * String.length text)).
  destruct (parse_fuel F) as [Pv _].
  destruct (Pv text) as [N _]; [subst F; lia |].
  destruct (parse_mono F) as [Mv _].
  rewrite <- (Mv text (Nat.max F f0)) by (auto; lia).
  rewrite H by lia. reflexivity.
Qed.

(** X22: [dump] and [parse] are a round trip: a document whose objects
    are maps with ascending keys and whose numbers print as numerals
    that [parse_number] reads back is returned by [parse] from the text
    [dump(indent)] writes, for every indentation, compact or not, and
    nothing is left unread. *)
Theorem dump_parse_round_trip :
  forall (j : json) (indent : Z),
    storable j ->
    parse (dump_impl j indent 0) = Ok j "" /\ parse (dump j) = Ok j "".
Proof.
  intros j indent Hs. split.
  - apply reads_parse; [apply reads_all | exact Hs].
  - unfold dump. apply reads_parse; [apply reads_all | exact Hs].
Qed.

End MoreJson.

Lemma seven_faithful :
  JsonLaws.faithful (D := WholeNumbers.whole) (number_of_int 7%Z).
Proof.
  split.
  - exists "7"%char, "". split; [reflexivity | now left].
  - intros [|c rest] Dl; [reflexivity |].
    simpl in Dl. destruct Dl as [-> | [-> | [-> | ->]]]; reflexivity.
Qed.

Lemma dump_parse_round_trip_witness :
  let j := Json.Object (D := WholeNumbers.whole)
             [("a", Json.Array [Json.Null; Json.Boolean true; Json.Number (number_of_int 7%Z)]);
              ("b", Json.JString (Str.chr Str.LF))] in
  Json.parse (Json.dump_impl j 2 0) = Json.Ok j ""
  /\ Json.parse (Json.dump j) = Json.Ok j "".
Proof.
  intros j. apply (dump_parse_round_trip j 2).
  split.
  - repeat constructor.
  - split; [|split; [exact I | exact I]].
    split; [exact I |]. split; [exact I |]. split; [exact seven_faithful |].
    exact I.
Defined.

Lemma parse_object_first_wins_witness :
  let text := Str.quoted "a" ++ ":7}" in
  let acc := [("a", Json.Null (D := WholeNumbers.whole))] in
  exists m, Json.parse_members 3 text acc = Json.Ok (Json.Object m) ""
            /\ StdMap.find "a" m = Some Json.Null.
Proof.
  intros text acc.
  destruct (parse_object_first_wins (D := WholeNumbers.whole) 3 text acc
              (Json.Object acc) "" ltac:(repeat constructor) eq_refl)
    as (m & E & _ & F).
  exists m. rewrite <- E. split; [reflexivity | now apply F].
Defined.

(** ** The conversions of [Node] *)

Section MoreModels.

Import Str Json Laws JsonLaws Models.
Context {D : DoubleOps}.

Lemma to_json_members (n : Node.t) :
  to_json n
  = Object [("arcana", JString (Node.arcana n));
            ("seed", Number (number_of_int (Node.seed n)));
            ("timestamp", JString (Node.timestamp n));
            ("title", JString (Node.title n))].
Proof. reflexivity. Qed.

Lemma to_json_storable (n : Node.t) :
  faithful (number_of_int (Node.seed n)) -> storable (to_json n).
Proof.
  intros F. rewrite to_json_members. split.
  - repeat constructor.
  - split; [exact I |]. split; [exact F |]. repeat split.
Qed.

(** X23: [from_json] undoes [to_json]: when the seed survives the
    conversion to a number and back, the node read from the object
    [to_json] builds is the node itself, and [get<Node>] reads the
    same. *)
Theorem from_json_to_json :
  forall n : Node.t,
    int_of_number (number_of_int (Node.seed n)) = Node.seed n ->
    from_json (to_json n) = Some n /\ Web.get_node (to_json n) = Some n.
Proof.
  intros [title arcana seed timestamp] H. simpl in H.
  rewrite to_json_members. unfold from_json, Web.get_node. simpl.
  rewrite H. split; reflexivity.
Qed.

(** X24: [from_json] and [get<Node>] read an object alike; on any
    other value neither throws, and they differ in one field:
    [from_json] sets [arcana] to its default ["0"], [get<Node>] leaves
    it empty. *)
Theorem conversions_differ_off_objects :
  forall j : json,
    (is_object j = true -> from_json j = Web.get_node j)
    /\ (is_object j = false ->
        from_json j = Some (Node.mk "" "0" 33 "")
        /\ Web.get_node j = Some (Node.mk "" "" 33 "")).
Proof.
  intros j. split; intros H.
  - unfold Web.get_node. rewrite H. reflexivity.
  - unfold Web.get_node. rewrite H.
    destruct j; try discriminate; split; reflexivity.
Qed.

(** X25: a node sent as the text [dump] writes for [to_json] is
    resolved: when the seed survives the conversions and prints
    faithfully, [/resolve] answers that body with the document holding
    [resolve(node)] and leaves the status alone. *)
Theorem resolve_handler_reads_node :
  forall (n : Node.t) (req : Request.t) (res : Response.t),
    int_of_number (number_of_int (Node.seed n)) = Node.seed n ->
    faithful (number_of_int (Node.seed n)) ->
    Request.body req = dump (to_json n) ->
    Web.resolve_handler req res
    = Response.set_content
        (dump (Web.resolve_reply (Resolver.resolve n)))
        "application/json" res.
Proof.
  intros n req res Hi Hf Hb. unfold Web.resolve_handler. rewrite Hb.
  unfold dump at 1.
  rewrite (reads_parse (to_json n) (-1) (reads_all _) (to_json_storable n Hf)).
  assert (G : Web.get_node (to_json n) = Some n).
  { destruct n as [title arcana seed timestamp]. simpl in Hi.
    rewrite to_json_members. unfold Web.get_node. simpl.
    now rewrite Hi. }
  rewrite G. reflexivity.
Qed.

End MoreModels.

Lemma from_json_to_json_witness :
  let n := Node.mk "Fool" "0" 7 "t" in
  Models.from_json (D := WholeNumbers.whole) (Models.to_json n) = Some n
  /\ Web.get_node (D := WholeNumbers.whole) (Models.to_json n) = Some n.
Proof.
  intros n. apply (from_json_to_json (D := WholeNumbers.whole) n).
  reflexivity.
Defined.

Lemma resolve_handler_reads_node_witness :
  let n := Node.mk "Fool" "0" 7 "t" in
  let req := Request.mk "POST" "/resolve"
               (Json.dump (D := WholeNumbers.whole) (Models.to_json n))
               StdMap.empty in
  Web.resolve_handler (D := WholeNumbers.whole) req Response.init
  = Response.set_content
      (Json.dump (D := WholeNumbers.whole)
         (Web.resolve_reply (Resolver.resolve n)))
      "application/json" Response.init.
Proof.
  intros n req.
  apply (resolve_handler_reads_node (D := WholeNumbers.whole) n req
           Response.init);
    [reflexivity | exact seven_faithful | reflexivity].
Defined.

(** ** The static fallback *)

Section StaticFallback.

Import Str Httplib Spec Laws.

(** What [serve_file] does with a response, by what the file system
    holds at the path it builds. *)
Lemma serve_file_result (s : Server) (fs : FileSystem) (rel : string)
  (res : Response.t) :
  serve_file s fs rel res
  = match fs (mount_root s ++ rel) with
    | Some contents =>
        (true,
         Response.set_header "Content-Type" (detect_mime rel)
           (Response.with_status 200 (Response.with_body contents res)),
         [mount_root s ++ rel])
    | None => (false, res, [mount_root s ++ rel])
    end.
Proof. reflexivity. Qed.

Lemma served_response (contents rel : string) (res : Response.t) :
  let r := ensure_default_headers
             (Response.set_header "Content-Type" (detect_mime rel)
                (Response.with_status 200 (Response.with_body contents res))) in
  Response.status r = 200%Z
  /\ Response.body r = contents
  /\ StdMap.find "Content-Type" (Response.headers r) = Some (detect_mime rel).
Proof.
  cbv zeta.
  rewrite (ensure_default_keeps _ (detect_mime rel)) by apply find_set_same.
  repeat split. apply find_set_same.
Qed.

(** The branch is taken only with an empty prefix. *)
Remark mounted_server_is_active (s : Server) (fs : FileSystem)
  (req : Request.t) (res : Response.t) :
  mount_point_ s <> "" -> exit_ (dispatch s fs req res) <> ExitMountEmpty.
Proof. intros N. rewrite dispatch_mount_empty. tauto. Qed.

(** C10, as the code has it: [set_mount_point] answers [true] whatever
    it is given; a new server is mounted at "/" on ".", and so is every
    server that only saw [Get] and [Post], while the application's
    server is mounted at "/" on "./public".  [dispatch] leaves through
    the empty-mount 404 branch exactly when no route matches and the
    mount prefix is empty.  With a prefix that is not empty the static
    fallback is active: for an unmatched request whose stripped path
    starts with the prefix, the file looked for is what remains of the
    path after the prefix and one slash, or index.html when nothing
    remains; when that name holds ".." the answer is 403 and no file is
    opened, and otherwise exactly that file is opened under the mount
    directory and the answer is 200 with its contents and the
    Content-Type of its name when it opens, 404 not_found when it does
    not. *)
Theorem default_mount_is_active :
  (forall mount_point dir s, fst (set_mount_point mount_point dir s) = true)
  /\ mount_point_ new_server = "/"
  /\ mount_dir_ new_server = "."
  /\ (forall s, routes_only s -> mount_point_ s = "/" /\ mount_dir_ s = ".")
  /\ (forall (D : DoubleOps) (reg : Web.Registry),
        mount_point_ (Web.make_server reg) = "/"
        /\ mount_dir_ (Web.make_server reg) = "./public")
  /\ forall (s : Server) (fs : FileSystem) (req : Request.t)
            (res : Response.t),
       let path := strip_query (Request.path req) in
       let d := dispatch s fs req res in
       (exit_ d = ExitMountEmpty <->
        StdMap.find path (handlers_for s (Request.method req)) = None
        /\ mount_point_ s = "")
       /\ (StdMap.find path (handlers_for s (Request.method req)) = None ->
           mount_point_ s <> "" ->
           prefix (mount_point_ s) path = true ->
           let rel := remainder (mount_point_ s) path in
           let file := if empty rel then "index.html" else rel in
           match find ".." file 0 with
           | Some _ =>
               d = mkDispatch false
                     (Response.with_body "forbidden"
                        (Response.with_status 403 res))
                     [] ExitForbidden
           | None =>
               opened d = [mount_root s ++ file]
               /\ match fs (mount_root s ++ file) with
                  | Some contents =>
                      handled d = true
                      /\ Response.status (response d) = 200%Z
                      /\ Response.body (response d) = contents
                      /\ StdMap.find "Content-Type"
                           (Response.headers (response d))
                         = Some (detect_mime file)
                  | None =>
                      handled d = false /\ response d = not_found res
                  end
           end).
Proof.
  split; [reflexivity |]. split; [reflexivity |]. split; [reflexivity |].
  split; [exact routes_only_mount |].
  split; [intros D reg; split; reflexivity |].
  intros s fs req res path d.
  split; [apply dispatch_mount_empty |].
  intros U N P rel file. subst d. unfold dispatch. fold path. rewrite U.
  destruct (empty (mount_point_ s)) eqn:Em;
    [apply empty_true in Em; contradiction |].
  destruct (String.eqb_spec path (mount_point_ s)) as [E|Ne].
  - assert (R : rel = "").
    { unfold rel, remainder. rewrite E, drop_length. reflexivity. }
    cbn [orb]. subst file. rewrite R. cbn [empty].
    change (find ".." "index.html" 0) with (@None nat). cbv iota.
    rewrite serve_file_result.
    destruct (fs (mount_root s ++ "index.html")) as [contents|].
    + split; [reflexivity |]. split; [reflexivity |].
      apply served_response.
    + repeat split.
  - rewrite Bool.andb_false_r. cbn [orb negb].
    unfold rfind0. rewrite P. unfold substr_from.
    change (match drop (String.length (mount_point_ s)) path with
            | String "/" r => r
            | _ => drop (String.length (mount_point_ s)) path
            end) with rel.
    fold file.
    destruct (find ".." file 0) as [h|]; [reflexivity |].
    rewrite serve_file_result.
    destruct (fs (mount_root s ++ file)) as [contents|].
    + split; [reflexivity |]. split; [reflexivity |].
      apply served_response.
    + repeat split.
Qed.

Lemma default_mount_is_active_witness :
  let fs : FileSystem :=
    fun p => if String.eqb p "./index.html" then Some "<html>" else None in
  let d := dispatch new_server fs (Request.mk "GET" "/" "" StdMap.empty)
                    Response.init in
  opened d = ["./index.html"]
  /\ handled d = true
  /\ Response.status (response d) = 200%Z
  /\ Response.body (response d) = "<html>"
  /\ StdMap.find "Content-Type" (Response.headers (response d))
     = Some "application/octet-stream".
Proof.
  intros fs d.
  destruct default_mount_is_active as (_ & _ & _ & _ & _ & H).
  destruct (H new_server fs (Request.mk "GET" "/" "" StdMap.empty)
              Response.init) as [_ F].
  exact (F eq_refl ltac:(discriminate) eq_refl).
Defined.

(** C10 as stated fails: [set_mount_point] accepts an empty prefix and
    answers [true], and from then on an unmatched request leaves
    [dispatch] through the empty-mount branch, with 404 and without a
    file being looked for, whatever files there are. *)
Lemma empty_mount_reachable :
  let r := set_mount_point "" "public" new_server in
  let req := Request.mk "GET" "/x" "" StdMap.empty in
  let d := dispatch (snd r) (fun _ => Some "x") req Response.init in
  fst r = true
  /\ StdMap.find (strip_query (Request.path req))
                 (handlers_for (snd r) (Request.method req)) = None
  /\ exit_ d = ExitMountEmpty
  /\ handled d = false
  /\ Response.status (response d) = 404%Z
  /\ Response.body (response d) = "not_found"
  /\ opened d = [].
Proof. repeat split. Qed.

End StaticFallback.

(** ** Framing: the request that is produced *)

Section FramedRequest.

Import Str Httplib Spec Laws.

Lemma read_word_app (a r : string) :
  no_space a ->
  match r with EmptyString => True | String c _ => isspace c = true end ->
  read_word (a ++ r) = (a, r).
Proof.
  unfold no_space. intros A R. induction a as [|c a IH].
  - destruct r as [|c r]; [reflexivity |]. simpl. now rewrite R.
  - simpl in A. apply andb_prop in A. destruct A as [C A].
    change (String c a ++ r) with (String c (a ++ r)). cbn [read_word].
    apply Bool.negb_true_iff in C. rewrite C, (IH A). reflexivity.
Qed.

Lemma extract_token_app (a r : string) :
  no_space a -> a <> "" ->
  match r with EmptyString => True | String c _ => isspace c = true end ->
  extract_token (a ++ r) = (a, r)
  /\ extract_token (" " ++ a ++ r) = (a, r).
Proof.
  intros A N R.
  assert (S0 : skip_space (a ++ r) = 0).
  { destruct a as [|c a]; [contradiction |].
    unfold no_space in A. simpl in A. apply andb_prop in A.
    destruct A as [C _]. apply Bool.negb_true_iff in C.
    simpl. now rewrite C. }
  unfold extract_token. split.
  - rewrite S0. now apply read_word_app.
  - change (" " ++ a ++ r) with (String " " (a ++ r)).
    cbn [skip_space]. change (isspace " ") with true. cbv iota.
    rewrite S0. now apply read_word_app.
Qed.

Lemma find_crlf_skip (a s : string) :
  all_chars (fun c => negb (Ascii.eqb c CR)) a = true ->
  find CRLF (a ++ s) 0
  = option_map (Nat.add (String.length a)) (find CRLF s 0).
Proof.
  induction a as [|c a IH]; intros H.
  - simpl. now destruct (find CRLF s 0).
  - simpl in H. apply andb_prop in H. destruct H as [C A].
    change (String c a ++ s) with (String c (a ++ s)).
    rewrite find_cons, (IH A).
    replace (prefix CRLF (String c (a ++ s))) with false.
    + now destruct (find CRLF s 0).
    + symmetry. unfold CRLF. cbn [prefix].
      destruct (ascii_dec CR c) as [<-|]; [discriminate | reflexivity].
Qed.

Lemma take_shift (a b : string) (n : nat) :
  take (String.length a + n) (a ++ b) = a ++ take n b.
Proof. induction a as [|c a IH]; simpl; [reflexivity | now rewrite IH]. Qed.

Lemma no_space_no_cr (s : string) :
  no_space s -> all_chars (fun c => negb (Ascii.eqb c CR)) s = true.
Proof.
  apply all_chars_weaken. intros c.
  destruct c as [[] [] [] [] [] [] [] []]; vm_compute; congruence.
Qed.

(** The request line [parse_request] reads off a wire that starts with
    one, and the tokens it takes from it. *)
Lemma request_line_tokens (method path after head body w : string) :
  wire head body w -> request_line method path after head ->
  exists line_end rest,
    find CRLF w 0 = Some line_end
    /\ extract_token (substr w 0 line_end) = (method, " " ++ path ++ rest)
    /\ extract_token (" " ++ path ++ rest) = (path, rest).
Proof.
  intros (Ew & _) (Eh & Nm & Np & Sm & Sp & Af).
  set (mp := method ++ " " ++ path).
  set (tail := after ++ CRLFCRLF ++ body).
  assert (E : w = mp ++ tail).
  { rewrite Ew, Eh. subst mp tail. now rewrite !app_assoc_s. }
  assert (Cr : all_chars (fun c => negb (Ascii.eqb c CR)) mp = true).
  { subst mp.
    rewrite !all_chars_app, (no_space_no_cr method Sm),
      (no_space_no_cr path Sp).
    reflexivity. }
  destruct (find_contains CRLF after (CRLF ++ body)) as [k Fk].
  change (after ++ CRLF ++ CRLF ++ body) with tail in Fk.
  assert (St : match tail with
               | EmptyString => False
               | String c _ => isspace c = true
               end).
  { subst tail. destruct after as [|c after]; [reflexivity | exact Af]. }
  assert (Sk : match take k tail with
               | EmptyString => True
               | String c _ => isspace c = true
               end).
  { destruct tail as [|c tail']; [contradiction |].
    destruct k; [exact I | exact St]. }
  exists (String.length mp + k), (take k tail).
  split; [rewrite E, find_crlf_skip, Fk by exact Cr; reflexivity |].
  unfold substr. cbn [drop]. rewrite E, take_shift.
  subst mp. rewrite !app_assoc_s.
  destruct (extract_token_app path (take k tail) Sp Np Sk) as [_ T2].
  split; [|exact T2].
  apply extract_token_app; [exact Sm | exact Nm | reflexivity].
Qed.

(** C5: however a wire made of a complete header block and a body of the
    declared N bytes is cut into reads, as long as every read that leaves
    part of it outstanding fills the whole chunk, [read_request] returns
    what it returns for the single read of the whole wire, and a parsed
    request carries exactly the N bytes of the body.  When the header
    block starts with a request line, a request is produced: it holds
    the method and the path of that line, the N bytes of the body, the
    position of the header terminator and the declared length N. *)
Theorem framing_partition_independent :
  forall (head body w : string) (script : list recv_result),
    wire head body w ->
    delivery w "" script ->
    read_request script = read_request [Received w]
    /\ (forall p, read_request script = Some p ->
          Request.body (request p) = body
          /\ content_length p = N.of_nat (String.length body))
    /\ (forall method path after,
          request_line method path after head ->
          exists headers,
            read_request script
            = Some (mkParsed (Request.mk method path body headers)
                             (String.length head)
                             (N.of_nat (String.length body)))).
Proof.
  intros head body w script W Dl.
  assert (Nw : w <> "").
  { destruct W as (-> & _). destruct head; discriminate. }
  assert (D1 : delivery w "" [Received w]) by (now apply delivery_last).
  rewrite (read_request_delivery _ _ _ _ W Dl),
          (read_request_delivery _ _ _ _ W D1).
  split; [reflexivity |]. split.
  - intros p H.
    pose proof (parse_request_result w (String.length head)
                  (N.of_nat (String.length body))) as R.
    rewrite H in R. destruct R as (_ & Ec & Eb).
    split; [|exact Ec].
    rewrite Eb. now apply wire_body.
  - intros method path after Rl.
    destruct (request_line_tokens _ _ _ _ _ _ W Rl)
      as (line_end & rest & Fl & T1 & T2).
    destruct Rl as (_ & Nm & Np & _).
    unfold parse_request. rewrite Fl. cbv zeta. rewrite T1, T2.
    replace (empty method || empty path) with false
      by (destruct method; [contradiction |];
          destruct path; [contradiction | reflexivity]).
    pose proof (parse_headers_loop_total (S (String.length head)) w
                  (String.length head) (line_end + 2) StdMap.empty
                  ltac:(lia) ltac:(lia)) as Hh.
    destruct (parse_headers_loop _ _ _ _ _) as [headers|];
      [|contradiction].
    exists headers. now rewrite (wire_body _ _ _ W).
Qed.

Lemma framing_partition_independent_witness :
  read_request Samples.reads = read_request [Received Samples.wire]
  /\ exists headers,
       read_request Samples.reads
       = Some (mkParsed (Request.mk "POST" "/resolve" Samples.payload headers)
                        44 9000%N).
Proof.
  assert (W : wire Samples.head Samples.payload Samples.wire)
    by (repeat split; vm_compute; reflexivity).
  assert (Dl : delivery Samples.wire "" Samples.reads).
  { apply delivery_eintr.
    apply delivery_full; [vm_compute; reflexivity |].
    apply delivery_full; [vm_compute; reflexivity |].
    apply delivery_eintr.
    apply delivery_last; [vm_compute; discriminate | vm_compute; reflexivity]. }
  destruct (framing_partition_independent
              Samples.head Samples.payload Samples.wire Samples.reads W Dl)
    as (E & _ & P).
  split; [exact E |].
  apply (P "POST" "/resolve"
           (" HTTP/1.1" ++ CRLF ++ "Content-Length: 9000")).
  repeat split; discriminate.
Defined.

End FramedRequest.

(** ** The /resolve route *)

Section ResolveRoute.

Import Str Httplib Spec Web PayloadSpec Laws.
Context {D : DoubleOps}.




End ResolveRoute.

Section ResolveRouteSamples.

Import Str Httplib Spec Web PayloadSpec.




End ResolveRouteSamples.
